(** * YouTubeSubtitleManager: a shallow embedding of the subtitle pipeline

    The development follows the Python sources:
    - [utils.py]: video identifier extraction, SRT timestamps, the timing
      normalizer [validate_and_adjust_timings];
    - [caption_fetch.py] and the caption step of [main.py]/[app.py]: the
      ordered caption providers and the language fallback;
    - [transcription.py]: the model caches and the audio download.

    A Python [str] is modelled as a [string] whose characters are the code
    points below 256; Python integers are [Z]; a raised exception is the
    [Raise] constructor of [result]. *)

From Stdlib Require Import ZArith Lia Bool Ascii String DecimalString List.
From stdpp Require Import base list strings gmap.

Local Open Scope Z_scope.

(** ** Exceptions and results *)

Inductive exn : Type :=
  | ValueError
  | UnboundLocalError
  | NoTranscriptFound
  | PytubeError
  | TimeoutExpired
  | CalledProcessError
  | OutOfMemoryError
  | OtherError.

Inductive result (A : Type) : Type :=
  | Ok (a : A)
  | Raise (e : exn).
Arguments Ok {A} a.
Arguments Raise {A} e.

Definition rbind {A B : Type} (k : A -> result B) (r : result A) : result B :=
  match r with
  | Ok a => k a
  | Raise e => Raise e
  end.

#[global] Instance result_ret : MRet result := fun _ a => Ok a.
#[global] Instance result_bind : MBind result := fun _ _ k r => rbind k r.

Definition is_ok {A : Type} (r : result A) : bool :=
  match r with Ok _ => true | Raise _ => false end.

(** ** Python string operations *)

Module PyStr.

Definition LF : ascii := ascii_of_nat 10.
Definition CR : ascii := ascii_of_nat 13.
Definition nl : string := String LF EmptyString.
Definition nlnl : string := String LF (String LF EmptyString).

Definition code (c : ascii) : nat := nat_of_ascii c.

(** [str.isspace] on one code point below 256: TAB..CR, FS..US, space,
    NEL and the no-break space. *)
Definition is_space (c : ascii) : bool :=
  let n := code c in
  ((9 <=? n) && (n <=? 13) || (28 <=? n) && (n <=? 32)
   || (n =? 133) || (n =? 160))%nat.

(** Line boundaries of [str.splitlines] below 256: LF, VT, FF, CR, FS, GS,
    RS and NEL (US is white space but no line boundary). *)
Definition is_linebreak (c : ascii) : bool :=
  let n := code c in
  ((10 <=? n) && (n <=? 13) || (28 <=? n) && (n <=? 30) || (n =? 133))%nat.

Fixpoint lstrip (s : string) : string :=
  match s with
  | EmptyString => EmptyString
  | String c s' => if is_space c then lstrip s' else s
  end.

Fixpoint rstrip (s : string) : string :=
  match s with
  | EmptyString => EmptyString
  | String c s' =>
      match rstrip s' with
      | EmptyString => if is_space c then EmptyString else String c EmptyString
      | r => String c r
      end
  end.

(** [s.strip()] *)
Definition strip (s : string) : string := rstrip (lstrip s).

(** [sub in s] *)
Fixpoint contains (sub s : string) : bool :=
  String.prefix sub s ||
  match s with
  | EmptyString => false
  | String _ s' => contains sub s'
  end.

(** [s.split(sep)] for a non-empty [sep]: the pieces between the leftmost
    non-overlapping occurrences of [sep].  [skip] counts the characters of
    a separator occurrence that are still to be passed over. *)
Fixpoint split_go (sep : string) (skip : nat) (s : string) : list string :=
  match s with
  | EmptyString => [EmptyString]
  | String c s' =>
      match skip with
      | S k => split_go sep k s'
      | O =>
          if String.prefix sep s
          then EmptyString :: split_go sep (Nat.pred (String.length sep)) s'
          else match split_go sep O s' with
               | [] => [String c EmptyString]
               | l :: ls => String c l :: ls
               end
      end
  end.

Definition split (sep s : string) : list string := split_go sep O s.

(** [s.splitlines()]: CR LF counts as one boundary, and a final boundary
    opens no further line. *)
Fixpoint splitlines (s : string) : list string :=
  match s with
  | EmptyString => []
  | String c s' =>
      if is_linebreak c then
        EmptyString ::
          (if Ascii.eqb c CR
           then match s' with
                | String c' s'' =>
                    if Ascii.eqb c' LF then splitlines s'' else splitlines s'
                | EmptyString => splitlines s'
                end
           else splitlines s')
      else match splitlines s' with
           | [] => [String c EmptyString]
           | l :: ls => String c l :: ls
           end
  end.

(** [sep.join(l)] *)
Definition join (sep : string) (l : list string) : string :=
  String.concat sep l.

(** [s.replace(a, b)] for single characters [a] and [b] *)
Fixpoint replace_char (a b : ascii) (s : string) : string :=
  match s with
  | EmptyString => EmptyString
  | String c s' =>
      String (if Ascii.eqb c a then b else c) (replace_char a b s')
  end.

(** Every character of [s] satisfies [p]. *)
Fixpoint all_chars (p : ascii -> bool) (s : string) : bool :=
  match s with
  | EmptyString => true
  | String c r => p c && all_chars p r
  end.

Definition no_linebreak (s : string) : bool :=
  all_chars (fun c => negb (is_linebreak c)) s.

(** [s] is not empty and its first character is no white space. *)
Definition starts_clean (s : string) : bool :=
  match s with
  | EmptyString => false
  | String c _ => negb (is_space c)
  end.

(** [s] is not empty and its last character is no white space. *)
Fixpoint ends_clean (s : string) : bool :=
  match s with
  | EmptyString => false
  | String c r =>
      match r with
      | EmptyString => negb (is_space c)
      | String _ _ => ends_clean r
      end
  end.

(** No occurrence of [sep] in [a ++ tail] starts inside [a]. *)
Fixpoint unmatched (sep a tail : string) : Prop :=
  match a with
  | EmptyString => True
  | String _ a' => String.prefix sep (a +:+ tail) = false /\ unmatched sep a' tail
  end.

(** Every line feed of [b] is followed by a character other than a line
    feed: [b] holds no blank line and does not end in a line feed. *)
Fixpoint solid (b : string) : bool :=
  match b with
  | EmptyString => true
  | String c r =>
      if Ascii.eqb c LF
      then match r with
           | EmptyString => false
           | String c' _ => negb (Ascii.eqb c' LF) && solid r
           end
      else solid r
  end.

End PyStr.

(** ** SRT timestamps ([utils.py]) *)

Module Timestamp.
Import PyStr.

(** The fields of a [datetime] that the code reads. *)
Record datetime : Type := mk_datetime
  { hour : Z; minute : Z; second : Z; microsecond : Z }.

Definition is_digit (c : ascii) : bool :=
  ((48 <=? code c) && (code c <=? 57))%nat.

Definition digit_val (c : ascii) : Z := Z.of_nat (code c) - 48.

Definition in_range (lo hi : nat) (c : ascii) : bool :=
  ((48 + lo <=? code c) && (code c <=? 48 + hi))%nat.

(** [int(s)] for a string of decimal digits *)
Definition int_of_digits (s : string) : Z :=
  fold_left (fun acc c => 10 * acc + digit_val c) (list_ascii_of_string s) 0.

(** A backtracking matcher lists its matches in the order in which the
    regular-expression engine tries them: value and remaining input. *)
Definition matcher (A : Type) : Type := string -> list (A * string).

Definition mret {A : Type} (a : A) : matcher A := fun s => [(a, s)].

Definition mseq {A B : Type} (m : matcher A) (k : A -> matcher B) : matcher B :=
  fun s => flat_map (fun ar => k (fst ar) (snd ar)) (m s).

Definition alt {A : Type} (m1 m2 : matcher A) : matcher A :=
  fun s => m1 s ++ m2 s.

Definition lit (c : ascii) : matcher unit :=
  fun s =>
    match s with
    | String a r => if Ascii.eqb a c then [(tt, r)] else []
    | EmptyString => []
    end.

Definition two_digits (p1 p2 : ascii -> bool) : matcher Z :=
  fun s =>
    match s with
    | String a (String b r) =>
        if p1 a && p2 b then [(10 * digit_val a + digit_val b, r)] else []
    | _ => []
    end.

Definition one_digit : matcher Z :=
  fun s =>
    match s with
    | String a r => if is_digit a then [(digit_val a, r)] else []
    | EmptyString => []
    end.

(** [%H] is [(2[0-3]|[0-1]\d|\d)], [%M] is [([0-5]\d|\d)], [%S] is
    [(6[0-1]|[0-5]\d|\d)] and [%f] is [([0-9]{1,6})] in [_strptime]. *)
Definition field_H : matcher Z :=
  alt (two_digits (in_range 2 2) (in_range 0 3))
      (alt (two_digits (in_range 0 1) is_digit) one_digit).

Definition field_M : matcher Z :=
  alt (two_digits (in_range 0 5) is_digit) one_digit.

Definition field_S : matcher Z :=
  alt (two_digits (in_range 6 6) (in_range 0 1))
      (alt (two_digits (in_range 0 5) is_digit) one_digit).

(** Greedy [[0-9]{1,n}]: the longest run first. *)
Fixpoint digits_upto (n : nat) (s : string) : list (string * string) :=
  match n with
  | O => []
  | S k =>
      match s with
      | String c r =>
          if is_digit c
          then map (fun mr => (String c (fst mr), snd mr)) (digits_upto k r)
               ++ [(String c EmptyString, r)]
          else []
      | EmptyString => []
      end
  end.

Fixpoint zeros (n : nat) : string :=
  match n with
  | O => EmptyString
  | S k => String "0" (zeros k)
  end.

(** The fraction is padded on the right to six digits: microseconds. *)
Definition field_f : matcher Z :=
  fun s =>
    map (fun mr =>
           (int_of_digits (fst mr +:+ zeros (6 - String.length (fst mr))),
            snd mr))
        (digits_upto 6 s).

(** The patterns of the formats [%H:%M:%S] and [%H:%M:%S,%f] *)
Definition re_HMS : matcher (Z * Z * Z) :=
  mseq field_H (fun h =>
  mseq (lit ":") (fun _ =>
  mseq field_M (fun m =>
  mseq (lit ":") (fun _ =>
  mseq field_S (fun s => mret (h, m, s)))))).

Definition re_HMSf : matcher (Z * Z * Z * Z) :=
  mseq field_H (fun h =>
  mseq (lit ":") (fun _ =>
  mseq field_M (fun m =>
  mseq (lit ":") (fun _ =>
  mseq field_S (fun s =>
  mseq (lit ",") (fun _ =>
  mseq field_f (fun f => mret (h, m, s, f)))))))).

(** The [datetime] constructor checks the range of every field; the
    patterns let a second of 60 or 61 through, the constructor does not. *)
Definition make_datetime (h m s us : Z) : result datetime :=
  if (0 <=? h) && (h <=? 23) && (0 <=? m) && (m <=? 59)
     && (0 <=? s) && (s <=? 59) && (0 <=? us) && (us <=? 999999)
  then Ok (mk_datetime h m s us)
  else Raise ValueError.

(** [datetime.strptime(ts, fmt)]: the pattern is matched at the start of
    [ts]; the first match must consume the whole string. *)
Definition strptime_HMSf (ts : string) : result datetime :=
  match re_HMSf ts with
  | (h, m, s, us, EmptyString) :: _ => make_datetime h m s us
  | _ => Raise ValueError
  end.

Definition strptime_HMS (ts : string) : result datetime :=
  match re_HMS ts with
  | (h, m, s, EmptyString) :: _ => make_datetime h m s 0
  | _ => Raise ValueError
  end.

Definition parse_srt_time (ts : string) : result datetime :=
  let ts := replace_char "." "," ts in
  match strptime_HMSf ts with
  | Ok dt => Ok dt
  | Raise _ =>
      match strptime_HMS ts with
      | Ok dt => Ok dt
      | Raise _ => Raise ValueError
      end
  end.

Definition time_to_ms (dt : datetime) : Z :=
  (hour dt * 3600 + minute dt * 60 + second dt) * 1000
  + microsecond dt / 1000.

(** [str(n)] for [0 <= n] *)
Definition decimal (n : Z) : string :=
  NilZero.string_of_uint (N.to_uint (Z.to_N n)).

Definition zfill (w : nat) (d : string) : string :=
  zeros (w - String.length d) +:+ d.

(** [format(n, "0w")]: sign-aware zero padding to width [w] *)
Definition format_0w (w : nat) (n : Z) : string :=
  if n <? 0
  then String "-" (zfill (w - 1) (decimal (- n)))
  else zfill w (decimal n).

Definition ms_to_time (ms : Z) : string :=
  let h := ms / 3600000 in
  let ms := ms mod 3600000 in
  let m := ms / 60000 in
  let ms := ms mod 60000 in
  let s := ms / 1000 in
  let ms_rem := ms mod 1000 in
  format_0w 2 h +:+ ":" +:+ format_0w 2 m +:+ ":" +:+ format_0w 2 s
    +:+ "," +:+ format_0w 3 ms_rem.

(** The characters of a time stamp written by [ms_to_time]. *)
Definition time_char (c : ascii) : bool :=
  is_digit c || Ascii.eqb c ":" || Ascii.eqb c ",".

(** The four fields of [ms_to_time], laid out. *)
Definition format_hmsr (h m s r : Z) : string :=
  format_0w 2 h +:+ ":" +:+ format_0w 2 m +:+ ":" +:+ format_0w 2 s
    +:+ "," +:+ format_0w 3 r.

(** The first match of the fraction field on [format_0w 3 r] is [r]
    milliseconds and leaves nothing. *)
Definition fraction_head_ok (r : Z) : bool :=
  match field_f (format_0w 3 r) with
  | (us, EmptyString) :: _ => us =? 1000 * r
  | _ => false
  end.

(** A stamp without a fraction, as [%H:%M:%S] reads it. *)
Definition format_hms (h m s : Z) : string :=
  format_0w 2 h +:+ ":" +:+ format_0w 2 m +:+ ":" +:+ format_0w 2 s.

End Timestamp.

(** ** The timing normalizer ([utils.py], [validate_and_adjust_timings]) *)

Module Normalizer.
Import PyStr Timestamp.

Definition arrow : string := "-->".
Definition arrow_sep : string := " --> ".

(** What the loop reads from one block: [idx], the two parsed times in
    milliseconds and the text lines. *)
Record raw_segment : Type := mk_raw
  { raw_idx : string; raw_start : Z; raw_end : Z; raw_text : list string }.

(** What the loop emits for one block. *)
Record segment : Type := mk_segment
  { seg_idx : string; seg_start : Z; seg_end : Z; seg_text : list string }.

(** [[b for b in srt.strip().split("\n\n") if "-->" in b]] *)
Definition blocks_of (srt : string) : list string :=
  List.filter (contains arrow) (split nlnl (strip srt)).

(** The unpacking and parsing at the head of the loop body; each of the
    four steps raises [ValueError] when it fails. *)
Definition parse_block (blk : string) : result raw_segment :=
  match splitlines blk with
  | idx :: timing :: text =>
      match split arrow_sep timing with
      | [start_s; end_s] =>
          start_dt ← parse_srt_time start_s;
          end_dt ← parse_srt_time end_s;
          Ok (mk_raw idx (time_to_ms start_dt) (time_to_ms end_dt) text)
      | _ => Raise ValueError
      end
  | _ => Raise ValueError
  end.

Definition adjust_start (min_gap prev_end start : Z) : Z :=
  Z.max start (prev_end + min_gap).

Definition adjust_end (start_ms end_ms : Z) : Z :=
  if end_ms <=? start_ms then start_ms + 500 else end_ms.

(** The [for blk in blocks] loop, threading [prev_end]. *)
Fixpoint adjust_loop (min_gap prev_end : Z) (blocks : list string)
  : result (list segment) :=
  match blocks with
  | [] => Ok []
  | blk :: rest =>
      raw ← parse_block blk;
      let start_ms := adjust_start min_gap prev_end (raw_start raw) in
      let end_ms := adjust_end start_ms (raw_end raw) in
      segs ← adjust_loop min_gap end_ms rest;
      Ok (mk_segment (raw_idx raw) start_ms end_ms (raw_text raw) :: segs)
  end.

(** The segments the normalizer emits for [srt]. *)
Definition normalize_segments (srt : string) (min_gap : Z)
  : result (list segment) :=
  adjust_loop min_gap 0 (blocks_of srt).

(** ["\n".join([idx, new_t, *text])] *)
Definition render_segment (sg : segment) : string :=
  let new_t :=
    ms_to_time (seg_start sg) +:+ arrow_sep +:+ ms_to_time (seg_end sg) in
  join nl (seg_idx sg :: new_t :: seg_text sg).

(** ["\n\n".join(out) + "\n"] *)
Definition render_timeline (segs : list segment) : string :=
  join nlnl (map render_segment segs) +:+ nl.

Definition validate_and_adjust_timings (srt : string) (min_gap : Z)
  : result string :=
  segs ← normalize_segments srt min_gap;
  Ok (render_timeline segs).

(** The second line of an emitted block. *)
Definition timing_line (start_ms end_ms : Z) : string :=
  ms_to_time start_ms +:+ arrow_sep +:+ ms_to_time end_ms.

(** The index line and the text lines of a segment hold no line
    boundary. *)
Definition clean_lines (sg : segment) : Prop :=
  no_linebreak (seg_idx sg) = true
  /\ Forall (fun l => no_linebreak l = true) (seg_text sg).

(** A block the loop body accepts: at least two lines, the second one two
    time stamps that [parse_srt_time] accepts, with [" --> "] between. *)
Definition well_formed_block (blk : string) : Prop :=
  exists idx timing text start_s end_s,
    splitlines blk = idx :: timing :: text
    /\ split arrow_sep timing = [start_s; end_s]
    /\ is_ok (parse_srt_time start_s) = true
    /\ is_ok (parse_srt_time end_s) = true.

Definition non_empty (s : string) : bool := negb (String.eqb s EmptyString).

(** A segment that reads back as it was written: it ends before 24:00:00
    and neither its index line nor a text line is empty. *)
Definition tidy_segment (sg : segment) : bool :=
  (seg_end sg <? 86400000) && non_empty (seg_idx sg)
  && forallb non_empty (seg_text sg).

(** A timeline of such segments whose first index line does not begin, and
    whose last text line does not end, with white space. *)
Definition tidy (segs : list segment) : bool :=
  forallb tidy_segment segs
  && match segs with
     | sg :: _ => starts_clean (seg_idx sg)
     | [] => true
     end
  && match last segs with
     | Some sg =>
         match last (seg_text sg) with
         | Some line => ends_clean line
         | None => true
         end
     | None => true
     end.

(** [spaced g prev segs]: each segment starts [g] after the end of the one
    before it, the first one [g] after [prev]. *)
Fixpoint spaced (g prev : Z) (segs : list segment) : Prop :=
  match segs with
  | [] => True
  | sg :: rest => prev + g <= seg_start sg /\ spaced g (seg_end sg) rest
  end.


(** The segment that keeps the times of a parsed block. *)
Definition segment_of_raw (raw : raw_segment) : segment :=
  mk_segment (raw_idx raw) (raw_start raw) (raw_end raw) (raw_text raw).

(** Parsed blocks that need no repair: each starts [g] after the end of the
    one before it (the first one [g] after [prev]) and ends after its
    start. *)
Fixpoint well_spaced (g prev : Z) (raws : list raw_segment) : Prop :=
  match raws with
  | [] => True
  | raw :: rest =>
      prev + g <= raw_start raw /\ raw_start raw < raw_end raw
      /\ well_spaced g (raw_end raw) rest
  end.

End Normalizer.

(** ** Video identifier extraction ([utils.py], [extract_video_id]) *)

Module VideoId.
Import PyStr Timestamp.

(** The character class [[0-9A-Za-z_-]] *)
Definition is_id_char (c : ascii) : bool :=
  let n := code c in
  ((48 <=? n) && (n <=? 57) || (65 <=? n) && (n <=? 90)
   || (97 <=? n) && (n <=? 122) || (n =? 95) || (n =? 45))%nat.

(** [[0-9A-Za-z_-]{n}] at the head of [s]: the characters matched and the
    remaining input.  The class has a fixed width, so there is one way to
    match. *)
Fixpoint take_id (n : nat) (s : string) : option (string * string) :=
  match n with
  | O => Some (EmptyString, s)
  | S k =>
      match s with
      | String c r =>
          if is_id_char c
          then match take_id k r with
               | Some (g, rest) => Some (String c g, rest)
               | None => None
               end
          else None
      | EmptyString => None
      end
  end.

Fixpoint drop (n : nat) (s : string) : string :=
  match n, s with
  | S k, String _ r => drop k r
  | _, _ => s
  end.

(** A pattern [(?:p1|p2|...)([0-9A-Za-z_-]{11})] tried at the head of [s]:
    the alternatives in order, group 1 of the first that matches.  A
    trailing [.*] always matches and does not change the group. *)
Fixpoint match_here (prefixes : list string) (s : string) : option string :=
  match prefixes with
  | [] => None
  | p :: ps =>
      if String.prefix p s
      then match take_id 11 (drop (String.length p) s) with
           | Some (g, _) => Some g
           | None => match_here ps s
           end
      else match_here ps s
  end.

(** [re.search]: the leftmost position at which the pattern matches. *)
Fixpoint search (prefixes : list string) (s : string) : option string :=
  match match_here prefixes s with
  | Some g => Some g
  | None =>
      match s with
      | String _ r => search prefixes r
      | EmptyString => None
      end
  end.

(** [^([A-Za-z0-9_-]{11})$]: [^] is the start of the string, [$] its end
    or the position before a final newline. *)
Definition match_bare (s : string) : option string :=
  match take_id 11 s with
  | Some (g, rest) =>
      if String.eqb rest EmptyString || String.eqb rest nl
      then Some g else None
  | None => None
  end.

(** The four patterns, in the order of the list in the source. *)
Definition extract_video_id (url : string) : string :=
  match search ["v="; "/"] url with
  | Some g => g
  | None =>
      match search ["youtu.be/"] url with
      | Some g => g
      | None =>
          match search ["embed/"] url with
          | Some g => g
          | None =>
              match match_bare url with
              | Some g => g
              | None => EmptyString
              end
          end
      end
  end.

(** An identifier: [n] characters of the class [[A-Za-z0-9_-]]. *)
Definition id_string (n : nat) (g : string) : Prop :=
  String.length g = n
  /\ Forall (fun c => is_id_char c = true) (list_ascii_of_string g).

End VideoId.

(** ** Caption providers and the resolver ([caption_fetch.py], [main.py]) *)

Module Captions.
Import PyStr.

Inductive provider_id : Type := TranscriptApi | YtDlp | Pytube.

(** What a run does to the outside, in order.  [Call p lang] marks the
    call [fn(video_id, lang)] that [get_captions] makes; the other events
    are the requests the providers send. *)
Inductive event : Type :=
  | Call (p : provider_id) (lang : string)
  | ListTranscripts (vid : string)
  | FindTranscript (lang : string)
  | RunYtDlp (vid sub_langs : string)
  | PytubeCaptions (vid : string).

(** The answers of the three services.
    - [list_transcripts vid] raises or gives the listing; the listing maps
      a language to its transcript, [None] standing for [NoTranscriptFound];
      a transcript is the outcome of [fetch] followed by the SRT formatter.
    - [run_ytdlp vid sub_langs] raises (time-out, missing binary) or gives
      the return code and the directory listing: file names with the
      outcome of reading each file.
    - [pytube_captions vid] raises or gives the caption tracks in the
      order of the dictionary: code and outcome of
      [generate_srt_captions]. *)
Record world : Type := mk_world
  { list_transcripts : string -> result (string -> option (result string));
    run_ytdlp : string -> string -> result (Z * list (string * result string));
    pytube_captions : string -> result (list (string * result string)) }.

Definition traced (A : Type) : Type := (list event * A)%type.

Definition provider : Type := string -> string -> traced (result string).

(** [srt and srt.strip()] *)
Definition nonblank (s : string) : bool :=
  negb (String.eqb s EmptyString) && negb (String.eqb (strip s) EmptyString).

Definition fetch_via_transcript_api (w : world) : provider :=
  fun video_id lang =>
    match list_transcripts w video_id with
    | Raise e => ([ListTranscripts video_id], Raise e)
    | Ok transcripts =>
        match transcripts lang with
        | Some tr =>
            ([ListTranscripts video_id; FindTranscript lang], tr)
        | None =>
            match transcripts "en" with
            | Some tr =>
                ([ListTranscripts video_id; FindTranscript lang;
                  FindTranscript "en"], tr)
            | None =>
                ([ListTranscripts video_id; FindTranscript lang;
                  FindTranscript "en"], Raise NoTranscriptFound)
            end
        end
    end.

(** [fn.endswith(suffix)] *)
Definition endswith (suffix s : string) : bool :=
  String.eqb (VideoId.drop (String.length s - String.length suffix) s) suffix
  && (String.length suffix <=? String.length s)%nat.

Fixpoint first_srt (files : list (string * result string)) : result string :=
  match files with
  | [] => Ok EmptyString
  | (fn, content) :: rest =>
      if endswith ".srt" fn then content else first_srt rest
  end.

Definition fetch_via_ytdlp (w : world) : provider :=
  fun video_id lang =>
    let sub_langs := lang +:+ ",en" in
    ([RunYtDlp video_id sub_langs],
     match run_ytdlp w video_id sub_langs with
     | Raise e => Raise e
     | Ok (returncode, files) =>
         if negb (returncode =? 0) then Ok EmptyString else first_srt files
     end).

Fixpoint caps_lookup (key : string) (caps : list (string * result string))
  : option (result string) :=
  match caps with
  | [] => None
  | (k, v) :: rest => if String.eqb k key then Some v else caps_lookup key rest
  end.

Definition caps_mem (key : string) (caps : list (string * result string)) : bool :=
  match caps_lookup key caps with Some _ => true | None => false end.

(** [for c in caps.values(): ...] of the pytube provider *)
Fixpoint any_caption (caps : list (string * result string)) : result string :=
  match caps with
  | [] => Ok EmptyString
  | (_, c) :: rest =>
      text ← c;
      if negb (String.eqb (strip text) EmptyString) then Ok text
      else any_caption rest
  end.

Definition pytube_body (lang : string) (caps : list (string * result string))
  : result string :=
  let key :=
    if caps_mem lang caps then Some lang
    else if caps_mem ("a." +:+ lang) caps then Some ("a." +:+ lang)
    else None in
  match key with
  | Some k =>
      if negb (String.eqb k EmptyString) then
        match caps_lookup k caps with
        | Some c =>
            text ← c;
            if negb (String.eqb (strip text) EmptyString) then Ok text
            else any_caption caps
        | None => any_caption caps
        end
      else any_caption caps
  | None => any_caption caps
  end.

(** [except (PytubeError, VideoUnavailable)]: both are [PytubeError] here,
    the second being a subclass of the first. *)
Definition fetch_via_pytube (w : world) : provider :=
  fun video_id lang =>
    ([PytubeCaptions video_id],
     match (caps ← pytube_captions w video_id; pytube_body lang caps) with
     | Ok text => Ok text
     | Raise PytubeError => Ok EmptyString
     | Raise e => Raise e
     end).

(** The body of [get_captions] for a tuple of provider functions. *)
Fixpoint try_providers (fns : list (provider_id * provider))
    (video_id lang : string) : traced string :=
  match fns with
  | [] => ([], EmptyString)
  | (p, fn) :: rest =>
      let '(t, r) := fn video_id lang in
      match r with
      | Ok srt =>
          if nonblank srt then (Call p lang :: t, srt)
          else let '(t', s) := try_providers rest video_id lang in
               (Call p lang :: t ++ t', s)
      | Raise _ =>
          let '(t', s) := try_providers rest video_id lang in
          (Call p lang :: t ++ t', s)
      end
  end.

Definition get_captions (w : world) (video_id lang : string) : traced string :=
  try_providers
    [(TranscriptApi, fetch_via_transcript_api w);
     (YtDlp, fetch_via_ytdlp w);
     (Pytube, fetch_via_pytube w)]
    video_id lang.

(** The online-caption step of [main] (and of [app.py]): the captions
    and the language they are filed under. *)
Definition caption_step (w : world) (vid source_lang : string)
  : traced (string * string) :=
  let '(t1, srt) := get_captions w vid source_lang in
  if String.eqb srt EmptyString && negb (String.eqb source_lang "en")
  then let '(t2, srt2) := get_captions w vid "en" in
       (t1 ++ t2, (srt2, "en"))
  else (t1, (srt, source_lang)).

(** What a provider yields to [get_captions]: its text when it returned
    one that is not blank, nothing when it raised or returned a blank
    string. *)
Definition yields (r : result string) : option string :=
  match r with
  | Ok srt => if nonblank srt then Some srt else None
  | Raise _ => None
  end.

(** The provider calls of a trace, in order. *)
Definition provider_calls (t : list event) : list (provider_id * string) :=
  omap (fun e => match e with Call p lang => Some (p, lang) | _ => None end) t.

(** The languages an event asks a service for. *)
Definition consults (lang : string) (e : event) : bool :=
  match e with
  | FindTranscript l => String.eqb l lang
  | RunYtDlp _ sub_langs => existsb (String.eqb lang) (split "," sub_langs)
  | _ => false
  end.

(** The reading of "provider fallback is exhausted before language
    fallback": whenever the trace asks a service for the fallback language,
    each of the three providers has been called for [lang] before. *)
Definition exhausted_before_fallback (lang fallback : string)
    (t : list event) : Prop :=
  forall i e,
    t !! i = Some e -> consults fallback e = true ->
    forall p, exists j, (j < i)%nat /\ t !! j = Some (Call p lang).

(** A listing with an English transcript only. *)
Definition english_only : world :=
  mk_world
    (fun _ => Ok (fun l => if String.eqb l "en" then Some (Ok "Hello") else None))
    (fun _ _ => Ok (1, []))
    (fun _ => Ok []).

(** Services that fail for every language but English: no such transcript,
    no subtitle file, no caption track. *)
Definition only_english_anywhere : world :=
  mk_world
    (fun _ => Raise OtherError)
    (fun _ subs =>
       if String.eqb subs "en,en" then Ok (0, [("v.en.srt", Ok "Hello")])
       else Ok (1, []))
    (fun _ => Raise PytubeError).

(** Caption tracks in English and in French, the English one first. *)
Definition two_tracks_caps : list (string * result string) :=
  [("en", Ok "Hello"); ("fr", Ok "Salut")].

Definition two_tracks : world :=
  mk_world (fun _ => Raise OtherError) (fun _ _ => Ok (1, []))
    (fun _ => Ok two_tracks_caps).

(** The listing of [english_only]. *)
Definition english_listing : string -> option (result string) :=
  fun l => if String.eqb l "en" then Some (Ok "Hello") else None.

End Captions.

(** ** The model caches ([transcription.py]) *)

Module ModelCache.

(** A loaded model is a handle. *)
Definition model : Type := nat.

(** The two module-level dictionaries [_whisper_models] and
    [_faster_models], keyed by the size name. *)
Record caches : Type := mk_caches
  { whisper_models : gmap string model;
    faster_models : gmap string model }.

Definition MAX_CACHED_MODELS : nat := 1.

Definition VALID_MODEL_SIZES : list string :=
  ["tiny"; "base"; "small"; "medium"; "large";
   "large-v1"; "large-v2"; "large-v3"].

Definition validate_model_size (model_size : string) : bool :=
  existsb (String.eqb model_size) VALID_MODEL_SIZES.

Definition empty_caches : caches := mk_caches ∅ ∅.

(** Every key of both dictionaries is deleted. *)
Definition clean_model_cache (c : caches) : caches := empty_caches.

Definition mem (k : string) (m : gmap string model) : bool :=
  bool_decide (is_Some (m !! k)).

(** [_get_whisper_model(size)]; [load] is the outcome of
    [whisper.load_model(size)], should it be called. *)
Definition _get_whisper_model (size_ : string) (load : result model)
    (c : caches) : caches * result model :=
  if negb (validate_model_size size_) then (c, Raise ValueError)
  else
    let c1 :=
      if (MAX_CACHED_MODELS <=? size (whisper_models c))%nat
         && negb (mem size_ (whisper_models c))
      then clean_model_cache c else c in
    match whisper_models c1 !! size_ with
    | Some m => (c1, Ok m)
    | None =>
        match load with
        | Ok m =>
            (mk_caches (<[size_ := m]> (whisper_models c1)) (faster_models c1),
             Ok m)
        | Raise e => (c1, Raise e)
        end
    end.

(** [_get_faster_model(size)], with the outcome of [WhisperModel(...)]. *)
Definition _get_faster_model (size_ : string) (load : result model)
    (c : caches) : caches * result model :=
  if negb (validate_model_size size_) then (c, Raise ValueError)
  else
    let c1 :=
      if (MAX_CACHED_MODELS <=? size (faster_models c))%nat
         && negb (mem size_ (faster_models c))
      then clean_model_cache c else c in
    match faster_models c1 !! size_ with
    | Some m => (c1, Ok m)
    | None =>
        match load with
        | Ok m =>
            (mk_caches (whisper_models c1) (<[size_ := m]> (faster_models c1)),
             Ok m)
        | Raise e => (c1, Raise e)
        end
    end.

(** The unloading at the end of [transcribe_whisper] and
    [transcribe_faster]: [if model_size in d: del d[model_size]]. *)
Definition release_whisper (size_ : string) (c : caches) : caches :=
  mk_caches (delete size_ (whisper_models c)) (faster_models c).

Definition release_faster (size_ : string) (c : caches) : caches :=
  mk_caches (whisper_models c) (delete size_ (faster_models c)).

Inductive op : Type :=
  | GetWhisper (size_ : string) (load : result model)
  | GetFaster (size_ : string) (load : result model)
  | ReleaseWhisper (size_ : string)
  | ReleaseFaster (size_ : string)
  | Clear.

Definition step (c : caches) (o : op) : caches :=
  match o with
  | GetWhisper s load => fst (_get_whisper_model s load c)
  | GetFaster s load => fst (_get_faster_model s load c)
  | ReleaseWhisper s => release_whisper s c
  | ReleaseFaster s => release_faster s c
  | Clear => clean_model_cache c
  end.

Definition run (ops : list op) (c : caches) : caches := fold_left step ops c.

Definition total_entries (c : caches) : nat :=
  (size (whisper_models c) + size (faster_models c))%nat.

(** Each dictionary on its own stays within [MAX_CACHED_MODELS]. *)
Definition each_bounded (c : caches) : Prop :=
  (size (whisper_models c) <= MAX_CACHED_MODELS)%nat
  /\ (size (faster_models c) <= MAX_CACHED_MODELS)%nat.

(** Both backends load the same size, one after the other, as
    [transcribe_faster] followed by [transcribe_whisper] does when the
    first returns no segments. *)
Definition two_backends : list op :=
  [GetFaster "base" (Ok 1%nat); GetWhisper "base" (Ok 2%nat)].

End ModelCache.

(** ** Audio download ([transcription.py]) *)

Module Download.
Import PyStr.

(** The part of a string after the last [c], if [c] occurs. *)
Fixpoint after_last (c : ascii) (s : string) : option string :=
  match s with
  | EmptyString => None
  | String a r =>
      match after_last c r with
      | Some t => Some t
      | None => if Ascii.eqb a c then Some r else None
      end
  end.

Fixpoint lstrip_dots (s : string) : string :=
  match s with
  | String "." r => lstrip_dots r
  | _ => s
  end.

(** [os.path.splitext(p)[1]] with [/] as separator: the extension starts
    at the last dot of the last component, leading dots set aside. *)
Definition splitext_ext (p : string) : string :=
  let base := match after_last "/" p with Some b => b | None => p end in
  match after_last "." (lstrip_dots base) with
  | Some e => String "." e
  | None => EmptyString
  end.

(** [str.lower] on one code point below 256 *)
Definition lower_char (c : ascii) : ascii :=
  let n := code c in
  if ((65 <=? n) && (n <=? 90)
      || (192 <=? n) && (n <=? 222) && negb (n =? 215))%nat
  then ascii_of_nat (n + 32) else c.

Fixpoint lower (s : string) : string :=
  match s with
  | EmptyString => EmptyString
  | String c r => String (lower_char c) (lower r)
  end.

(** [os.path.join(a, b)] *)
Definition path_join (a b : string) : string :=
  if String.prefix "/" b then b
  else if String.eqb a EmptyString || Captions.endswith "/" a then a +:+ b
  else a +:+ "/" +:+ b.

(** [s.split()]: the maximal runs of characters that are not white space *)
Fixpoint split_ws (s : string) : list string :=
  match s with
  | EmptyString => []
  | String c r =>
      if is_space c then split_ws r
      else match r with
           | EmptyString => [String c EmptyString]
           | String c' _ =>
               if is_space c' then String c EmptyString :: split_ws r
               else match split_ws r with
                    | w :: ws => String c w :: ws
                    | [] => [String c EmptyString]
                    end
           end
  end.

(** The file system as the checks see it. *)
Record fs : Type := mk_fs
  { path_exists : string -> bool; getsize : string -> Z }.

(** The surroundings of one call of [download_audio]. *)
Record env : Type := mk_env
  { makedirs : string -> result unit;
    which : string -> option string;
    sys_executable : string;
    mkdtemp : string -> result string;
    subprocess_run : list string -> result unit;
    listdir : string -> result (list string);
    fs_after_cli : fs;
    HAS_YTDLP_PY : bool;
    extract_info : string -> string -> result (option string);
    fs_after_api : fs }.

Definition in_list (s : string) (l : list string) : bool :=
  existsb (String.eqb s) l.

Definition check_audio_file (f : fs) (file_path : string) : bool :=
  if negb (path_exists f file_path) then false
  else if getsize f file_path <? 1000 then false
  else in_list (lower (splitext_ext file_path)) [".mp3"; ".wav"; ".m4a"; ".flac"].

Definition truthy (o : option string) : option string :=
  match o with
  | Some s => if String.eqb s EmptyString then None else Some s
  | None => None
  end.

(** [_download_with_yt_dlp_api]: every exception ends in [""]. *)
Definition _download_with_yt_dlp_api (e : env) (url outdir video_id : string)
  : string :=
  if negb (HAS_YTDLP_PY e) then EmptyString
  else
    match extract_info e url (path_join outdir (video_id +:+ ".%(ext)s")) with
    | Raise _ => EmptyString
    | Ok info =>
        match truthy info with
        | Some audio_path =>
            if path_exists (fs_after_api e) audio_path then audio_path
            else
              let audio_path := path_join outdir (video_id +:+ ".mp3") in
              if path_exists (fs_after_api e) audio_path then audio_path
              else EmptyString
        | None =>
            let audio_path := path_join outdir (video_id +:+ ".mp3") in
            if path_exists (fs_after_api e) audio_path then audio_path
            else EmptyString
        end
    end.

(** The [for fname in os.listdir(temp_dir)] loop of the command-line
    path: the first file that passes both tests is returned. *)
Fixpoint first_audio (f : fs) (temp_dir video_id : string)
    (names : list string) : option string :=
  match names with
  | [] => None
  | fname :: rest =>
      let last_part :=
        match after_last "." fname with Some t => t | None => fname end in
      if String.prefix video_id fname && in_list last_part ["mp3"; "m4a"; "wav"]
      then
        let audio_path := path_join temp_dir fname in
        if check_audio_file f audio_path then Some audio_path
        else first_audio f temp_dir video_id rest
      else first_audio f temp_dir video_id rest
  end.

(** The [try] block of the command-line path. *)
Definition cli_attempt (e : env) (ytdlp_cmd url outdir video_id : string)
  : result (option string) :=
  temp_dir ← mkdtemp e outdir;
  let out_tmpl := path_join temp_dir (video_id +:+ ".%(ext)s") in
  let cmd :=
    split_ws ytdlp_cmd
    ++ ["-f"; "bestaudio"; "--quiet"; "--no-warnings";
        "--extract-audio"; "--audio-format"; "mp3"; "-o"; out_tmpl; url] in
  _ ← subprocess_run e cmd;
  names ← listdir e temp_dir;
  Ok (first_audio (fs_after_cli e) temp_dir video_id names).

Definition api_fallback (e : env) (url outdir video_id : string) : string :=
  let api_path := _download_with_yt_dlp_api e url outdir video_id in
  if negb (String.eqb api_path EmptyString)
     && check_audio_file (fs_after_api e) api_path
  then api_path else EmptyString.

(** [download_audio].  When neither [yt-dlp] nor [yt_dlp] is on the path,
    line 207 reads the local [cmd] before any assignment to it, outside
    the [try]: [UnboundLocalError]. *)
Definition download_audio (e : env) (video_id outdir : string)
  : result string :=
  _ ← makedirs e outdir;
  let url := "https://www.youtube.com/watch?v=" +:+ video_id in
  match truthy (match truthy (which e "yt-dlp") with
                | Some p => Some p
                | None => which e "yt_dlp"
                end) with
  | None => Raise UnboundLocalError
  | Some ytdlp_cmd =>
      match cli_attempt e ytdlp_cmd url outdir video_id with
      | Ok (Some audio_path) => Ok audio_path
      | Ok None | Raise _ => Ok (api_fallback e url outdir video_id)
      end
  end.

(** A machine without a [yt-dlp] binary; everything else works, and the
    Python package is installed. *)
Definition no_binary_env : env :=
  mk_env
    (fun _ => Ok tt)
    (fun _ => None)
    "/usr/bin/python3"
    (fun outdir => Ok (path_join outdir "tmpabc"))
    (fun _ => Ok tt)
    (fun _ => Ok [])
    (mk_fs (fun _ => false) (fun _ => 0))
    true
    (fun _ _ => Ok (Some "out/dQw4w9WgXcQ.mp3"))
    (mk_fs (fun _ => true) (fun _ => 4096)).

(** The same machine with the binary on the path, the command failing. *)
Definition failing_binary_env : env :=
  mk_env
    (fun _ => Ok tt)
    (fun name => if String.eqb name "yt-dlp" then Some "/usr/bin/yt-dlp" else None)
    "/usr/bin/python3"
    (fun outdir => Ok (path_join outdir "tmpabc"))
    (fun _ => Raise CalledProcessError)
    (fun _ => Ok [])
    (mk_fs (fun _ => false) (fun _ => 0))
    true
    (fun _ _ => Ok (Some "out/dQw4w9WgXcQ.mp3"))
    (mk_fs (fun _ => true) (fun _ => 4096)).

End Download.

(** ** Inputs of the scenarios *)

Module Scenarios.
Import PyStr.

Definition block (idx timing text : string) : string :=
  idx +:+ nl +:+ timing +:+ nl +:+ text.

(** Scenario A: the second block overlaps the first. *)
Definition scenario_A : string :=
  block "1" "00:00:01,000 --> 00:00:02,000" "Hello" +:+ nlnl
  +:+ block "2" "00:00:01,500 --> 00:00:03,000" "World" +:+ nl.

Definition scenario_A_out : string :=
  block "1" "00:00:01,000 --> 00:00:02,000" "Hello" +:+ nlnl
  +:+ block "2" "00:00:02,100 --> 00:00:03,000" "World" +:+ nl.

Definition scenario_A_segments : list Normalizer.segment :=
  [Normalizer.mk_segment "1" 1000 2000 ["Hello"];
   Normalizer.mk_segment "2" 2100 3000 ["World"]].

(** Scenario B: the second block ends where its adjusted start lies. *)
Definition scenario_B : string :=
  block "1" "00:00:01,000 --> 00:00:02,000" "Hello" +:+ nlnl
  +:+ block "2" "00:00:01,500 --> 00:00:02,100" "World" +:+ nl.


(** A time stamp that is none. *)
Definition scenario_malformed : string :=
  block "1" "00:00:01,000 --> 00:00:0x,000" "Hello" +:+ nl.

(** A late block followed by an early one: the second is moved past
    midnight. *)
Definition scenario_midnight : string :=
  block "1" "23:59:59,000 --> 23:59:59,950" "Late" +:+ nlnl
  +:+ block "2" "00:00:00,000 --> 00:00:01,000" "Early" +:+ nl.

Definition scenario_midnight_out : string :=
  block "1" "23:59:59,000 --> 23:59:59,950" "Late" +:+ nlnl
  +:+ block "2" "24:00:00,050 --> 24:00:00,550" "Early" +:+ nl.

(** A file with CR LF line ends: no ["\n\n"] in it, one block. *)
Definition crlf : string := String CR (String LF EmptyString).

Definition scenario_crlf : string :=
  "1" +:+ crlf +:+ "00:00:01,000 --> 00:00:02,000" +:+ crlf +:+ "Hello"
  +:+ crlf +:+ crlf
  +:+ "2" +:+ crlf +:+ "00:00:01,500 --> 00:00:03,000" +:+ crlf +:+ "World"
  +:+ crlf.

(** The blocks of the output of scenario A, as the loop reads them. *)
Definition scenario_A_out_raws : list Normalizer.raw_segment :=
  [Normalizer.mk_raw "1" 1000 2000 ["Hello"];
   Normalizer.mk_raw "2" 2100 3000 ["World"]].

End Scenarios.

(** ** Flattening to a paragraph ([utils.py], [srt_to_paragraph]) *)

Module Paragraph.
Import PyStr.

(** What one block adds to [paras]: with three lines or more, the lines
    from the third on, joined by blanks and stripped. *)
Definition block_text (blk : string) : option string :=
  match splitlines blk with
  | _ :: _ :: t :: ts => Some (strip (join " " (t :: ts)))
  | _ => None
  end.

Definition paras (srt : string) : list string :=
  omap block_text (split nlnl (strip srt)).

(** [re.sub(r'\s+', ' ', text)]: every maximal run of white space becomes
    one blank.  [in_run] tells that the blank of the current run is
    written. *)
Fixpoint collapse (in_run : bool) (s : string) : string :=
  match s with
  | EmptyString => EmptyString
  | String c r =>
      if is_space c
      then if in_run then collapse true r else String " " (collapse true r)
      else String c (collapse false r)
  end.

Definition sub_spaces (text : string) : string := collapse false text.

Definition srt_to_paragraph (srt : string) : string :=
  strip (sub_spaces (join " " (paras srt))).

(** The only white space of [s] is the blank, and never two in a row. *)
Fixpoint single_spaced (s : string) : bool :=
  match s with
  | EmptyString => true
  | String c r =>
      (negb (is_space c) || Ascii.eqb c " ")
      && match r with
         | String d _ => negb (is_space c && is_space d)
         | EmptyString => true
         end
      && single_spaced r
  end.

(** The text of a segment as a paragraph piece. *)
Definition segment_text (sg : Normalizer.segment) : option string :=
  match Normalizer.seg_text sg with
  | [] => None
  | t :: ts => Some (strip (join " " (t :: ts)))
  end.

End Paragraph.

(** ** Local transcription ([transcription.py]) *)

Module Transcribe.
Import PyStr Timestamp ModelCache.

(** One segment as a backend or the transcript API returns it.  The times
    are in milliseconds: [start_ms] and [end_ms] stand for the
    [int(seconds * 1000)] that [format_timestamp] hands to [ms_to_time];
    the floating-point product itself is outside the model. *)
Record tseg : Type := mk_tseg { start_ms : Z; end_ms : Z; text : string }.

(** [f"{i}\n{start} --> {end}\n{text}\n"] with [text = seg["text"].strip()] *)
Definition srt_block (i : Z) (seg : tseg) : string :=
  decimal i +:+ nl
  +:+ Normalizer.timing_line (start_ms seg) (end_ms seg) +:+ nl
  +:+ strip (text seg) +:+ nl.

(** The blocks for [enumerate(segments, i)] *)
Fixpoint srt_blocks (i : Z) (segs : list tseg) : list string :=
  match segs with
  | [] => []
  | seg :: rest => srt_block i seg :: srt_blocks (i + 1) rest
  end.

(** The two [except] clauses of a backend: out of memory clears the
    caches, any other exception leaves them. *)
Definition on_exception (e : exn) (c : caches) : caches :=
  match e with
  | OutOfMemoryError => clean_model_cache c
  | _ => c
  end.

(** [transcribe_whisper]; [load] is the outcome of [whisper.load_model]
    and [run] the one of [model.transcribe], should they be called. *)
Definition transcribe_whisper (f : Download.fs) (load : result model)
    (run : string -> string -> result (list tseg))
    (path lang model_size : string) (c : caches) : caches * string :=
  if negb (Download.check_audio_file f path) then (c, EmptyString)
  else
    let '(c1, r) := _get_whisper_model model_size load c in
    match r with
    | Raise e => (on_exception e c1, EmptyString)
    | Ok _ =>
        match run path lang with
        | Raise e => (on_exception e c1, EmptyString)
        | Ok [] => (c1, EmptyString)
        | Ok segments =>
            (release_whisper model_size c1,
             join EmptyString (srt_blocks 1 segments))
        end
    end.

(** [transcribe_faster], the same with the other dictionary. *)
Definition transcribe_faster (f : Download.fs) (load : result model)
    (run : string -> string -> result (list tseg))
    (path lang model_size : string) (c : caches) : caches * string :=
  if negb (Download.check_audio_file f path) then (c, EmptyString)
  else
    let '(c1, r) := _get_faster_model model_size load c in
    match r with
    | Raise e => (on_exception e c1, EmptyString)
    | Ok _ =>
        match run path lang with
        | Raise e => (on_exception e c1, EmptyString)
        | Ok [] => (c1, EmptyString)
        | Ok segments =>
            (release_faster model_size c1,
             join EmptyString (srt_blocks 1 segments))
        end
    end.

(** [get_youtube_api_transcript]: every exception ends in [""]; the
    blocks are joined by a line feed. *)
Definition get_youtube_api_transcript (HAS_API : bool)
    (get_transcript : string -> result (list tseg)) (video_id : string)
  : string :=
  if negb HAS_API then EmptyString
  else match get_transcript video_id with
       | Raise _ => EmptyString
       | Ok data => join nl (srt_blocks 1 data)
       end.

(** The surroundings of one call of [transcribe_local]. *)
Record env : Type := mk_env
  { dl : Download.env;
    fs_now : Download.fs;
    HAS_FASTER : bool;
    HAS_WHISPER : bool;
    HAS_API : bool;
    faster_load : result model;
    faster_run : string -> string -> result (list tseg);
    whisper_load : result model;
    whisper_run : string -> string -> result (list tseg);
    get_transcript : string -> result (list tseg) }.

(** Steps 2 and 3 of [transcribe_local]: faster-whisper, then whisper when
    the first gave nothing.  The backends catch every exception
    themselves, so the [except] clauses around the two calls stay
    unused. *)
Definition run_backends (e : env) (audio_path lang model_size : string)
    (c : caches) : caches * string :=
  let '(c1, srt1) :=
    if HAS_FASTER e
    then transcribe_faster (fs_now e) (faster_load e) (faster_run e)
           audio_path lang model_size c
    else (c, EmptyString) in
  if String.eqb srt1 EmptyString && HAS_WHISPER e
  then transcribe_whisper (fs_now e) (whisper_load e) (whisper_run e)
         audio_path lang model_size c1
  else (c1, srt1).

(** [transcribe_local].  An exception of [download_audio] is not caught
    here.  The removal of the audio file at the end changes nothing that
    is read afterwards and is left out. *)
Definition transcribe_local (e : env) (video_id outdir lang model_size : string)
    (c : caches) : result (caches * string) :=
  if negb (validate_model_size model_size) then Ok (c, EmptyString)
  else
    audio_path ← Download.download_audio (dl e) video_id outdir;
    if String.eqb audio_path EmptyString
       || negb (Download.path_exists (fs_now e) audio_path)
    then Ok (c, get_youtube_api_transcript (HAS_API e) (get_transcript e) video_id)
    else
      let '(c2, srt) :=
        run_backends e audio_path lang model_size (clean_model_cache c) in
      let srt :=
        if String.eqb srt EmptyString && HAS_API e
        then get_youtube_api_transcript (HAS_API e) (get_transcript e) video_id
        else srt in
      Ok (clean_model_cache c2, srt).

(** Segments a transcript is made of in the usual case: times within one
    day and a text of one line that is not blank. *)
Definition plain_segment (seg : tseg) : Prop :=
  0 <= start_ms seg < 86400000 /\ 0 <= end_ms seg < 86400000
  /\ no_linebreak (text seg) = true
  /\ strip (text seg) <> EmptyString.

(** The segment of the timeline that a transcript segment stands for. *)
Definition timeline_segment (i : Z) (seg : tseg) : Normalizer.segment :=
  Normalizer.mk_segment (decimal i) (start_ms seg) (end_ms seg)
    [strip (text seg)].

Fixpoint timeline_segments (i : Z) (segs : list tseg)
  : list Normalizer.segment :=
  match segs with
  | [] => []
  | seg :: rest => timeline_segment i seg :: timeline_segments (i + 1) rest
  end.

(** Two segments of a talk. *)
Definition talk : list tseg :=
  [mk_tseg 0 1500 " Hello "; mk_tseg 1500 3000 " World "].

(** A machine with both backends, on which the audio is in place. *)
Definition both_backends (faster_segments : list tseg) : env :=
  mk_env Download.failing_binary_env
    (Download.mk_fs (fun _ => true) (fun _ => 4096))
    true true true
    (Ok 1%nat) (fun _ _ => Ok faster_segments)
    (Ok 2%nat) (fun _ _ => Ok talk)
    (fun _ => Raise NoTranscriptFound).

(** The same without a [yt-dlp] binary. *)
Definition no_binary : env :=
  mk_env Download.no_binary_env
    (Download.mk_fs (fun _ => true) (fun _ => 4096))
    true true true
    (Ok 1%nat) (fun _ _ => Ok talk)
    (Ok 2%nat) (fun _ _ => Ok talk)
    (fun _ => Ok talk).

(** A machine on which both backends hear nothing. *)
Definition silent_backends : env :=
  mk_env Download.failing_binary_env
    (Download.mk_fs (fun _ => true) (fun _ => 4096))
    true true true
    (Ok 1%nat) (fun _ _ => Ok [])
    (Ok 2%nat) (fun _ _ => Ok [])
    (fun _ => Raise NoTranscriptFound).

(** The lines of the blocks of [srt_blocks], one after the other. *)
Fixpoint srt_lines (i : Z) (segs : list tseg) : list string :=
  match segs with
  | [] => []
  | seg :: rest =>
      decimal i :: Normalizer.timing_line (start_ms seg) (end_ms seg)
        :: strip (text seg) :: srt_lines (i + 1) rest
  end.

End Transcribe.

(* ===================================================================== *)
(** * Properties *)

(** ** The result monad *)

Section ResultMonad.
Context {A B : Type}.

Lemma bind_Ok_inv (r : result A) (k : A -> result B) (b : B) :
  r ≫= k = Ok b -> exists a, r = Ok a /\ k a = Ok b.
Proof. destruct r as [a|e]; cbn; [eauto | discriminate]. Qed.

End ResultMonad.

(** ** The normalizer on the emitted timings *)

Section NormalizerTimings.
Import PyStr Timestamp Normalizer.

Lemma adjust_start_ge_prev g prev st : prev + g <= adjust_start g prev st.
Proof. unfold adjust_start. lia. Qed.

Lemma adjust_start_ge_start g prev st : st <= adjust_start g prev st.
Proof. unfold adjust_start. lia. Qed.

Lemma adjust_end_gt st en : st + 1 <= adjust_end st en.
Proof. unfold adjust_end. destruct (Z.leb_spec en st); lia. Qed.


Lemma adjust_end_keep st en : st < en -> adjust_end st en = en.
Proof. unfold adjust_end. destruct (Z.leb_spec en st); lia. Qed.

Lemma adjust_loop_cons_inv g prev blk rest segs :
  adjust_loop g prev (blk :: rest) = Ok segs ->
  exists raw tl,
    parse_block blk = Ok raw
    /\ adjust_loop g
         (adjust_end (adjust_start g prev (raw_start raw)) (raw_end raw))
         rest = Ok tl
    /\ segs =
         mk_segment (raw_idx raw) (adjust_start g prev (raw_start raw))
           (adjust_end (adjust_start g prev (raw_start raw)) (raw_end raw))
           (raw_text raw) :: tl.
Proof.
  cbn [adjust_loop]. intros H.
  apply bind_Ok_inv in H as (raw & Hraw & H).
  apply bind_Ok_inv in H as (tl & Htl & H).
  exists raw, tl. repeat split; [assumption.. | congruence].
Qed.

Lemma adjust_loop_spaced g blocks :
  forall prev segs,
    adjust_loop g prev blocks = Ok segs -> spaced g prev segs.
Proof.
  induction blocks as [|blk rest IH]; intros prev segs H.
  - cbn in H. injection H as <-. exact I.
  - apply adjust_loop_cons_inv in H as (raw & tl & _ & Htl & ->).
    cbn. split; [apply adjust_start_ge_prev | eauto].
Qed.



End NormalizerTimings.




Section TimestampFacts.
Import PyStr Timestamp.

(** A property of the integers below [n] follows from its boolean check
    on [0, ..., n-1]. *)
Lemma Z_range_check (n : nat) (f : Z -> bool) :
  forallb (fun k => f (Z.of_nat k)) (seq 0 n) = true ->
  forall z, 0 <= z < Z.of_nat n -> f z = true.
Proof.
  intros Hall z Hz.
  rewrite forallb_forall in Hall.
  specialize (Hall (Z.to_nat z)).
  rewrite Z2Nat.id in Hall by lia.
  apply Hall, in_seq. lia.
Qed.

Lemma Z_range_ind (n : nat) (P : Z -> Prop) :
  (forall k : nat, (k < n)%nat -> P (Z.of_nat k)) ->
  forall z, 0 <= z < Z.of_nat n -> P z.
Proof.
  intros H z Hz. rewrite <- (Z2Nat.id z) by lia. apply H. lia.
Qed.

Lemma replace_char_app a b s t :
  replace_char a b (s +:+ t) = replace_char a b s +:+ replace_char a b t.
Proof.
  induction s as [|c s IH]; [reflexivity|].
  change (String (if Ascii.eqb c a then b else c) (replace_char a b (s +:+ t))
          = String (if Ascii.eqb c a then b else c)
              (replace_char a b s +:+ replace_char a b t)).
  now rewrite IH.
Qed.

Lemma string_eqb_true (s t : string) : String.eqb s t = true -> s = t.
Proof. apply String.eqb_eq. Qed.

Lemma format2_no_dot n :
  0 <= n < 100 -> replace_char "." "," (format_0w 2 n) = format_0w 2 n.
Proof.
  intros Hn. apply string_eqb_true.
  apply (Z_range_check 100
           (fun n => String.eqb (replace_char "." "," (format_0w 2 n))
                       (format_0w 2 n))); [vm_compute; reflexivity | lia].
Qed.

Lemma format3_no_dot n :
  0 <= n < 1000 -> replace_char "." "," (format_0w 3 n) = format_0w 3 n.
Proof.
  intros Hn. apply string_eqb_true.
  apply (Z_range_check 1000
           (fun n => String.eqb (replace_char "." "," (format_0w 3 n))
                       (format_0w 3 n))); [vm_compute; reflexivity | lia].
Qed.

(** The fraction field reads the three digits of [format_0w 3 r] as
    [r] milliseconds, and its first (longest) match leaves nothing. *)
Lemma field_f_format3 r :
  0 <= r < 1000 ->
  exists tl, field_f (format_0w 3 r) = (1000 * r, EmptyString) :: tl.
Proof.
  intros Hr.
  assert (H : fraction_head_ok r = true).
  { apply (Z_range_check 1000 fraction_head_ok);
      [vm_compute; reflexivity | lia]. }
  unfold fraction_head_ok in H.
  destruct (field_f (format_0w 3 r)) as [|[us rest] tl]; [discriminate|].
  destruct rest; [|discriminate].
  apply Z.eqb_eq in H. subst us. eauto.
Qed.

Ltac enum_nat k :=
  repeat (destruct k as [|k]; [vm_compute; reflexivity|]); exfalso; lia.

(** Each two-digit field of [ms_to_time], followed by its separator, is
    read back as its value; the one-digit alternative dies on the
    separator. *)
Lemma field_H_format2 {A : Type} h rest (k : Z -> unit -> matcher A) :
  0 <= h < 24 ->
  mseq field_H (fun v => mseq (lit ":") (k v))
    (format_0w 2 h +:+ String ":" rest)
  = k h tt rest.
Proof.
  intros Hh. rewrite <- (app_nil_r (k h tt rest)).
  rewrite <- (app_nil_r (k h tt rest ++ [])).
  revert h Hh. apply (Z_range_ind 24). intros n Hn. enum_nat n.
Qed.

Lemma field_M_format2 {A : Type} m rest (k : Z -> unit -> matcher A) :
  0 <= m < 60 ->
  mseq field_M (fun v => mseq (lit ":") (k v))
    (format_0w 2 m +:+ String ":" rest)
  = k m tt rest.
Proof.
  intros Hm. rewrite <- (app_nil_r (k m tt rest)).
  rewrite <- (app_nil_r (k m tt rest ++ [])).
  revert m Hm. apply (Z_range_ind 60). intros n Hn. enum_nat n.
Qed.

(** The seconds field is the last one of [%H:%M:%S]: both of its
    alternatives reach the continuation, the two-digit one first. *)
Lemma field_S_format2 {A : Type} s rest (k : Z -> matcher A) :
  0 <= s < 60 ->
  mseq field_S k (format_0w 2 s +:+ rest)
  = k s rest ++ k (s / 10) (format_0w 1 (s mod 10) +:+ rest) ++ [].
Proof.
  revert s. apply (Z_range_ind 60). intros n Hn. enum_nat n.
Qed.
End TimestampFacts.

Section TimestampRoundTrip.
Import PyStr Timestamp.

Lemma make_datetime_in_range h m s us :
  0 <= h < 24 -> 0 <= m < 60 -> 0 <= s < 60 -> 0 <= us < 1000000 ->
  make_datetime h m s us = Ok (mk_datetime h m s us).
Proof.
  intros Hh Hm Hs Hus. unfold make_datetime.
  replace (_ && _) with true; [reflexivity|].
  symmetry. repeat (apply andb_true_intro; split); apply Z.leb_le; lia.
Qed.

Lemma make_datetime_inv h m s us dt :
  make_datetime h m s us = Ok dt ->
  dt = mk_datetime h m s us
  /\ 0 <= h < 24 /\ 0 <= m < 60 /\ 0 <= s < 60 /\ 0 <= us < 1000000.
Proof.
  unfold make_datetime. destruct (_ && _) eqn:H; [|discriminate].
  intros [= <-]. repeat (apply andb_prop in H as [H ?]).
  repeat match goal with
         | H : (_ <=? _) = true |- _ => apply Z.leb_le in H
         end.
  repeat split; lia.
Qed.

Lemma strptime_format_hmsr h m s r :
  0 <= h < 24 -> 0 <= m < 60 -> 0 <= s < 60 -> 0 <= r < 1000 ->
  strptime_HMSf (format_hmsr h m s r) = Ok (mk_datetime h m s (1000 * r)).
Proof.
  intros Hh Hm Hs Hr.
  unfold strptime_HMSf, re_HMSf, format_hmsr.
  repeat change (":" +:+ ?x) with (String ":" x).
  change ("," +:+ ?x) with (String "," x).
  rewrite field_H_format2 by assumption. cbv beta.
  rewrite field_M_format2 by assumption. cbv beta.
  rewrite field_S_format2 by assumption. cbv beta.
  destruct (field_f_format3 r Hr) as [tl Hf].
  unfold mseq at 1. unfold lit at 1. cbn [Ascii.eqb Bool.eqb flat_map fst snd].
  unfold mseq at 1. rewrite Hf. cbn [flat_map fst snd mret app].
  apply make_datetime_in_range; lia.
Qed.

Lemma format_hmsr_no_dot h m s r :
  0 <= h < 24 -> 0 <= m < 60 -> 0 <= s < 60 -> 0 <= r < 1000 ->
  replace_char "." "," (format_hmsr h m s r) = format_hmsr h m s r.
Proof.
  intros Hh Hm Hs Hr. unfold format_hmsr.
  rewrite !replace_char_app.
  rewrite !format2_no_dot by lia. rewrite format3_no_dot by lia.
  reflexivity.
Qed.

Lemma parse_format_hmsr h m s r :
  0 <= h < 24 -> 0 <= m < 60 -> 0 <= s < 60 -> 0 <= r < 1000 ->
  parse_srt_time (format_hmsr h m s r) = Ok (mk_datetime h m s (1000 * r)).
Proof.
  intros Hh Hm Hs Hr. unfold parse_srt_time.
  rewrite format_hmsr_no_dot by assumption.
  now rewrite strptime_format_hmsr.
Qed.

Lemma ms_to_time_fields ms :
  ms_to_time ms =
  format_hmsr (ms / 3600000) (ms mod 3600000 / 60000)
    (ms mod 3600000 mod 60000 / 1000) (ms mod 3600000 mod 60000 mod 1000).
Proof. reflexivity. Qed.

Lemma parse_ms_to_time ms :
  0 <= ms < 86400000 ->
  exists dt, parse_srt_time (ms_to_time ms) = Ok dt /\ time_to_ms dt = ms.
Proof.
  intros Hms. rewrite ms_to_time_fields.
  eexists. split.
  - apply parse_format_hmsr.
    + split; [apply Z.div_pos; lia | apply Z.div_lt_upper_bound; lia].
    + pose proof (Z.mod_pos_bound ms 3600000 ltac:(lia)).
      split; [apply Z.div_pos; lia | apply Z.div_lt_upper_bound; lia].
    + pose proof (Z.mod_pos_bound (ms mod 3600000) 60000 ltac:(lia)).
      split; [apply Z.div_pos; lia | apply Z.div_lt_upper_bound; lia].
    + apply Z.mod_pos_bound. lia.
  - unfold time_to_ms. cbn [hour minute second microsecond].
    rewrite (Z.mul_comm 1000), Z.div_mul by lia.
    pose proof (Z.div_mod ms 3600000 ltac:(lia)).
    pose proof (Z.div_mod (ms mod 3600000) 60000 ltac:(lia)).
    pose proof (Z.div_mod (ms mod 3600000 mod 60000) 1000 ltac:(lia)).
    lia.
Qed.
End TimestampRoundTrip.

(** C10. Formatting a millisecond count below one day with [ms_to_time]
    and reading it back with [parse_srt_time] and [time_to_ms] returns the
    count: [time_to_ms(parse_srt_time(ms_to_time(ms))) = ms] for
    [0 <= ms < 86400000]. *)
Theorem timestamp_round_trip (ms : Z) :
  0 <= ms < 86400000 ->
  (Timestamp.parse_srt_time (Timestamp.ms_to_time ms)
     ≫= fun dt => Ok (Timestamp.time_to_ms dt)) = Ok ms.
Proof.
  intros Hms. destruct (parse_ms_to_time ms Hms) as (dt & -> & <-).
  reflexivity.
Qed.

Lemma timestamp_round_trip_witness :
  0 <= 3723004 < 86400000
  /\ (Timestamp.parse_srt_time (Timestamp.ms_to_time 3723004)
        ≫= fun dt => Ok (Timestamp.time_to_ms dt)) = Ok 3723004.
Proof.
  split; [lia | apply (timestamp_round_trip 3723004); lia].
Defined.

(** ** Video identifiers *)

Section VideoIdFacts.
Import PyStr VideoId.

Lemma take_id_shape n :
  forall s g rest, take_id n s = Some (g, rest) -> id_string n g.
Proof.
  induction n as [|n IH]; intros s g rest H; cbn in H.
  - injection H as <- _. split; [reflexivity | constructor].
  - destruct s as [|c r]; [discriminate|].
    destruct (is_id_char c) eqn:Hc; [|discriminate].
    destruct (take_id n r) as [[g' rest']|] eqn:Hr; [|discriminate].
    injection H as <- _.
    destruct (IH _ _ _ Hr) as [Hlen Hall].
    split; cbn; [now rewrite Hlen | now constructor].
Qed.

Lemma match_here_shape prefixes :
  forall s g, match_here prefixes s = Some g -> id_string 11 g.
Proof.
  induction prefixes as [|p ps IH]; intros s g H; cbn [match_here] in H.
  - discriminate.
  - destruct (String.prefix p s); [|eauto].
    destruct (take_id 11 (drop (String.length p) s)) as [[g' rest]|] eqn:Ht;
      [|eauto].
    injection H as <-. eapply take_id_shape; eauto.
Qed.

Lemma search_shape prefixes :
  forall s g, search prefixes s = Some g -> id_string 11 g.
Proof.
  induction s as [|c r IH]; intros g H; cbn [search] in H;
    destruct (match_here prefixes _) as [g'|] eqn:Hm.
  - injection H as <-. eapply match_here_shape; eauto.
  - discriminate.
  - injection H as <-. eapply match_here_shape; eauto.
  - eauto.
Qed.

Lemma match_bare_shape s g : match_bare s = Some g -> id_string 11 g.
Proof.
  unfold match_bare.
  destruct (take_id 11 s) as [[g' rest]|] eqn:Ht; [|discriminate].
  destruct (_ || _); [|discriminate].
  intros [= <-]. eapply take_id_shape; eauto.
Qed.
End VideoIdFacts.

(** C9. For every input string, [extract_video_id] returns the empty
    string or a string of exactly 11 characters, each of them in
    [[A-Za-z0-9_-]]. *)
Theorem extract_video_id_shape (url : string) :
  VideoId.extract_video_id url = EmptyString
  \/ (String.length (VideoId.extract_video_id url) = 11%nat
      /\ Forall (fun c => VideoId.is_id_char c = true)
           (list_ascii_of_string (VideoId.extract_video_id url))).
Proof.
  unfold VideoId.extract_video_id.
  destruct (VideoId.search ["v="; "/"] url) as [g|] eqn:H1;
    [right; exact (search_shape _ _ _ H1)|].
  destruct (VideoId.search ["youtu.be/"] url) as [g|] eqn:H2;
    [right; exact (search_shape _ _ _ H2)|].
  destruct (VideoId.search ["embed/"] url) as [g|] eqn:H3;
    [right; exact (search_shape _ _ _ H3)|].
  destruct (VideoId.match_bare url) as [g|] eqn:H4;
    [right; exact (match_bare_shape _ _ H4) | now left].
Qed.

(** ** The caption resolver *)

Section ResolverFacts.
Import PyStr Captions.

Lemma provider_calls_app t1 t2 :
  provider_calls (t1 ++ t2) = provider_calls t1 ++ provider_calls t2.
Proof. apply omap_app. Qed.

Lemma provider_calls_cons_call p lang t :
  provider_calls (Call p lang :: t) = (p, lang) :: provider_calls t.
Proof. reflexivity. Qed.

(** The providers call no provider themselves. *)
Lemma api_trace_no_calls w vid lang :
  provider_calls (fst (fetch_via_transcript_api w vid lang)) = [].
Proof.
  unfold fetch_via_transcript_api.
  destruct (list_transcripts w vid) as [tr|e]; [|reflexivity].
  destruct (tr lang); [reflexivity|].
  destruct (tr "en"); reflexivity.
Qed.

Lemma ytdlp_trace_no_calls w vid lang :
  provider_calls (fst (fetch_via_ytdlp w vid lang)) = [].
Proof. reflexivity. Qed.

Lemma pytube_trace_no_calls w vid lang :
  provider_calls (fst (fetch_via_pytube w vid lang)) = [].
Proof. reflexivity. Qed.

(** One round of the loop of [get_captions]. *)
Lemma try_providers_cons p (fn : provider) rest vid lang :
  try_providers ((p, fn) :: rest) vid lang =
  match yields (snd (fn vid lang)) with
  | Some srt => (Call p lang :: fst (fn vid lang), srt)
  | None =>
      (Call p lang :: fst (fn vid lang) ++ fst (try_providers rest vid lang),
       snd (try_providers rest vid lang))
  end.
Proof.
  cbn [try_providers]. destruct (fn vid lang) as [t r]. cbn [fst snd].
  destruct r as [srt|e]; cbn [yields].
  - destruct (nonblank srt); [reflexivity|].
    now destruct (try_providers rest vid lang).
  - now destruct (try_providers rest vid lang).
Qed.

Lemma yields_nonblank r srt : yields r = Some srt -> nonblank srt = true.
Proof.
  destruct r as [s|e]; cbn; [|discriminate].
  destruct (nonblank s) eqn:H; [|discriminate]. now intros [= <-].
Qed.

Lemma yields_not_empty r srt : yields r = Some srt -> srt <> EmptyString.
Proof.
  intros H%yields_nonblank ->. discriminate.
Qed.

(** The calls and the result of [get_captions], by what the three
    providers yield. *)
Lemma get_captions_calls w vid lang :
  provider_calls (fst (get_captions w vid lang)) =
  match yields (snd (fetch_via_transcript_api w vid lang)) with
  | Some _ => [(TranscriptApi, lang)]
  | None =>
      match yields (snd (fetch_via_ytdlp w vid lang)) with
      | Some _ => [(TranscriptApi, lang); (YtDlp, lang)]
      | None => [(TranscriptApi, lang); (YtDlp, lang); (Pytube, lang)]
      end
  end.
Proof.
  unfold get_captions. rewrite !try_providers_cons.
  pose proof (api_trace_no_calls w vid lang) as Ha.
  pose proof (ytdlp_trace_no_calls w vid lang) as Hy.
  pose proof (pytube_trace_no_calls w vid lang) as Hp.
  destruct (yields (snd (fetch_via_transcript_api w vid lang))); cbn [fst snd];
    rewrite provider_calls_cons_call, ?provider_calls_app, Ha; [reflexivity|].
  destruct (yields (snd (fetch_via_ytdlp w vid lang))); cbn [fst snd app];
    rewrite provider_calls_cons_call, ?provider_calls_app, Hy; [reflexivity|].
  destruct (yields (snd (fetch_via_pytube w vid lang))); cbn [fst snd app];
    rewrite provider_calls_cons_call, ?provider_calls_app, Hp; reflexivity.
Qed.

Lemma get_captions_result w vid lang :
  snd (get_captions w vid lang) =
  match yields (snd (fetch_via_transcript_api w vid lang)) with
  | Some srt => srt
  | None =>
      match yields (snd (fetch_via_ytdlp w vid lang)) with
      | Some srt => srt
      | None =>
          match yields (snd (fetch_via_pytube w vid lang)) with
          | Some srt => srt
          | None => EmptyString
          end
      end
  end.
Proof.
  unfold get_captions. rewrite !try_providers_cons.
  destruct (yields (snd (fetch_via_transcript_api w vid lang))); [reflexivity|].
  destruct (yields (snd (fetch_via_ytdlp w vid lang))); [reflexivity|].
  destruct (yields (snd (fetch_via_pytube w vid lang))); reflexivity.
Qed.

End ResolverFacts.

(** A list of calls with one language has no duplicates when the providers
    differ; calls with different languages differ. *)
Ltac nodup_calls :=
  repeat (apply NoDup_cons_2;
          [rewrite ?elem_of_cons, ?elem_of_nil; intuition congruence|]);
  apply NoDup_nil_2.

Section ResolverFallback.
Import PyStr Captions.

Lemma caption_step_calls w vid lang :
  provider_calls (fst (caption_step w vid lang)) =
  if String.eqb (snd (get_captions w vid lang)) EmptyString
     && negb (String.eqb lang "en")
  then provider_calls (fst (get_captions w vid lang))
       ++ provider_calls (fst (get_captions w vid "en"))
  else provider_calls (fst (get_captions w vid lang)).
Proof.
  unfold caption_step.
  destruct (get_captions w vid lang) as [t1 srt]. cbn [fst snd].
  destruct (String.eqb srt EmptyString && negb (String.eqb lang "en"));
    [|reflexivity].
  destruct (get_captions w vid "en") as [t2 srt2]. cbn [fst snd].
  apply provider_calls_app.
Qed.

Lemma eqb_empty_false srt :
  srt <> EmptyString -> String.eqb srt EmptyString = false.
Proof. intros H. now apply String.eqb_neq. Qed.

End ResolverFallback.


(** C4, as stated, fails: asked for French where only an English transcript
    is listed, the transcript API provider looks up English itself, before
    yt-dlp and pytube have been tried for French. *)
Lemma fallback_before_exhaustion_counterexample :
  "fr" <> "en"
  /\ ~ Captions.exhausted_before_fallback "fr" "en"
         (fst (Captions.caption_step Captions.english_only "dQw4w9WgXcQ" "fr")).
Proof.
  split; [discriminate|].
  intros H.
  destruct (H 3%nat (Captions.FindTranscript "en") eq_refl eq_refl Captions.YtDlp)
    as (j & Hj & Hc).
  do 3 (destruct j as [|j]; [discriminate Hc|]). lia.
Qed.

(** C4, amended.  For a requested language other than English, the
    resolver calls a provider with the fallback language only after it has
    called all three providers with the requested language and each of
    them yielded nothing, and it calls no provider twice with the same
    language: there is one fallback pass at most.  (What a provider asks
    its service for during its own call is not restricted.) *)
Theorem fallback_pass_after_exhaustion (w : Captions.world) (vid lang : string) :
  lang <> "en" ->
  let calls := Captions.provider_calls (fst (Captions.caption_step w vid lang)) in
  NoDup calls
  /\ forall i p,
       calls !! i = Some (p, "en") ->
       take 3 calls
         = [(Captions.TranscriptApi, lang); (Captions.YtDlp, lang);
            (Captions.Pytube, lang)]
       /\ (3 <= i)%nat
       /\ Captions.yields (snd (Captions.fetch_via_transcript_api w vid lang)) = None
       /\ Captions.yields (snd (Captions.fetch_via_ytdlp w vid lang)) = None
       /\ Captions.yields (snd (Captions.fetch_via_pytube w vid lang)) = None.
Proof.
  intros Hne calls. subst calls.
  assert (Hneq : String.eqb lang "en" = false) by now apply String.eqb_neq.
  rewrite caption_step_calls, Hneq, get_captions_result, !get_captions_calls.
  cbn [negb]. rewrite andb_true_r.
  destruct (Captions.yields (snd (Captions.fetch_via_transcript_api w vid lang)))
    as [s1|] eqn:H1.
  { rewrite (eqb_empty_false s1) by (eapply yields_not_empty; eauto).
    split; [nodup_calls|].
    intros [|i] p Hi; cbn in Hi; [congruence | discriminate]. }
  destruct (Captions.yields (snd (Captions.fetch_via_ytdlp w vid lang)))
    as [s2|] eqn:H2.
  { rewrite (eqb_empty_false s2) by (eapply yields_not_empty; eauto).
    split; [nodup_calls|].
    intros [|[|i]] p Hi; cbn in Hi; [congruence | congruence | discriminate]. }
  destruct (Captions.yields (snd (Captions.fetch_via_pytube w vid lang)))
    as [s3|] eqn:H3.
  { rewrite (eqb_empty_false s3) by (eapply yields_not_empty; eauto).
    split; [nodup_calls|].
    intros [|[|[|i]]] p Hi; cbn in Hi; [congruence.. | discriminate]. }
  cbn [String.eqb].
  split.
  - destruct (Captions.yields (snd (Captions.fetch_via_transcript_api w vid "en")));
      [|destruct (Captions.yields (snd (Captions.fetch_via_ytdlp w vid "en")))];
      cbn [app]; nodup_calls.
  - intros i p Hi. split; [reflexivity|]. split; [|auto].
    do 3 (destruct i as [|i]; [cbn in Hi; congruence|]). lia.
Qed.

Lemma fallback_pass_after_exhaustion_witness :
  "fr" <> "en"
  /\ let calls :=
       Captions.provider_calls
         (fst (Captions.caption_step Captions.only_english_anywhere
                 "dQw4w9WgXcQ" "fr")) in
     calls !! 3%nat = Some (Captions.TranscriptApi, "en")
     /\ NoDup calls
     /\ forall i p,
          calls !! i = Some (p, "en") ->
          take 3 calls
            = [(Captions.TranscriptApi, "fr"); (Captions.YtDlp, "fr");
               (Captions.Pytube, "fr")]
          /\ (3 <= i)%nat
          /\ Captions.yields
               (snd (Captions.fetch_via_transcript_api
                       Captions.only_english_anywhere "dQw4w9WgXcQ" "fr")) = None
          /\ Captions.yields
               (snd (Captions.fetch_via_ytdlp
                       Captions.only_english_anywhere "dQw4w9WgXcQ" "fr")) = None
          /\ Captions.yields
               (snd (Captions.fetch_via_pytube
                       Captions.only_english_anywhere "dQw4w9WgXcQ" "fr")) = None.
Proof.
  split; [discriminate|]. split; [reflexivity|].
  apply (fallback_pass_after_exhaustion Captions.only_english_anywhere
           "dQw4w9WgXcQ" "fr").
  discriminate.
Defined.

(** ** The model caches *)

Section ModelCacheFacts.
Import ModelCache.

Lemma empty_bounded : each_bounded empty_caches.
Proof.
  unfold each_bounded, empty_caches, MAX_CACHED_MODELS.
  cbn [whisper_models faster_models]. rewrite map_size_empty. lia.
Qed.

(** The eviction test leaves a dictionary that is within the bound, and
    empty when the wanted size is not in it. *)
Lemma evict_room s (m : gmap string model) :
  (size m <= MAX_CACHED_MODELS)%nat ->
  let keep := negb ((MAX_CACHED_MODELS <=? size m)%nat && negb (mem s m)) in
  keep = true -> m !! s = None -> size m = 0%nat.
Proof.
  intros Hle keep Hkeep Hs. subst keep. unfold MAX_CACHED_MODELS in *.
  apply negb_true_iff, andb_false_iff in Hkeep as [Hroom|Hmem].
  - apply Nat.leb_gt in Hroom. lia.
  - apply negb_false_iff, bool_decide_eq_true in Hmem as [x Hx]. congruence.
Qed.

Lemma get_whisper_bounded s load c :
  each_bounded c -> each_bounded (fst (_get_whisper_model s load c)).
Proof.
  intros [Hw Hf]. unfold _get_whisper_model.
  destruct (validate_model_size s); cbn [negb]; [|now split].
  destruct ((MAX_CACHED_MODELS <=? size (whisper_models c))%nat
            && negb (mem s (whisper_models c))) eqn:Hev.
  - unfold clean_model_cache, empty_caches. cbn [whisper_models faster_models].
    rewrite lookup_empty.
    destruct load as [m|e]; cbn [fst]; [|apply empty_bounded].
    split; cbn [whisper_models faster_models].
    + rewrite map_size_insert_None, map_size_empty by apply lookup_empty.
      unfold MAX_CACHED_MODELS. lia.
    + rewrite map_size_empty. lia.
  - destruct (whisper_models c !! s) eqn:Hs; [now split|].
    destruct load as [m|e]; cbn [fst]; [|now split].
    split; cbn [whisper_models faster_models]; [|assumption].
    rewrite map_size_insert_None by assumption.
    rewrite (evict_room s (whisper_models c) Hw); [unfold MAX_CACHED_MODELS; lia | | assumption].
    now rewrite Hev.
Qed.

Lemma get_faster_bounded s load c :
  each_bounded c -> each_bounded (fst (_get_faster_model s load c)).
Proof.
  intros [Hw Hf]. unfold _get_faster_model.
  destruct (validate_model_size s); cbn [negb]; [|now split].
  destruct ((MAX_CACHED_MODELS <=? size (faster_models c))%nat
            && negb (mem s (faster_models c))) eqn:Hev.
  - unfold clean_model_cache, empty_caches. cbn [whisper_models faster_models].
    rewrite lookup_empty.
    destruct load as [m|e]; cbn [fst]; [|apply empty_bounded].
    split; cbn [whisper_models faster_models].
    + rewrite map_size_empty. lia.
    + rewrite map_size_insert_None, map_size_empty by apply lookup_empty.
      unfold MAX_CACHED_MODELS. lia.
  - destruct (faster_models c !! s) eqn:Hs; [now split|].
    destruct load as [m|e]; cbn [fst]; [|now split].
    split; cbn [whisper_models faster_models]; [assumption|].
    rewrite map_size_insert_None by assumption.
    rewrite (evict_room s (faster_models c) Hf); [unfold MAX_CACHED_MODELS; lia | | assumption].
    now rewrite Hev.
Qed.

Lemma size_delete_le (m : gmap string model) k : (size (delete k m) <= size m)%nat.
Proof.
  destruct (m !! k) eqn:Hk.
  - rewrite map_size_delete_Some by eauto. lia.
  - rewrite map_size_delete_None by assumption. lia.
Qed.

Lemma step_bounded c o : each_bounded c -> each_bounded (step c o).
Proof.
  intros Hc. destruct o as [s load|s load|s|s|]; cbn [step].
  - now apply get_whisper_bounded.
  - now apply get_faster_bounded.
  - destruct Hc as [Hw Hf]. split; cbn [release_whisper whisper_models faster_models];
      [|assumption].
    pose proof (size_delete_le (whisper_models c) s). lia.
  - destruct Hc as [Hw Hf]. split; cbn [release_faster whisper_models faster_models];
      [assumption|].
    pose proof (size_delete_le (faster_models c) s). lia.
  - apply empty_bounded.
Qed.

(** What does hold for every sequence of operations: one entry at most in
    each of the two dictionaries, hence two at most in all. *)
Lemma run_each_bounded ops :
  forall c, each_bounded c -> each_bounded (run ops c).
Proof.
  induction ops as [|o ops IH]; intros c Hc; [assumption|].
  cbn. apply IH. now apply step_bounded.
Qed.

Lemma run_total_at_most_two ops :
  (total_entries (run ops empty_caches) <= 2)%nat.
Proof.
  destruct (run_each_bounded ops _ empty_bounded) as [Hw Hf].
  unfold total_entries, MAX_CACHED_MODELS in *. lia.
Qed.

(** Within one backend, loading another size evicts the size that was
    cached. *)
Lemma get_whisper_evicts s load c k :
  each_bounded c -> validate_model_size s = true ->
  is_Some (whisper_models c !! k) -> k <> s ->
  whisper_models (fst (_get_whisper_model s load c)) !! k = None.
Proof.
  intros [Hw _] Hv [m Hk] Hne. unfold _get_whisper_model, MAX_CACHED_MODELS in *.
  rewrite Hv. cbn [negb].
  assert (Hsz : size (whisper_models c) = 1%nat).
  { destruct (size (whisper_models c)) as [|n] eqn:Hn; [|lia].
    apply map_size_empty_inv in Hn. rewrite Hn, lookup_empty in Hk.
    discriminate. }
  assert (Hs : whisper_models c !! s = None).
  { destruct (whisper_models c !! s) as [m'|] eqn:Hs; [|reflexivity].
    exfalso.
    assert (Hd : is_Some (delete k (whisper_models c) !! s))
      by (rewrite lookup_delete_ne by assumption; eauto).
    apply map_size_ne_0_lookup_2 in Hd.
    rewrite map_size_delete_Some in Hd by eauto. lia. }
  rewrite Hsz. cbn [Nat.leb andb].
  replace (mem s (whisper_models c)) with false.
  2:{ symmetry. apply bool_decide_eq_false. rewrite Hs. now intros [? ?]. }
  cbn. rewrite lookup_empty.
  destruct load; cbn; [|apply lookup_empty].
  rewrite lookup_insert_ne by congruence. apply lookup_empty.
Qed.

(** The first load into an empty dictionary leaves the other dictionary
    as it is. *)
Lemma get_faster_first s m c :
  validate_model_size s = true -> faster_models c = ∅ ->
  fst (_get_faster_model s (Ok m) c)
  = mk_caches (whisper_models c) (<[s := m]> ∅).
Proof.
  intros Hv He. unfold _get_faster_model. rewrite Hv, He. cbn [negb].
  rewrite map_size_empty. cbn [Nat.leb MAX_CACHED_MODELS andb].
  rewrite He, lookup_empty. reflexivity.
Qed.

Lemma get_whisper_first s m c :
  validate_model_size s = true -> whisper_models c = ∅ ->
  fst (_get_whisper_model s (Ok m) c)
  = mk_caches (<[s := m]> ∅) (faster_models c).
Proof.
  intros Hv He. unfold _get_whisper_model. rewrite Hv, He. cbn [negb].
  rewrite map_size_empty. cbn [Nat.leb MAX_CACHED_MODELS andb].
  rewrite He, lookup_empty. reflexivity.
Qed.

End ModelCacheFacts.

(** C6 fails on the code: each getter looks at the length of its own
    dictionary only.  After a faster-whisper model is loaded, loading a
    whisper model evicts nothing, whatever the two sizes: two models are
    cached. *)
Theorem model_cache_holds_two_models (s1 s2 : string) (m1 m2 : ModelCache.model) :
  ModelCache.validate_model_size s1 = true ->
  ModelCache.validate_model_size s2 = true ->
  ModelCache.total_entries
    (ModelCache.run
       [ModelCache.GetFaster s1 (Ok m1); ModelCache.GetWhisper s2 (Ok m2)]
       ModelCache.empty_caches) = 2%nat.
Proof.
  intros H1 H2.
  unfold ModelCache.run, ModelCache.total_entries.
  cbn [fold_left ModelCache.step].
  rewrite (get_faster_first s1 m1 ModelCache.empty_caches H1 eq_refl).
  rewrite get_whisper_first by (assumption || reflexivity).
  cbn [ModelCache.whisper_models ModelCache.faster_models
       ModelCache.empty_caches].
  rewrite !map_size_insert_None, map_size_empty by apply lookup_empty.
  reflexivity.
Qed.

Lemma model_cache_holds_two_models_witness :
  ModelCache.validate_model_size "base" = true
  /\ ModelCache.total_entries
       (ModelCache.run ModelCache.two_backends ModelCache.empty_caches) = 2%nat.
Proof.
  split; [reflexivity|].
  apply (model_cache_holds_two_models "base" "base" 1%nat 2%nat); reflexivity.
Defined.

(** ** The audio download *)

Section DownloadFacts.
Import PyStr Download.

Lemma first_audio_checked f temp_dir video_id names p :
  first_audio f temp_dir video_id names = Some p -> check_audio_file f p = true.
Proof.
  induction names as [|fname rest IH]; cbn [first_audio]; [discriminate|].
  destruct (_ && _); [|assumption].
  destruct (check_audio_file f (path_join temp_dir fname)) eqn:Hc;
    [|assumption].
  now intros [= <-].
Qed.

Lemma api_fallback_checked e url outdir video_id :
  api_fallback e url outdir video_id = EmptyString
  \/ check_audio_file (fs_after_api e) (api_fallback e url outdir video_id) = true.
Proof.
  unfold api_fallback.
  destruct (negb _); cbn [andb]; [|now left].
  destruct (check_audio_file _ _) eqn:Hc; [right; assumption | now left].
Qed.

(** With a binary on the path and the output directory in place,
    [download_audio] returns, and what it returns is empty or has passed
    [check_audio_file]. *)
Lemma download_audio_with_binary e video_id outdir cmd :
  makedirs e outdir = Ok tt ->
  truthy (match truthy (which e "yt-dlp") with
          | Some p => Some p
          | None => which e "yt_dlp"
          end) = Some cmd ->
  exists p,
    download_audio e video_id outdir = Ok p
    /\ (p = EmptyString
        \/ check_audio_file (fs_after_cli e) p = true
        \/ check_audio_file (fs_after_api e) p = true).
Proof.
  intros Hmk Hcmd. unfold download_audio. rewrite Hmk, Hcmd. cbn.
  destruct (cli_attempt e cmd _ outdir video_id) as [[p|]|ex] eqn:Hcli.
  - exists p. split; [reflexivity|]. right; left.
    unfold cli_attempt in Hcli.
    apply bind_Ok_inv in Hcli as (td & _ & Hcli).
    apply bind_Ok_inv in Hcli as (u & _ & Hcli).
    apply bind_Ok_inv in Hcli as (names & _ & [= Hfa]).
    eapply first_audio_checked; eauto.
  - eexists. split; [reflexivity|].
    destruct (api_fallback_checked e ("https://www.youtube.com/watch?v=" +:+ video_id)
                outdir video_id); auto.
  - eexists. split; [reflexivity|].
    destruct (api_fallback_checked e ("https://www.youtube.com/watch?v=" +:+ video_id)
                outdir video_id); auto.
Qed.

End DownloadFacts.

(** C7 fails on the code: when neither [yt-dlp] nor [yt_dlp] is on the
    path, [download_audio] does not reach the Python-API fallback; it
    raises [UnboundLocalError] on the read of [cmd], whatever the video
    and the directory. *)
Theorem download_audio_raises_without_binary (e : Download.env)
    (video_id outdir : string) :
  Download.makedirs e outdir = Ok tt ->
  Download.which e "yt-dlp" = None ->
  Download.which e "yt_dlp" = None ->
  Download.download_audio e video_id outdir = Raise UnboundLocalError.
Proof.
  intros Hmk H1 H2. unfold Download.download_audio.
  rewrite Hmk, H1. cbn [Download.truthy]. rewrite H2. reflexivity.
Qed.

Lemma download_audio_raises_without_binary_witness :
  Download.makedirs Download.no_binary_env "out" = Ok tt
  /\ Download.which Download.no_binary_env "yt-dlp" = None
  /\ Download.which Download.no_binary_env "yt_dlp" = None
  /\ Download.download_audio Download.no_binary_env "dQw4w9WgXcQ" "out"
     = Raise UnboundLocalError.
Proof.
  repeat (split; [reflexivity|]).
  apply (download_audio_raises_without_binary Download.no_binary_env
           "dQw4w9WgXcQ" "out"); reflexivity.
Defined.

(** ** Splitting and joining *)

Section PyStrFacts.
Import PyStr.

Lemma append_cons x (a b : string) : String x a +:+ b = String x (a +:+ b).
Proof. reflexivity. Qed.

Lemma append_assoc (a b c : string) : (a +:+ b) +:+ c = a +:+ (b +:+ c).
Proof.
  induction a as [|x a IH]; [reflexivity|].
  rewrite !append_cons. now rewrite IH.
Qed.

Lemma append_empty_r (a : string) : a +:+ EmptyString = a.
Proof.
  induction a as [|x a IH]; [reflexivity|].
  rewrite append_cons. now rewrite IH.
Qed.

Lemma all_chars_app p a b :
  all_chars p (a +:+ b) = all_chars p a && all_chars p b.
Proof.
  induction a as [|x a IH]; [reflexivity|].
  rewrite append_cons. cbn [all_chars]. now rewrite IH, andb_assoc.
Qed.

Lemma prefix_cons_same c (s1 s2 : string) :
  String.prefix (String c s1) (String c s2) = String.prefix s1 s2.
Proof. cbn. destruct (ascii_dec c c); [reflexivity | congruence]. Qed.

Lemma prefix_cons_other a b (s1 s2 : string) :
  Ascii.eqb b a = false -> String.prefix (String a s1) (String b s2) = false.
Proof.
  intros H. cbn. destruct (ascii_dec a b) as [->|]; [|reflexivity].
  now rewrite Ascii.eqb_refl in H.
Qed.

Lemma prefix_refl_app (sep rest : string) : String.prefix sep (sep +:+ rest) = true.
Proof.
  induction sep as [|x sep IH]; [now destruct rest|].
  rewrite append_cons, prefix_cons_same. exact IH.
Qed.

(** *** [split] *)

Lemma split_go_skip sep x rest :
  split_go sep (String.length x) (x +:+ rest) = split_go sep O rest.
Proof. induction x as [|c x IH]; [reflexivity | exact IH]. Qed.

Lemma split_go_cons sep x s :
  split_go sep O (String x s) =
  if String.prefix sep (String x s)
  then EmptyString :: split_go sep (Nat.pred (String.length sep)) s
  else match split_go sep O s with
       | [] => [String x EmptyString]
       | l :: ls => String x l :: ls
       end.
Proof. reflexivity. Qed.

Lemma split_go_sep c sep rest :
  split_go (String c sep) O (String c sep +:+ rest)
  = EmptyString :: split_go (String c sep) O rest.
Proof.
  rewrite append_cons, split_go_cons, <- append_cons, prefix_refl_app.
  cbn [String.length Nat.pred]. now rewrite split_go_skip.
Qed.

Lemma split_go_piece c sep a rest :
  unmatched (String c sep) a (String c sep +:+ rest) ->
  split_go (String c sep) O (a +:+ String c sep +:+ rest)
  = a :: split_go (String c sep) O rest.
Proof.
  induction a as [|x a IH]; intros Hun.
  - apply split_go_sep.
  - destruct Hun as [Hx Hun].
    rewrite append_cons, split_go_cons, <- append_cons, Hx, IH by assumption.
    reflexivity.
Qed.

Lemma split_go_last sep a :
  unmatched sep a EmptyString -> split_go sep O a = [a].
Proof.
  induction a as [|x a IH]; intros Hun; [reflexivity|].
  destruct Hun as [Hx Hun]. rewrite append_empty_r in Hx.
  rewrite split_go_cons, Hx, IH by assumption. reflexivity.
Qed.

(** Pieces in which the separator cannot start come back from the joined
    string. *)
Lemma split_join c sep (pieces : list string) :
  pieces <> [] ->
  Forall (fun a => forall tail, unmatched (String c sep) a tail) pieces ->
  split (String c sep) (join (String c sep) pieces) = pieces.
Proof.
  unfold split, join. intros Hne Hall.
  induction Hall as [|a rest Ha Hrest IH]; [congruence|].
  destruct rest as [|b rest].
  - cbn [String.concat]. apply split_go_last, Ha.
  - change (String.concat (String c sep) (a :: b :: rest))
      with (a +:+ String c sep +:+ String.concat (String c sep) (b :: rest)).
    rewrite split_go_piece by apply Ha.
    f_equal. apply IH. discriminate.
Qed.

(** A separator that starts with a character absent from [a] cannot start
    inside [a]. *)
Lemma unmatched_absent c sep a tail :
  all_chars (fun x => negb (Ascii.eqb x c)) a = true ->
  unmatched (String c sep) a tail.
Proof.
  induction a as [|x a IH]; cbn [all_chars unmatched]; [trivial|].
  intros [Hx Ha]%andb_prop. split; [|auto].
  apply negb_true_iff in Hx. rewrite append_cons. now apply prefix_cons_other.
Qed.

(** A blank line cannot start inside a solid block. *)
Lemma unmatched_solid b tail : solid b = true -> unmatched nlnl b tail.
Proof.
  induction b as [|x b IH]; cbn [solid unmatched]; [trivial|].
  destruct (Ascii.eqb x LF) eqn:Hx.
  - destruct b as [|y b]; [discriminate|].
    intros [Hy Hb]%andb_prop. split; [|auto].
    apply Ascii.eqb_eq in Hx. subst x. apply negb_true_iff in Hy.
    unfold nlnl. rewrite !append_cons, prefix_cons_same.
    now apply prefix_cons_other.
  - intros Hb. split; [|auto].
    unfold nlnl. rewrite append_cons. now apply prefix_cons_other.
Qed.

End PyStrFacts.

Section PyStrLines.
Import PyStr.

(** *** [splitlines] *)

Lemma splitlines_linebreak_free_aux s :
  Forall (fun l => no_linebreak l = true) (splitlines s)
  /\ forall c, Forall (fun l => no_linebreak l = true) (splitlines (String c s)).
Proof.
  induction s as [|d s [IH1 IH2]].
  - split; [constructor|]. intros c. cbn [splitlines].
    destruct (is_linebreak c) eqn:Hc.
    + destruct (Ascii.eqb c CR); repeat constructor.
    + repeat constructor. unfold no_linebreak. cbn. now rewrite Hc.
  - split; [apply IH2|]. intros c.
    change (splitlines (String c (String d s)))
      with (if is_linebreak c
            then EmptyString ::
                   (if Ascii.eqb c CR
                    then if Ascii.eqb d LF then splitlines s
                         else splitlines (String d s)
                    else splitlines (String d s))
            else match splitlines (String d s) with
                 | [] => [String c EmptyString]
                 | l :: ls => String c l :: ls
                 end).
    destruct (is_linebreak c) eqn:Hc.
    + constructor; [reflexivity|].
      destruct (Ascii.eqb c CR); [destruct (Ascii.eqb d LF)|]; auto.
    + specialize (IH2 d). destruct (splitlines (String d s)) as [|l ls].
      * repeat constructor. unfold no_linebreak. cbn. now rewrite Hc.
      * inversion IH2 as [|? ? Hl Hls]; subst. constructor; [|assumption].
        unfold no_linebreak in *. cbn [all_chars]. now rewrite Hc, Hl.
Qed.

(** The lines that [splitlines] returns hold no line boundary. *)
Lemma splitlines_linebreak_free s :
  Forall (fun l => no_linebreak l = true) (splitlines s).
Proof. apply splitlines_linebreak_free_aux. Qed.

Lemma splitlines_cons_plain c s :
  is_linebreak c = false ->
  splitlines (String c s) =
  match splitlines s with
  | [] => [String c EmptyString]
  | l :: ls => String c l :: ls
  end.
Proof. intros H. cbn [splitlines]. now rewrite H. Qed.

Lemma splitlines_line l rest :
  no_linebreak l = true ->
  splitlines (l +:+ String LF rest) = l :: splitlines rest.
Proof.
  unfold no_linebreak. induction l as [|c l IH]; cbn [all_chars]; intros H.
  - reflexivity.
  - apply andb_prop in H as [Hc Hl]. apply negb_true_iff in Hc.
    rewrite append_cons, splitlines_cons_plain by assumption.
    now rewrite IH.
Qed.

Lemma splitlines_last_line l :
  no_linebreak l = true -> l <> EmptyString -> splitlines l = [l].
Proof.
  unfold no_linebreak. induction l as [|c l IH]; cbn [all_chars]; intros H Hne.
  - congruence.
  - apply andb_prop in H as [Hc Hl]. apply negb_true_iff in Hc.
    rewrite splitlines_cons_plain by assumption.
    destruct l as [|d l]; [reflexivity|].
    rewrite IH by (assumption || discriminate). reflexivity.
Qed.

Lemma join_cons2 sep (a b : string) rest :
  join sep (a :: b :: rest) = a +:+ sep +:+ join sep (b :: rest).
Proof. reflexivity. Qed.

(** Lines without a line boundary, the last of them not empty, come back
    from the joined string. *)
Lemma splitlines_join (lines : list string) :
  Forall (fun l => no_linebreak l = true) lines ->
  match last lines with Some l => l <> EmptyString | None => True end ->
  splitlines (join nl lines) = lines.
Proof.
  induction 1 as [|a rest Ha Hrest IH]; intros Hlast; [reflexivity|].
  destruct rest as [|b rest].
  - cbn in Hlast. now apply splitlines_last_line.
  - rewrite join_cons2. unfold nl at 1. rewrite append_cons.
    change (EmptyString +:+ ?x) with x.
    rewrite splitlines_line by assumption. f_equal. apply IH. exact Hlast.
Qed.

(** *** [strip] *)

Lemma lstrip_clean s : starts_clean s = true -> lstrip s = s.
Proof.
  destruct s as [|c s]; [discriminate|]. cbn.
  intros H%negb_true_iff. now rewrite H.
Qed.

Lemma rstrip_nl s : ends_clean s = true -> rstrip (s +:+ nl) = s.
Proof.
  induction s as [|c s IH]; [discriminate|].
  intros H. rewrite append_cons. cbn [rstrip].
  destruct s as [|d s].
  - cbn in H. apply negb_true_iff in H. cbn. now rewrite H.
  - rewrite IH by exact H. reflexivity.
Qed.

Lemma starts_clean_app a b : starts_clean a = true -> starts_clean (a +:+ b) = true.
Proof. now destruct a. Qed.

Lemma ends_clean_app a b : ends_clean b = true -> ends_clean (a +:+ b) = true.
Proof.
  intros Hb. induction a as [|c a IH]; [assumption|].
  rewrite append_cons. cbn [ends_clean].
  destruct (a +:+ b) eqn:Hab; [|assumption].
  destruct a; [|discriminate].
  change (EmptyString +:+ b) with b in Hab. rewrite Hab in Hb. discriminate.
Qed.

(** A string that begins and ends with other characters than white space
    comes back from [strip] when a line feed is put after it. *)
Lemma strip_nl s :
  starts_clean s = true -> ends_clean s = true -> strip (s +:+ nl) = s.
Proof.
  intros Hs He. unfold strip.
  rewrite lstrip_clean by now apply starts_clean_app.
  now apply rstrip_nl.
Qed.

(** *** Solid blocks *)

Lemma solid_line l : no_linebreak l = true -> solid l = true.
Proof.
  unfold no_linebreak. induction l as [|c l IH]; cbn [all_chars solid];
    [reflexivity|].
  intros [Hc Hl]%andb_prop.
  destruct (Ascii.eqb c LF) eqn:E; [|auto].
  apply Ascii.eqb_eq in E. subst c. discriminate.
Qed.

Lemma solid_app a b : solid a = true -> solid b = true -> solid (a +:+ b) = true.
Proof.
  intros Ha Hb. induction a as [|c a IH]; [assumption|].
  rewrite append_cons. cbn [solid] in *.
  destruct (Ascii.eqb c LF).
  - destruct a as [|d a]; [discriminate|].
    apply andb_prop in Ha as [Hd Ha]. rewrite append_cons, Hd.
    rewrite <- append_cons. cbn [andb]. now apply IH.
  - now apply IH.
Qed.

Lemma join_head sep (a : string) rest :
  exists tail, join sep (a :: rest) = a +:+ tail.
Proof.
  destruct rest as [|b rest].
  - exists EmptyString. cbn. now rewrite append_empty_r.
  - eexists. apply join_cons2.
Qed.

Lemma solid_nl c x :
  Ascii.eqb c LF = false -> solid (String c x) = true ->
  solid (nl +:+ String c x) = true.
Proof.
  intros Hc Hx. unfold nl. rewrite append_cons.
  change (EmptyString +:+ ?y) with y.
  change (solid (String LF (String c x)))
    with (if Ascii.eqb LF LF
          then negb (Ascii.eqb c LF) && solid (String c x)
          else solid (String c x)).
  now rewrite Ascii.eqb_refl, Hc, Hx.
Qed.

Lemma no_linebreak_head c l :
  no_linebreak (String c l) = true -> Ascii.eqb c LF = false.
Proof.
  unfold no_linebreak. cbn [all_chars]. intros [Hc _]%andb_prop.
  destruct (Ascii.eqb c LF) eqn:E; [|reflexivity].
  apply Ascii.eqb_eq in E. subst c. discriminate.
Qed.

(** Lines without a line boundary, none but maybe the first empty, join
    to a solid block. *)
Lemma solid_join a (rest : list string) :
  no_linebreak a = true ->
  Forall (fun l => no_linebreak l = true /\ l <> EmptyString) rest ->
  solid (join nl (a :: rest)) = true.
Proof.
  intros Ha Hrest. revert a Ha.
  induction Hrest as [|b rest [Hb Hne] Hrest IH]; intros a Ha.
  - now apply solid_line.
  - rewrite join_cons2. apply solid_app; [now apply solid_line|].
    specialize (IH b Hb). destruct (join_head nl b rest) as [tail Ht].
    rewrite Ht in *. destruct b as [|c b]; [congruence|].
    rewrite append_cons in *.
    apply solid_nl; [now apply no_linebreak_head with b | assumption].
Qed.

(** *** [in] *)

Lemma contains_here sub rest : contains sub (sub +:+ rest) = true.
Proof.
  destruct (sub +:+ rest) eqn:E; cbn [contains];
    rewrite <- E, prefix_refl_app; reflexivity.
Qed.

Lemma contains_app sub a rest :
  contains sub rest = true -> contains sub (a +:+ rest) = true.
Proof.
  intros H. induction a as [|c a IH]; [assumption|].
  rewrite append_cons. cbn [contains]. rewrite IH. apply orb_true_r.
Qed.

End PyStrLines.

(** ** Time stamps inside a block *)

Section TimingLine.
Import PyStr Timestamp Normalizer.

Lemma all_chars_impl (p q : ascii -> bool) s :
  (forall c, p c = true -> q c = true) ->
  all_chars p s = true -> all_chars q s = true.
Proof.
  intros Hpq. induction s as [|c s IH]; cbn [all_chars]; [trivial|].
  intros [Hc Hs]%andb_prop. rewrite (Hpq _ Hc). cbn. auto.
Qed.

Lemma time_char_no_space c : time_char c = true -> negb (Ascii.eqb c " ") = true.
Proof. destruct c as [[] [] [] [] [] [] [] []]; vm_compute; congruence. Qed.

Lemma time_char_no_linebreak c : time_char c = true -> negb (is_linebreak c) = true.
Proof. destruct c as [[] [] [] [] [] [] [] []]; vm_compute; congruence. Qed.

Lemma format2_time_chars n : 0 <= n < 100 -> all_chars time_char (format_0w 2 n) = true.
Proof.
  intros Hn.
  apply (Z_range_check 100 (fun n => all_chars time_char (format_0w 2 n)));
    [vm_compute; reflexivity | lia].
Qed.

Lemma format3_time_chars n : 0 <= n < 1000 -> all_chars time_char (format_0w 3 n) = true.
Proof.
  intros Hn.
  apply (Z_range_check 1000 (fun n => all_chars time_char (format_0w 3 n)));
    [vm_compute; reflexivity | lia].
Qed.

Lemma format3_ends_clean n : 0 <= n < 1000 -> ends_clean (format_0w 3 n) = true.
Proof.
  intros Hn.
  apply (Z_range_check 1000 (fun n => ends_clean (format_0w 3 n)));
    [vm_compute; reflexivity | lia].
Qed.

(** The fields of a millisecond count below one day. *)
Lemma ms_fields_range ms :
  0 <= ms < 86400000 ->
  0 <= ms / 3600000 < 24
  /\ 0 <= ms mod 3600000 / 60000 < 60
  /\ 0 <= ms mod 3600000 mod 60000 / 1000 < 60
  /\ 0 <= ms mod 3600000 mod 60000 mod 1000 < 1000.
Proof.
  intros Hms.
  pose proof (Z.mod_pos_bound ms 3600000 ltac:(lia)).
  pose proof (Z.mod_pos_bound (ms mod 3600000) 60000 ltac:(lia)).
  pose proof (Z.mod_pos_bound (ms mod 3600000 mod 60000) 1000 ltac:(lia)).
  repeat split; try (apply Z.div_pos; lia); try (apply Z.div_lt_upper_bound; lia);
    lia.
Qed.

Lemma ms_to_time_chars ms :
  0 <= ms < 86400000 -> all_chars time_char (ms_to_time ms) = true.
Proof.
  intros Hms. destruct (ms_fields_range ms Hms) as (Hh & Hm & Hs & Hr).
  rewrite ms_to_time_fields. unfold format_hmsr.
  rewrite !all_chars_app, !format2_time_chars, format3_time_chars by lia.
  reflexivity.
Qed.

Lemma ms_to_time_ends_clean ms :
  0 <= ms < 86400000 -> ends_clean (ms_to_time ms) = true.
Proof.
  intros Hms. destruct (ms_fields_range ms Hms) as (Hh & Hm & Hs & Hr).
  rewrite ms_to_time_fields. unfold format_hmsr.
  repeat apply ends_clean_app. now apply format3_ends_clean.
Qed.

(** The time line of a block splits at its arrow into the two stamps. *)
Lemma split_timing_line a b :
  0 <= a < 86400000 -> 0 <= b < 86400000 ->
  split arrow_sep (timing_line a b) = [ms_to_time a; ms_to_time b].
Proof.
  intros Ha Hb. unfold split, timing_line, arrow_sep.
  rewrite split_go_piece.
  - f_equal. apply split_go_last, unmatched_absent.
    eapply all_chars_impl; [apply time_char_no_space | now apply ms_to_time_chars].
  - apply unmatched_absent.
    eapply all_chars_impl; [apply time_char_no_space | now apply ms_to_time_chars].
Qed.

Lemma timing_line_no_linebreak a b :
  0 <= a < 86400000 -> 0 <= b < 86400000 ->
  no_linebreak (timing_line a b) = true.
Proof.
  intros Ha Hb. unfold no_linebreak, timing_line.
  rewrite !all_chars_app.
  rewrite (all_chars_impl time_char _ (ms_to_time a) time_char_no_linebreak)
    by now apply ms_to_time_chars.
  rewrite (all_chars_impl time_char _ (ms_to_time b) time_char_no_linebreak)
    by now apply ms_to_time_chars.
  reflexivity.
Qed.

Lemma timing_line_not_empty a b : timing_line a b <> EmptyString.
Proof.
  unfold timing_line, arrow_sep. destruct (ms_to_time a); discriminate.
Qed.

Lemma timing_line_ends_clean a b :
  0 <= b < 86400000 -> ends_clean (timing_line a b) = true.
Proof.
  intros Hb. unfold timing_line.
  apply ends_clean_app. apply ends_clean_app.
  now apply ms_to_time_ends_clean.
Qed.

(** What [parse_srt_time] accepts lies within one day. *)
Lemma strptime_HMSf_range ts dt :
  strptime_HMSf ts = Ok dt -> 0 <= time_to_ms dt < 86400000.
Proof.
  unfold strptime_HMSf.
  destruct (re_HMSf ts) as [|[[[[h m] s] us] rest] tl]; [discriminate|].
  destruct rest; [|discriminate].
  intros (-> & Hh & Hm & Hs & Hus)%make_datetime_inv.
  unfold time_to_ms. cbn [hour minute second microsecond].
  assert (0 <= us / 1000 < 1000)
    by (split; [apply Z.div_pos; lia | apply Z.div_lt_upper_bound; lia]).
  lia.
Qed.

Lemma strptime_HMS_range ts dt :
  strptime_HMS ts = Ok dt -> 0 <= time_to_ms dt < 86400000.
Proof.
  unfold strptime_HMS.
  destruct (re_HMS ts) as [|[[[h m] s] rest] tl]; [discriminate|].
  destruct rest; [|discriminate].
  intros (-> & Hh & Hm & Hs & Hus)%make_datetime_inv.
  unfold time_to_ms. cbn [hour minute second microsecond].
  change (0 / 1000) with 0. lia.
Qed.

Lemma parse_srt_time_range ts dt :
  parse_srt_time ts = Ok dt -> 0 <= time_to_ms dt < 86400000.
Proof.
  unfold parse_srt_time.
  destruct (strptime_HMSf _) as [d|e] eqn:H1.
  - intros [= <-]. eapply strptime_HMSf_range; eauto.
  - destruct (strptime_HMS _) as [d|e'] eqn:H2; [|discriminate].
    intros [= <-]. eapply strptime_HMS_range; eauto.
Qed.

(** [parse_srt_time] raises nothing but [ValueError]. *)
Lemma parse_srt_time_raises ts e : parse_srt_time ts = Raise e -> e = ValueError.
Proof.
  unfold parse_srt_time.
  destruct (strptime_HMSf _); [discriminate|].
  destruct (strptime_HMS _); [discriminate|]. congruence.
Qed.

End TimingLine.

(** ** Reading back what the normalizer wrote *)

Section Reparse.
Import PyStr Timestamp Normalizer.

Lemma parse_block_inv blk raw :
  parse_block blk = Ok raw ->
  exists idx timing text start_s end_s start_dt end_dt,
    splitlines blk = idx :: timing :: text
    /\ split arrow_sep timing = [start_s; end_s]
    /\ parse_srt_time start_s = Ok start_dt
    /\ parse_srt_time end_s = Ok end_dt
    /\ raw = mk_raw idx (time_to_ms start_dt) (time_to_ms end_dt) text.
Proof.
  unfold parse_block.
  destruct (splitlines blk) as [|idx [|timing text]] eqn:Hl; try discriminate.
  destruct (split arrow_sep timing) as [|ss [|es [|? ?]]] eqn:Hs;
    try discriminate.
  intros H.
  apply bind_Ok_inv in H as (sd & Hsd & H).
  apply bind_Ok_inv in H as (ed & Hed & [= <-]).
  exists idx, timing, text, ss, es, sd, ed. repeat split; assumption || reflexivity.
Qed.

Lemma parse_block_raises blk e : parse_block blk = Raise e -> e = ValueError.
Proof.
  unfold parse_block.
  destruct (splitlines blk) as [|idx [|timing text]]; try congruence.
  destruct (split arrow_sep timing) as [|ss [|es [|? ?]]]; try congruence.
  destruct (parse_srt_time ss) as [sd|e1] eqn:H1; cbn.
  - destruct (parse_srt_time es) as [ed|e2] eqn:H2; cbn; [discriminate|].
    intros [= <-]. eapply parse_srt_time_raises; eauto.
  - intros [= <-]. eapply parse_srt_time_raises; eauto.
Qed.

Lemma is_ok_Ok {A : Type} (r : result A) : is_ok r = true -> exists a, r = Ok a.
Proof. destruct r; [eauto | discriminate]. Qed.

Lemma parse_block_well_formed blk :
  (exists raw, parse_block blk = Ok raw) <-> well_formed_block blk.
Proof.
  split.
  - intros [raw H].
    apply parse_block_inv in H
      as (idx & timing & text & ss & es & sd & ed & Hl & Hs & Hsd & Hed & _).
    exists idx, timing, text, ss, es. rewrite Hsd, Hed.
    repeat split; assumption.
  - intros (idx & timing & text & ss & es & Hl & Hs & Hsd & Hed).
    apply is_ok_Ok in Hsd as [sd Hsd]. apply is_ok_Ok in Hed as [ed Hed].
    unfold parse_block. rewrite Hl, Hs, Hsd, Hed. cbn. eauto.
Qed.

(** The loop returns on well-formed blocks, and on no others. *)
Lemma adjust_loop_well_formed g blocks :
  forall prev,
    (exists segs, adjust_loop g prev blocks = Ok segs)
    <-> Forall well_formed_block blocks.
Proof.
  induction blocks as [|blk rest IH]; intros prev.
  - split; [constructor | cbn; eauto].
  - split.
    + intros [segs H].
      apply adjust_loop_cons_inv in H as (raw & tl & Hraw & Htl & _).
      constructor.
      * apply parse_block_well_formed. eauto.
      * eapply IH. eauto.
    + intros H. inversion H as [|? ? Hblk Hrest]; subst.
      apply parse_block_well_formed in Hblk as [raw Hraw].
      cbn [adjust_loop]. rewrite Hraw. cbn.
      destruct (proj2 (IH (adjust_end (adjust_start g prev (raw_start raw))
                             (raw_end raw))) Hrest) as [tl Htl].
      rewrite Htl. cbn. eauto.
Qed.

Lemma adjust_loop_raises g blocks :
  forall prev e, adjust_loop g prev blocks = Raise e -> e = ValueError.
Proof.
  induction blocks as [|blk rest IH]; intros prev e; cbn [adjust_loop];
    [discriminate|].
  destruct (parse_block blk) as [raw|e1] eqn:Hraw; cbn.
  - destruct (adjust_loop g _ rest) as [tl|e2] eqn:Htl; cbn; [discriminate|].
    intros [= <-]. eapply IH; eauto.
  - intros [= <-]. eapply parse_block_raises; eauto.
Qed.

(** What the first pass emits: clean lines, times from 0 on, and an end
    after the start. *)
Lemma adjust_loop_output g blocks :
  forall prev segs,
    adjust_loop g prev blocks = Ok segs ->
    Forall (fun sg =>
              clean_lines sg /\ 0 <= seg_start sg /\ seg_start sg < seg_end sg)
           segs.
Proof.
  induction blocks as [|blk rest IH]; intros prev segs H.
  - cbn in H. injection H as <-. constructor.
  - apply adjust_loop_cons_inv in H as (raw & tl & Hraw & Htl & ->).
    constructor; [|eauto]. cbn [seg_idx seg_text seg_start seg_end].
    apply parse_block_inv in Hraw
      as (idx & timing & text & ss & es & sd & ed & Hl & _ & Hsd & _ & ->).
    cbn [raw_idx raw_text raw_start raw_end].
    pose proof (splitlines_linebreak_free blk) as Hfree. rewrite Hl in Hfree.
    inversion Hfree as [|? ? Hidx Hfree']; subst.
    inversion Hfree' as [|? ? _ Htext]; subst.
    apply parse_srt_time_range in Hsd.
    pose proof (adjust_start_ge_start g prev (time_to_ms sd)).
    pose proof (adjust_end_gt (adjust_start g prev (time_to_ms sd)) (time_to_ms ed)).
    repeat split; [assumption | assumption | lia | lia].
Qed.

Lemma last_cons2 {A : Type} (a b : A) l : last (a :: b :: l) = last (b :: l).
Proof. reflexivity. Qed.

(** A rendered segment is read back field by field. *)
Lemma parse_block_render sg :
  clean_lines sg ->
  0 <= seg_start sg < 86400000 -> 0 <= seg_end sg < 86400000 ->
  Forall (fun l => l <> EmptyString) (seg_text sg) ->
  parse_block (render_segment sg)
  = Ok (mk_raw (seg_idx sg) (seg_start sg) (seg_end sg) (seg_text sg)).
Proof.
  intros [Hidx Htext] Hs He Hne.
  unfold parse_block, render_segment. fold (timing_line (seg_start sg) (seg_end sg)).
  rewrite splitlines_join.
  - rewrite split_timing_line by assumption.
    destruct (parse_ms_to_time _ Hs) as (sd & -> & <-).
    destruct (parse_ms_to_time _ He) as (ed & -> & <-).
    reflexivity.
  - constructor; [assumption|].
    constructor; [now apply timing_line_no_linebreak | assumption].
  - rewrite last_cons2.
    destruct (seg_text sg) as [|t text] eqn:Et using rev_ind.
    + cbn. apply timing_line_not_empty.
    + rewrite last_cons, last_snoc.
      apply Forall_app in Hne as [_ Hne]. now inversion Hne.
Qed.

(** Re-running the loop on spaced segments changes nothing. *)
Lemma adjust_loop_render g segs :
  forall prev,
    spaced g prev segs ->
    Forall (fun sg =>
              seg_start sg < seg_end sg
              /\ parse_block (render_segment sg)
                 = Ok (mk_raw (seg_idx sg) (seg_start sg) (seg_end sg)
                         (seg_text sg)))
           segs ->
    adjust_loop g prev (map render_segment segs) = Ok segs.
Proof.
  induction segs as [|sg rest IH]; intros prev Hsp Hall; [reflexivity|].
  destruct Hsp as [Hgap Hsp]. inversion Hall as [|? ? [Hlt Hparse] Hrest]; subst.
  cbn [map adjust_loop]. rewrite Hparse. cbn.
  cbn [raw_idx raw_start raw_end raw_text].
  replace (adjust_start g prev (seg_start sg)) with (seg_start sg)
    by (unfold adjust_start; lia).
  rewrite adjust_end_keep by assumption.
  rewrite IH by assumption. cbn. now destruct sg.
Qed.

End Reparse.

Section Retimeline.
Import PyStr Timestamp Normalizer.

Lemma contains_arrow_timing a b tail :
  contains arrow (timing_line a b +:+ tail) = true.
Proof.
  unfold timing_line, arrow_sep. rewrite !append_assoc. apply contains_app.
  change (" --> " +:+ ?x) with (String " " EmptyString +:+ arrow +:+ String " " x).
  apply contains_app, contains_here.
Qed.

Lemma render_segment_contains_arrow sg :
  contains arrow (render_segment sg) = true.
Proof.
  unfold render_segment. fold (timing_line (seg_start sg) (seg_end sg)).
  rewrite join_cons2.
  destruct (join_head nl (timing_line (seg_start sg) (seg_end sg)) (seg_text sg))
    as [tail ->].
  apply contains_app, contains_app, contains_arrow_timing.
Qed.

Lemma render_segment_solid sg :
  clean_lines sg ->
  0 <= seg_start sg < 86400000 -> 0 <= seg_end sg < 86400000 ->
  Forall (fun l => l <> EmptyString) (seg_text sg) ->
  solid (render_segment sg) = true.
Proof.
  intros [Hidx Htext] Hs He Hne.
  unfold render_segment. fold (timing_line (seg_start sg) (seg_end sg)).
  apply solid_join; [assumption|].
  constructor.
  - split; [now apply timing_line_no_linebreak | apply timing_line_not_empty].
  - apply Forall_and. split; assumption.
Qed.

Lemma render_segment_starts_clean sg :
  starts_clean (seg_idx sg) = true -> starts_clean (render_segment sg) = true.
Proof.
  intros H. unfold render_segment.
  fold (timing_line (seg_start sg) (seg_end sg)).
  destruct (join_head nl (seg_idx sg)
              (timing_line (seg_start sg) (seg_end sg) :: seg_text sg))
    as [tail ->].
  now apply starts_clean_app.
Qed.

Lemma join_last sep (pieces : list string) p :
  last pieces = Some p -> exists pre, join sep pieces = pre +:+ p.
Proof.
  induction pieces as [|a rest IH]; [discriminate|].
  destruct rest as [|b rest].
  - intros [= <-]. now exists EmptyString.
  - rewrite last_cons2. intros [pre Hpre]%IH.
    exists (a +:+ sep +:+ pre). rewrite join_cons2, Hpre.
    now rewrite !append_assoc.
Qed.

Lemma render_segment_ends_clean sg :
  0 <= seg_end sg < 86400000 ->
  match last (seg_text sg) with
  | Some line => ends_clean line = true
  | None => True
  end ->
  ends_clean (render_segment sg) = true.
Proof.
  intros He Hlast. unfold render_segment.
  fold (timing_line (seg_start sg) (seg_end sg)).
  destruct (last (seg_text sg)) as [line|] eqn:El.
  - destruct (join_last nl (seg_idx sg :: timing_line (seg_start sg) (seg_end sg)
                              :: seg_text sg) line) as [pre ->].
    + rewrite last_cons2, last_cons, El. reflexivity.
    + now apply ends_clean_app.
  - apply last_None in El. rewrite El. rewrite join_cons2.
    apply ends_clean_app, ends_clean_app. now apply timing_line_ends_clean.
Qed.

Lemma last_map {A B : Type} (f : A -> B) l x :
  last l = Some x -> last (map f l) = Some (f x).
Proof.
  induction l as [|a [|b l] IH]; [discriminate | now intros [= <-] |].
  rewrite last_cons2. intros H. cbn [map]. rewrite last_cons2. now apply IH.
Qed.

Lemma filter_all {A : Type} (f : A -> bool) l :
  Forall (fun x => f x = true) l -> List.filter f l = l.
Proof.
  induction 1 as [|x l Hx Hl IH]; [reflexivity|].
  cbn. now rewrite Hx, IH.
Qed.

Lemma blocks_of_render_nil : blocks_of (render_timeline []) = [].
Proof. reflexivity. Qed.

(** The blocks of a rendered tidy timeline are its rendered segments. *)
Lemma blocks_of_render segs :
  Forall (fun sg => clean_lines sg /\ 0 <= seg_start sg /\ seg_start sg < seg_end sg)
         segs ->
  tidy segs = true ->
  blocks_of (render_timeline segs) = map render_segment segs.
Proof.
  intros Hout Htidy.
  destruct segs as [|sg0 rest] eqn:Esegs; [apply blocks_of_render_nil|].
  rewrite <- Esegs in *.
  unfold tidy in Htidy.
  apply andb_prop in Htidy as [Htidy Hlast].
  apply andb_prop in Htidy as [Hall Hfirst].
  rewrite forallb_forall in Hall.
  assert (Hseg : Forall (fun sg =>
                   clean_lines sg /\ 0 <= seg_start sg < 86400000
                   /\ 0 <= seg_end sg < 86400000
                   /\ Forall (fun l => l <> EmptyString) (seg_text sg)) segs).
  { apply List.Forall_forall. intros sg Hin.
    rewrite List.Forall_forall in Hout. destruct (Hout sg Hin) as (Hc & H0 & Hlt).
    specialize (Hall sg Hin). unfold tidy_segment in Hall.
    apply andb_prop in Hall as [Hall Htext].
    apply andb_prop in Hall as [Hend _]. apply Z.ltb_lt in Hend.
    split; [assumption|]. split; [lia|]. split; [lia|].
    apply List.Forall_forall. intros l Hl.
    rewrite forallb_forall in Htext. specialize (Htext l Hl).
    unfold non_empty in Htext. apply negb_true_iff in Htext.
    now apply String.eqb_neq in Htext. }
  unfold blocks_of, render_timeline.
  assert (Hne : map render_segment segs <> []) by (rewrite Esegs; discriminate).
  rewrite strip_nl.
  - unfold nlnl. rewrite split_join.
    + apply filter_all. apply Forall_map, Forall_true.
      intros sg. apply render_segment_contains_arrow.
    + exact Hne.
    + apply Forall_map. eapply Forall_impl; [exact Hseg|].
      intros sg (Hc & Hs & He & Ht) tail. cbn.
      apply (unmatched_solid (render_segment sg) tail).
      now apply render_segment_solid.
  - rewrite Esegs in *. cbn [map].
    destruct (join_head nlnl (render_segment sg0) (map render_segment rest))
      as [tail ->].
    apply starts_clean_app, render_segment_starts_clean. exact Hfirst.
  - destruct (last segs) as [sgl|] eqn:El.
    2:{ apply last_None in El. congruence. }
    destruct (join_last nlnl (map render_segment segs) (render_segment sgl))
      as [pre ->].
    { now apply last_map. }
    apply ends_clean_app, render_segment_ends_clean.
    + assert (Hin : In sgl segs).
      { apply last_Some in El as [l' ->]. apply in_or_app. right. now left. }
      rewrite List.Forall_forall in Hseg. now destruct (Hseg sgl Hin) as (_ & _ & ? & _).
    + destruct (last (seg_text sgl)); [exact Hlast | exact I].
Qed.

(** On a tidy output the second pass returns the output. *)
Lemma renormalize_tidy g segs :
  spaced g 0 segs ->
  Forall (fun sg => clean_lines sg /\ 0 <= seg_start sg /\ seg_start sg < seg_end sg)
         segs ->
  tidy segs = true ->
  validate_and_adjust_timings (render_timeline segs) g = Ok (render_timeline segs).
Proof.
  intros Hsp Hout Htidy.
  unfold validate_and_adjust_timings, normalize_segments.
  rewrite blocks_of_render by assumption.
  rewrite adjust_loop_render; [reflexivity | assumption |].
  unfold tidy in Htidy.
  apply andb_prop in Htidy as [Htidy _].
  apply andb_prop in Htidy as [Hall _].
  rewrite forallb_forall in Hall.
  apply List.Forall_forall. intros sg Hin.
  rewrite List.Forall_forall in Hout. destruct (Hout sg Hin) as (Hc & H0 & Hlt).
  specialize (Hall sg Hin). unfold tidy_segment in Hall.
  apply andb_prop in Hall as [Hall Htext].
  apply andb_prop in Hall as [Hend _]. apply Z.ltb_lt in Hend.
  split; [assumption|].
  apply parse_block_render; [assumption | lia | lia |].
  apply List.Forall_forall. intros l Hl.
  rewrite forallb_forall in Htext. specialize (Htext l Hl).
  unfold non_empty in Htext. apply negb_true_iff in Htext.
  now apply String.eqb_neq in Htext.
Qed.

End Retimeline.

(** C3, as stated, fails: a late block followed by an early one is moved
    past midnight, [ms_to_time] writes the hour 24, and the second pass
    raises on it. *)
Lemma renormalize_midnight_counterexample :
  Normalizer.validate_and_adjust_timings Scenarios.scenario_midnight 100
    = Ok Scenarios.scenario_midnight_out
  /\ Normalizer.validate_and_adjust_timings Scenarios.scenario_midnight_out 100
     = Raise ValueError.
Proof. split; vm_compute; reflexivity. Qed.

(** A file with CR LF line ends is one block for the first pass and two
    blocks for the second, which moves the second block. *)
Lemma renormalize_crlf_differs :
  exists out out',
    Normalizer.validate_and_adjust_timings Scenarios.scenario_crlf 100 = Ok out
    /\ Normalizer.validate_and_adjust_timings out 100 = Ok out'
    /\ out <> out'.
Proof.
  do 2 eexists. split; [vm_compute; reflexivity|].
  split; [vm_compute; reflexivity | discriminate].
Qed.

(** C3, amended.  When the first pass emits a tidy timeline (every segment
    ends before 24:00:00, no index line and no text line is empty, the
    first index line does not begin and the last text line does not end
    with white space), a second pass with the same [min_gap] returns the
    output of the first, for every integer [min_gap]. *)
Theorem normalizer_idempotent_on_tidy (srt : string) (min_gap : Z)
    (segs : list Normalizer.segment) :
  Normalizer.normalize_segments srt min_gap = Ok segs ->
  Normalizer.tidy segs = true ->
  exists out,
    Normalizer.validate_and_adjust_timings srt min_gap = Ok out
    /\ Normalizer.validate_and_adjust_timings out min_gap = Ok out.
Proof.
  intros Hsegs Htidy. exists (Normalizer.render_timeline segs). split.
  - unfold Normalizer.validate_and_adjust_timings. now rewrite Hsegs.
  - apply renormalize_tidy; [| |assumption].
    + eapply adjust_loop_spaced. exact Hsegs.
    + eapply adjust_loop_output. exact Hsegs.
Qed.

Lemma normalizer_idempotent_on_tidy_witness :
  Normalizer.normalize_segments Scenarios.scenario_A 100
    = Ok Scenarios.scenario_A_segments
  /\ Normalizer.tidy Scenarios.scenario_A_segments = true
  /\ exists out,
       Normalizer.validate_and_adjust_timings Scenarios.scenario_A 100 = Ok out
       /\ Normalizer.validate_and_adjust_timings out 100 = Ok out.
Proof.
  split; [vm_compute; reflexivity|]. split; [vm_compute; reflexivity|].
  apply (normalizer_idempotent_on_tidy Scenarios.scenario_A 100
           Scenarios.scenario_A_segments); vm_compute; reflexivity.
Defined.

(** C8, as stated, fails: a time stamp that [parse_srt_time] rejects makes
    the normalizer raise. *)
Lemma normalizer_raises_counterexample :
  Normalizer.validate_and_adjust_timings Scenarios.scenario_malformed 100
  = Raise ValueError.
Proof. vm_compute. reflexivity. Qed.

(** C8, amended.  For every input and every [min_gap] the normalizer
    returns a string or raises [ValueError], nothing else; it returns a
    string exactly when every block that contains ["-->"] is well formed:
    at least two lines, the second of them two time stamps that
    [parse_srt_time] accepts with [" --> "] between them. *)
Theorem normalizer_total_on_well_formed (srt : string) (min_gap : Z) :
  ((exists out, Normalizer.validate_and_adjust_timings srt min_gap = Ok out)
   <-> Forall Normalizer.well_formed_block (Normalizer.blocks_of srt))
  /\ (forall e,
        Normalizer.validate_and_adjust_timings srt min_gap = Raise e ->
        e = ValueError).
Proof.
  unfold Normalizer.validate_and_adjust_timings, Normalizer.normalize_segments.
  split; [split|].
  - intros [out H]. apply bind_Ok_inv in H as (segs & Hsegs & _).
    eapply adjust_loop_well_formed. eauto.
  - intros H. eapply adjust_loop_well_formed in H as [segs Hsegs].
    rewrite Hsegs. cbn. eauto.
  - intros e.
    destruct (Normalizer.adjust_loop min_gap 0 (Normalizer.blocks_of srt))
      as [segs|e'] eqn:H; cbn; [discriminate|].
    intros [= <-]. eapply adjust_loop_raises; eauto.
Qed.

(** ** The scenarios of the specification *)

(** Scenario A: the second segment becomes 00:00:02,100 --> 00:00:03,000. *)
Example scenario_A_normalized :
  Normalizer.validate_and_adjust_timings Scenarios.scenario_A 100
  = Ok Scenarios.scenario_A_out.
Proof. vm_compute. reflexivity. Qed.

(** Scenario B: start 2100 and end 2100 are widened to end 2600. *)
Example scenario_B_widened :
  Normalizer.normalize_segments Scenarios.scenario_B 100
  = Ok [Normalizer.mk_segment "1" 1000 2000 ["Hello"];
        Normalizer.mk_segment "2" 2100 2600 ["World"]].
Proof. vm_compute. reflexivity. Qed.

(** Scenario C: a short link yields its identifier, a word yields none. *)
Example scenario_C_identifier :
  VideoId.extract_video_id "https://youtu.be/dQw4w9WgXcQ" = "dQw4w9WgXcQ"
  /\ VideoId.extract_video_id "not-a-url" = EmptyString.
Proof. split; reflexivity. Qed.

(** Scenario D: every provider fails for French, English succeeds: the
    captions are filed under English. *)
Example scenario_D_english :
  snd (Captions.caption_step Captions.only_english_anywhere "dQw4w9WgXcQ" "fr")
  = ("Hello", "en").
Proof. reflexivity. Qed.

(** Where the transcript API falls back by itself, the English captions
    are filed under the requested language. *)
Example english_filed_under_french :
  snd (Captions.caption_step Captions.english_only "dQw4w9WgXcQ" "fr")
  = ("Hello", "fr").
Proof. reflexivity. Qed.

(** With the binary on the path and the command failing, the Python API
    takes over. *)
Example download_falls_back_to_api :
  Download.download_audio Download.failing_binary_env "dQw4w9WgXcQ" "out"
  = Ok "out/dQw4w9WgXcQ.mp3".
Proof. reflexivity. Qed.

(** ** More on video identifiers *)

Section VideoIdMore.
Import PyStr VideoId.

Lemma all_chars_Forall p s :
  all_chars p s = true <-> Forall (fun c => p c = true) (list_ascii_of_string s).
Proof.
  induction s as [|c s IH]; cbn [all_chars list_ascii_of_string].
  - split; [constructor | reflexivity].
  - rewrite andb_true_iff, IH. split.
    + intros [Hc Hs]. now constructor.
    + intros H. now inversion H.
Qed.

(** A string that starts with [p] has the characters of [p]. *)
Lemma prefix_all_chars q p s :
  String.prefix p s = true -> all_chars q s = true -> all_chars q p = true.
Proof.
  revert s. induction p as [|a p IH]; intros s Hp Hs; [reflexivity|].
  destruct s as [|b s]; [discriminate|].
  cbn in Hp. destruct (ascii_dec a b) as [<-|]; [|discriminate].
  cbn [all_chars] in *. apply andb_prop in Hs as [Ha Hs].
  rewrite Ha. cbn. eauto.
Qed.

Lemma match_here_foreign prefixes s :
  all_chars is_id_char s = true ->
  Forall (fun p => all_chars is_id_char p = false) prefixes ->
  match_here prefixes s = None.
Proof.
  intros Hs. induction 1 as [|p ps Hp _ IH]; [reflexivity|].
  cbn [match_here].
  destruct (String.prefix p s) eqn:E; [|assumption].
  rewrite (prefix_all_chars is_id_char p s E Hs) in Hp. discriminate.
Qed.

(** No pattern with a character outside the class is found in a string of
    identifier characters. *)
Lemma search_foreign prefixes s :
  all_chars is_id_char s = true ->
  Forall (fun p => all_chars is_id_char p = false) prefixes ->
  search prefixes s = None.
Proof.
  intros Hs Hp. induction s as [|c s IH].
  - cbn [search]. now rewrite match_here_foreign.
  - cbn [search]. rewrite match_here_foreign by assumption.
    apply IH. cbn [all_chars] in Hs. now apply andb_prop in Hs as [_ Hs].
Qed.

Lemma take_id_exact n :
  forall g rest,
    String.length g = n -> all_chars is_id_char g = true ->
    take_id n (g +:+ rest) = Some (g, rest).
Proof.
  induction n as [|n IH]; intros g rest Hlen Hg.
  - destruct g; [reflexivity | discriminate].
  - destruct g as [|c g]; [discriminate|].
    cbn [all_chars] in Hg. apply andb_prop in Hg as [Hc Hg].
    rewrite append_cons. cbn [take_id]. rewrite Hc.
    rewrite IH; [reflexivity | now injection Hlen | assumption].
Qed.

Lemma search_step prefixes c s :
  match_here prefixes (String c s) = None ->
  search prefixes (String c s) = search prefixes s.
Proof. intros H. cbn [search]. now rewrite H. Qed.

Lemma search_found prefixes s g :
  match_here prefixes s = Some g -> search prefixes s = Some g.
Proof. intros H. destruct s; cbn [search]; now rewrite H. Qed.

Lemma id_string_chars g : id_string 11 g -> all_chars is_id_char g = true.
Proof. intros [_ H]. now apply all_chars_Forall. Qed.

Lemma extract_bare g : id_string 11 g -> extract_video_id g = g.
Proof.
  intros Hid. pose proof (id_string_chars g Hid) as Hg. destruct Hid as [Hlen _].
  unfold extract_video_id.
  rewrite !search_foreign by (assumption || (repeat constructor)).
  unfold match_bare.
  rewrite <- (append_empty_r g) at 1.
  rewrite take_id_exact by assumption. reflexivity.
Qed.

Lemma extract_empty_or_id url :
  extract_video_id url = EmptyString \/ id_string 11 (extract_video_id url).
Proof.
  unfold extract_video_id.
  destruct (search ["v="; "/"] url) as [g|] eqn:H1;
    [right; exact (search_shape _ _ _ H1)|].
  destruct (search ["youtu.be/"] url) as [g|] eqn:H2;
    [right; exact (search_shape _ _ _ H2)|].
  destruct (search ["embed/"] url) as [g|] eqn:H3;
    [right; exact (search_shape _ _ _ H3)|].
  destruct (match_bare url) as [g|] eqn:H4;
    [right; exact (match_bare_shape _ _ H4) | now left].
Qed.

(** The first pattern finds the identifier behind the last prefix of a
    link whose earlier slashes are followed by something else. *)
Lemma match_here_id p ps g rest :
  id_string 11 g ->
  match_here (p :: ps) (p +:+ g +:+ rest) = Some g.
Proof.
  intros Hid. pose proof (id_string_chars g Hid) as Hg. destruct Hid as [Hlen _].
  cbn [match_here]. rewrite prefix_refl_app.
  replace (drop (String.length p) (p +:+ g +:+ rest)) with (g +:+ rest).
  - now rewrite take_id_exact.
  - clear. induction p as [|c p IH]; [now destruct (g +:+ rest) | exact IH].
Qed.

End VideoIdMore.

(** X1. A bare identifier (11 characters of the class) is returned as it
    is. *)
Theorem extract_video_id_bare (g : string) :
  VideoId.id_string 11 g -> VideoId.extract_video_id g = g.
Proof. apply extract_bare. Qed.

Lemma extract_video_id_bare_witness :
  VideoId.id_string 11 "dQw4w9WgXcQ"
  /\ VideoId.extract_video_id "dQw4w9WgXcQ" = "dQw4w9WgXcQ".
Proof.
  assert (H : VideoId.id_string 11 "dQw4w9WgXcQ")
    by (split; [reflexivity | repeat constructor]).
  split; [exact H | exact (extract_video_id_bare "dQw4w9WgXcQ" H)].
Defined.

(** X2. Extracting twice is extracting once: what [extract_video_id]
    returns is a fixed point of it. *)
Theorem extract_video_id_idempotent (url : string) :
  VideoId.extract_video_id (VideoId.extract_video_id url)
  = VideoId.extract_video_id url.
Proof.
  destruct (extract_empty_or_id url) as [-> | Hid].
  - reflexivity.
  - now apply extract_bare.
Qed.

(** X3. The three link forms yield the identifier they carry, whatever
    follows it: the watch link, the short link and the embed link. *)
Theorem extract_video_id_links (g rest : string) :
  VideoId.id_string 11 g ->
  VideoId.extract_video_id ("https://www.youtube.com/watch?v=" +:+ g +:+ rest) = g
  /\ VideoId.extract_video_id ("https://youtu.be/" +:+ g +:+ rest) = g
  /\ VideoId.extract_video_id ("https://www.youtube.com/embed/" +:+ g +:+ rest) = g.
Proof.
  intros Hid. unfold VideoId.extract_video_id.
  repeat split.
  - change ("https://www.youtube.com/watch?v=" +:+ g +:+ rest)
      with ("https://www.youtube.com/watch?" +:+ ("v=" +:+ g +:+ rest)).
    rewrite !append_cons.
    do 30 (rewrite search_step by reflexivity).
    change (VideoId.search ["v="; "/"] _)
      with (VideoId.search ["v="; "/"] ("v=" +:+ g +:+ rest)).
    now rewrite (search_found _ _ g (match_here_id "v=" ["/"] g rest Hid)).
  - change ("https://youtu.be/" +:+ g +:+ rest)
      with ("https://youtu.be" +:+ ("/" +:+ g +:+ rest)).
    rewrite !append_cons.
    do 16 (rewrite search_step by reflexivity).
    change (VideoId.search ["v="; "/"] _)
      with (VideoId.search ["v="; "/"] ("/" +:+ g +:+ rest)).
    assert (H : VideoId.match_here ["v="; "/"] ("/" +:+ g +:+ rest) = Some g).
    { change (VideoId.match_here ["v="; "/"] ("/" +:+ g +:+ rest))
        with (VideoId.match_here ["/"] ("/" +:+ g +:+ rest)).
      now apply match_here_id. }
    now rewrite (search_found _ _ g H).
  - change ("https://www.youtube.com/embed/" +:+ g +:+ rest)
      with ("https://www.youtube.com/embed" +:+ ("/" +:+ g +:+ rest)).
    rewrite !append_cons.
    do 29 (rewrite search_step by reflexivity).
    change (VideoId.search ["v="; "/"] _)
      with (VideoId.search ["v="; "/"] ("/" +:+ g +:+ rest)).
    assert (H : VideoId.match_here ["v="; "/"] ("/" +:+ g +:+ rest) = Some g).
    { change (VideoId.match_here ["v="; "/"] ("/" +:+ g +:+ rest))
        with (VideoId.match_here ["/"] ("/" +:+ g +:+ rest)).
      now apply match_here_id. }
    now rewrite (search_found _ _ g H).
Qed.

Lemma extract_video_id_links_witness :
  VideoId.id_string 11 "dQw4w9WgXcQ"
  /\ VideoId.extract_video_id
       ("https://www.youtube.com/watch?v=" +:+ "dQw4w9WgXcQ" +:+ "&t=42s")
     = "dQw4w9WgXcQ"
  /\ VideoId.extract_video_id ("https://youtu.be/" +:+ "dQw4w9WgXcQ" +:+ "&t=42s")
     = "dQw4w9WgXcQ"
  /\ VideoId.extract_video_id
       ("https://www.youtube.com/embed/" +:+ "dQw4w9WgXcQ" +:+ "&t=42s")
     = "dQw4w9WgXcQ".
Proof.
  assert (H : VideoId.id_string 11 "dQw4w9WgXcQ")
    by (split; [reflexivity | repeat constructor]).
  split; [exact H | exact (extract_video_id_links "dQw4w9WgXcQ" "&t=42s" H)].
Defined.

(** ** More on time stamps *)

Section TimestampMore.
Import PyStr Timestamp.

Lemma replace_char_back a b s :
  all_chars (fun c => negb (Ascii.eqb c b)) s = true ->
  replace_char b a (replace_char a b s) = s.
Proof.
  induction s as [|c s IH]; cbn [all_chars replace_char]; [reflexivity|].
  intros [Hc Hs]%andb_prop. apply negb_true_iff in Hc.
  rewrite IH by assumption. f_equal.
  destruct (Ascii.eqb c a) eqn:E.
  - rewrite Ascii.eqb_refl. symmetry. now apply Ascii.eqb_eq.
  - now rewrite Hc.
Qed.

Lemma time_char_no_dot c : time_char c = true -> negb (Ascii.eqb c ".") = true.
Proof. destruct c as [[] [] [] [] [] [] [] []]; vm_compute; congruence. Qed.

Ltac enum_60 k :=
  do 60 (destruct k as [|k]; [vm_compute; reflexivity|]); exfalso; lia.

(** On a stamp without a fraction the pattern with a fraction finds
    nothing. *)
Lemma field_S_no_fraction {A : Type} s (k : Z -> unit -> matcher A) :
  0 <= s < 60 ->
  mseq field_S (fun v => mseq (lit ",") (k v)) (format_0w 2 s) = [].
Proof.
  revert s. apply (Z_range_ind 60). intros n Hn. enum_60 n.
Qed.

Lemma field_S_whole {A : Type} s (x : Z -> A) :
  0 <= s < 60 ->
  exists tl,
    mseq field_S (fun v => mret (x v)) (format_0w 2 s)
    = (x s, EmptyString) :: tl.
Proof.
  revert s. apply (Z_range_ind 60). intros n Hn.
  do 60 (destruct n as [|n]; [eexists; vm_compute; reflexivity|]).
  exfalso; lia.
Qed.

Lemma parse_format_hms h m s :
  0 <= h < 24 -> 0 <= m < 60 -> 0 <= s < 60 ->
  parse_srt_time (format_hms h m s) = Ok (mk_datetime h m s 0).
Proof.
  intros Hh Hm Hs. unfold parse_srt_time, format_hms.
  rewrite !replace_char_app, !format2_no_dot by lia.
  change (replace_char "." "," ":") with ":".
  unfold strptime_HMSf, re_HMSf, strptime_HMS, re_HMS.
  repeat change (":" +:+ ?x) with (String ":" x).
  rewrite !field_H_format2 by assumption. cbv beta.
  rewrite !field_M_format2 by assumption. cbv beta.
  rewrite field_S_no_fraction by assumption.
  destruct (field_S_whole s (fun v => (h, m, v)) Hs) as [tl ->].
  rewrite make_datetime_in_range by lia. reflexivity.
Qed.

End TimestampMore.

(** X4. Whatever [parse_srt_time] accepts lies within one day: the
    millisecond count of the result is at least 0 and below 86400000. *)
Theorem parsed_time_within_day (ts : string) (dt : Timestamp.datetime) :
  Timestamp.parse_srt_time ts = Ok dt ->
  0 <= Timestamp.time_to_ms dt < 86400000.
Proof. apply parse_srt_time_range. Qed.

Lemma parsed_time_within_day_witness :
  Timestamp.parse_srt_time "23:59:59,999"
    = Ok (Timestamp.mk_datetime 23 59 59 999000)
  /\ 0 <= Timestamp.time_to_ms (Timestamp.mk_datetime 23 59 59 999000) < 86400000.
Proof.
  split; [vm_compute; reflexivity|].
  apply (parsed_time_within_day "23:59:59,999"). vm_compute; reflexivity.
Defined.

(** X5. A stamp written with a dot before the milliseconds is read like
    the one with a comma: the round trip of C10 holds for the dotted form
    of [ms_to_time] as well. *)
Theorem dotted_timestamp_round_trip (ms : Z) :
  0 <= ms < 86400000 ->
  (Timestamp.parse_srt_time
     (PyStr.replace_char "," "." (Timestamp.ms_to_time ms))
     ≫= fun dt => Ok (Timestamp.time_to_ms dt)) = Ok ms.
Proof.
  intros Hms. unfold Timestamp.parse_srt_time.
  rewrite replace_char_back.
  - destruct (parse_ms_to_time ms Hms) as (dt & Hdt & Heq).
    unfold Timestamp.parse_srt_time in Hdt.
    pose proof (ms_fields_range ms Hms) as (Hh & Hm & Hs & Hr).
    rewrite ms_to_time_fields in *.
    rewrite format_hmsr_no_dot in Hdt by assumption.
    rewrite Hdt. cbn. now rewrite Heq.
  - eapply all_chars_impl; [apply time_char_no_dot | now apply ms_to_time_chars].
Qed.

Lemma dotted_timestamp_round_trip_witness :
  0 <= 3723004 < 86400000
  /\ (Timestamp.parse_srt_time
        (PyStr.replace_char "," "." (Timestamp.ms_to_time 3723004))
        ≫= fun dt => Ok (Timestamp.time_to_ms dt)) = Ok 3723004.
Proof.
  split; [lia | apply (dotted_timestamp_round_trip 3723004); lia].
Defined.

(** X6. A stamp without milliseconds, [HH:MM:SS], is read by the second
    format as whole seconds. *)
Theorem timestamp_without_fraction (h m s : Z) :
  0 <= h < 24 -> 0 <= m < 60 -> 0 <= s < 60 ->
  (Timestamp.parse_srt_time (Timestamp.format_hms h m s)
     ≫= fun dt => Ok (Timestamp.time_to_ms dt))
  = Ok ((h * 3600 + m * 60 + s) * 1000).
Proof.
  intros Hh Hm Hs. rewrite parse_format_hms by assumption.
  change (Ok (Timestamp.time_to_ms (Timestamp.mk_datetime h m s 0))
          = Ok ((h * 3600 + m * 60 + s) * 1000)).
  unfold Timestamp.time_to_ms.
  cbn [Timestamp.hour Timestamp.minute Timestamp.second Timestamp.microsecond].
  change (0 / 1000) with 0. f_equal. lia.
Qed.

Lemma timestamp_without_fraction_witness :
  0 <= 1 < 24 /\ 0 <= 2 < 60 /\ 0 <= 3 < 60
  /\ (Timestamp.parse_srt_time (Timestamp.format_hms 1 2 3)
        ≫= fun dt => Ok (Timestamp.time_to_ms dt))
     = Ok ((1 * 3600 + 2 * 60 + 3) * 1000).
Proof.
  repeat (split; [lia|]).
  apply (timestamp_without_fraction 1 2 3); lia.
Defined.

(** ** More on the normalizer *)

Section NormalizerMore.
Import PyStr Timestamp Normalizer.

Lemma adjust_end_ge st en : en <= adjust_end st en.
Proof. unfold adjust_end. destruct (Z.leb_spec en st); lia. Qed.

Lemma adjust_loop_later g blocks :
  forall prev segs,
    adjust_loop g prev blocks = Ok segs ->
    Forall2 (fun blk sg =>
               exists raw,
                 parse_block blk = Ok raw
                 /\ seg_idx sg = raw_idx raw /\ seg_text sg = raw_text raw
                 /\ raw_start raw <= seg_start sg /\ raw_end raw <= seg_end sg)
            blocks segs.
Proof.
  induction blocks as [|blk rest IH]; intros prev segs H.
  - cbn in H. injection H as <-. constructor.
  - apply adjust_loop_cons_inv in H as (raw & tl & Hraw & Htl & ->).
    constructor; [|eauto].
    exists raw. cbn [seg_idx seg_text seg_start seg_end].
    repeat split; try assumption;
      [apply adjust_start_ge_start | apply adjust_end_ge].
Qed.



Lemma adjust_loop_well_spaced g blocks :
  forall prev raws,
    Forall2 (fun blk raw => parse_block blk = Ok raw) blocks raws ->
    well_spaced g prev raws ->
    adjust_loop g prev blocks = Ok (map segment_of_raw raws).
Proof.
  induction blocks as [|blk rest IH]; intros prev raws HF Hws.
  - inversion HF; subst. reflexivity.
  - inversion HF as [|? raw ? raws' Hraw Hrest]; subst.
    destruct Hws as (Hgap & Hlt & Hws).
    cbn [adjust_loop]. rewrite Hraw. cbn.
    replace (adjust_start g prev (raw_start raw)) with (raw_start raw)
      by (unfold adjust_start; lia).
    rewrite adjust_end_keep by assumption.
    rewrite (IH _ _ Hrest Hws). reflexivity.
Qed.

(** *** Inputs without an arrow *)

Lemma prefix_app_r sub a b :
  String.prefix sub a = true -> String.prefix sub (a +:+ b) = true.
Proof.
  revert a. induction sub as [|c sub IH]; intros a H.
  - now destruct (a +:+ b).
  - destruct a as [|x a]; [discriminate|].
    rewrite append_cons. cbn in *.
    destruct (ascii_dec c x); [now apply IH | discriminate].
Qed.

Lemma contains_app_r sub a b :
  contains sub a = true -> contains sub (a +:+ b) = true.
Proof.
  induction a as [|x a IH]; intros H.
  - cbn in H. rewrite orb_false_r in H.
    destruct sub; [|discriminate]. now destruct b.
  - rewrite append_cons. cbn [contains] in *.
    apply orb_true_iff in H as [H|H].
    + rewrite <- append_cons, (prefix_app_r _ _ _ H). reflexivity.
    + rewrite (IH H). apply orb_true_r.
Qed.

Lemma contains_substring sub a p b :
  contains sub p = true -> contains sub (a +:+ p +:+ b) = true.
Proof. intros H. now apply contains_app, contains_app_r. Qed.

Lemma lstrip_suffix s : exists a, s = a +:+ lstrip s.
Proof.
  induction s as [|c s [a IH]]; [now exists EmptyString|].
  cbn [lstrip]. destruct (is_space c).
  - exists (String c a). rewrite append_cons. now f_equal.
  - now exists EmptyString.
Qed.

Lemma rstrip_prefix s : exists b, s = rstrip s +:+ b.
Proof.
  induction s as [|c s [b IH]]; [now exists EmptyString|].
  cbn [rstrip]. destruct (rstrip s) as [|d r] eqn:E.
  - destruct (is_space c).
    + now exists (String c s).
    + exists s. reflexivity.
  - exists b. rewrite append_cons. now f_equal.
Qed.

Lemma contains_strip sub s : contains sub (strip s) = true -> contains sub s = true.
Proof.
  unfold strip. intros H.
  destruct (lstrip_suffix s) as [a Ha].
  destruct (rstrip_prefix (lstrip s)) as [b Hb].
  rewrite Ha, Hb. now apply contains_substring.
Qed.

(** The first piece of a split is at the head of the string, and every
    piece lies somewhere in it. *)
Lemma split_go_first sep s l ls :
  split_go sep O s = l :: ls -> exists b, s = l +:+ b.
Proof.
  revert l ls. induction s as [|c s IH]; intros l ls H.
  - cbn in H. injection H as <- _. now exists EmptyString.
  - rewrite split_go_cons in H.
    destruct (String.prefix sep (String c s)).
    + injection H as <- _. now exists (String c s).
    + destruct (split_go sep O s) as [|l' ls'] eqn:E.
      * injection H as <- _. now exists s.
      * injection H as <- _. destruct (IH _ _ eq_refl) as [b ->].
        now exists b.
Qed.

Lemma split_go_pieces sep s :
  forall k p, In p (split_go sep k s) -> exists a b, s = a +:+ p +:+ b.
Proof.
  induction s as [|c s IH]; intros k p Hin.
  - destruct Hin as [<-|[]]. now exists EmptyString, EmptyString.
  - destruct k as [|k].
    + rewrite split_go_cons in Hin.
      destruct (String.prefix sep (String c s)).
      * destruct Hin as [<-|Hin]; [now exists EmptyString, (String c s)|].
        apply IH in Hin as (a & b & ->). now exists (String c a), b.
      * destruct (split_go sep O s) as [|l ls] eqn:E.
        -- destruct Hin as [<-|[]]. exists EmptyString, s.
           reflexivity.
        -- destruct Hin as [<-|Hin].
           ++ destruct (split_go_first _ _ _ _ E) as [b ->].
              now exists EmptyString, b.
           ++ destruct (IH O p) as (a & b & ->); [rewrite E; now right|].
              now exists (String c a), b.
    + cbn [split_go] in Hin. apply IH in Hin as (a & b & ->).
      now exists (String c a), b.
Qed.

Lemma filter_none {A : Type} (f : A -> bool) l :
  (forall x, In x l -> f x = false) -> List.filter f l = [].
Proof.
  induction l as [|x l IH]; intros H; [reflexivity|].
  cbn. rewrite (H x) by now left. apply IH. intros y Hy. apply H. now right.
Qed.

Lemma blocks_of_no_arrow srt : contains arrow srt = false -> blocks_of srt = [].
Proof.
  intros Hno. unfold blocks_of. apply filter_none. intros blk Hin.
  destruct (contains arrow blk) eqn:E; [|reflexivity].
  apply split_go_pieces in Hin as (a & b & Hs).
  assert (H : contains arrow (strip srt) = true)
    by (rewrite Hs; now apply contains_substring).
  apply contains_strip in H. congruence.
Qed.

End NormalizerMore.

(** X7. The normalizer emits one segment for each block with an arrow, in
    order; the index line and the text lines of a block are kept, and its
    times only move later: neither the start nor the end of a segment lies
    before the time read from the block. *)
Theorem normalizer_keeps_blocks (srt : string) (min_gap : Z)
    (segs : list Normalizer.segment) :
  Normalizer.normalize_segments srt min_gap = Ok segs ->
  length segs = length (Normalizer.blocks_of srt)
  /\ forall i blk sg,
       Normalizer.blocks_of srt !! i = Some blk -> segs !! i = Some sg ->
       exists raw,
         Normalizer.parse_block blk = Ok raw
         /\ Normalizer.seg_idx sg = Normalizer.raw_idx raw
         /\ Normalizer.seg_text sg = Normalizer.raw_text raw
         /\ Normalizer.raw_start raw <= Normalizer.seg_start sg
         /\ Normalizer.raw_end raw <= Normalizer.seg_end sg.
Proof.
  intros H. apply adjust_loop_later in H. split.
  - symmetry. eapply Forall2_length; eauto.
  - intros i blk sg Hblk Hsg.
    exact (Forall2_lookup_lr _ _ _ _ _ _ H Hblk Hsg).
Qed.

Lemma normalizer_keeps_blocks_witness :
  Normalizer.normalize_segments Scenarios.scenario_A 100
    = Ok Scenarios.scenario_A_segments
  /\ length Scenarios.scenario_A_segments
     = length (Normalizer.blocks_of Scenarios.scenario_A)
  /\ forall i blk sg,
       Normalizer.blocks_of Scenarios.scenario_A !! i = Some blk ->
       Scenarios.scenario_A_segments !! i = Some sg ->
       exists raw,
         Normalizer.parse_block blk = Ok raw
         /\ Normalizer.seg_idx sg = Normalizer.raw_idx raw
         /\ Normalizer.seg_text sg = Normalizer.raw_text raw
         /\ Normalizer.raw_start raw <= Normalizer.seg_start sg
         /\ Normalizer.raw_end raw <= Normalizer.seg_end sg.
Proof.
  split; [vm_compute; reflexivity|].
  apply (normalizer_keeps_blocks Scenarios.scenario_A 100).
  vm_compute; reflexivity.
Defined.



(** X9. A timeline that needs no repair is left as it is: when the times
    read from the blocks are already [min_gap] apart (the first one
    [min_gap] after 0) and every block ends after its start, the emitted
    segments carry exactly the times read. *)
Theorem normalizer_keeps_well_spaced (srt : string) (min_gap : Z)
    (raws : list Normalizer.raw_segment) :
  Forall2 (fun blk raw => Normalizer.parse_block blk = Ok raw)
    (Normalizer.blocks_of srt) raws ->
  Normalizer.well_spaced min_gap 0 raws ->
  Normalizer.normalize_segments srt min_gap
  = Ok (map Normalizer.segment_of_raw raws).
Proof. apply adjust_loop_well_spaced. Qed.

Lemma normalizer_keeps_well_spaced_witness :
  Forall2 (fun blk raw => Normalizer.parse_block blk = Ok raw)
    (Normalizer.blocks_of Scenarios.scenario_A_out) Scenarios.scenario_A_out_raws
  /\ Normalizer.well_spaced 100 0 Scenarios.scenario_A_out_raws
  /\ Normalizer.normalize_segments Scenarios.scenario_A_out 100
     = Ok (map Normalizer.segment_of_raw Scenarios.scenario_A_out_raws).
Proof.
  assert (HF : Forall2 (fun blk raw => Normalizer.parse_block blk = Ok raw)
                 (Normalizer.blocks_of Scenarios.scenario_A_out)
                 Scenarios.scenario_A_out_raws).
  { let b := eval vm_compute in (Normalizer.blocks_of Scenarios.scenario_A_out) in
    change (Normalizer.blocks_of Scenarios.scenario_A_out) with b.
    repeat (constructor; [vm_compute; reflexivity|]). constructor. }
  assert (HW : Normalizer.well_spaced 100 0 Scenarios.scenario_A_out_raws)
    by (cbn; lia).
  split; [exact HF|]. split; [exact HW|].
  exact (normalizer_keeps_well_spaced Scenarios.scenario_A_out 100
           Scenarios.scenario_A_out_raws HF HW).
Defined.

(** X10. An input in which no arrow occurs, the empty string or plain text
    for instance, is answered with a single line feed; nothing is
    raised. *)
Theorem normalizer_without_arrow (srt : string) (min_gap : Z) :
  PyStr.contains Normalizer.arrow srt = false ->
  Normalizer.validate_and_adjust_timings srt min_gap = Ok PyStr.nl.
Proof.
  intros H. unfold Normalizer.validate_and_adjust_timings,
    Normalizer.normalize_segments.
  now rewrite blocks_of_no_arrow.
Qed.

Lemma normalizer_without_arrow_witness :
  PyStr.contains Normalizer.arrow "no captions here" = false
  /\ Normalizer.validate_and_adjust_timings "no captions here" 100 = Ok PyStr.nl.
Proof.
  split; [reflexivity|].
  apply (normalizer_without_arrow "no captions here" 100). reflexivity.
Defined.

(** ** The paragraph *)

Section ParagraphFacts.
Import PyStr Paragraph.

Lemma lstrip_empty_or_clean s :
  lstrip s = EmptyString \/ starts_clean (lstrip s) = true.
Proof.
  induction s as [|c s IH]; [now left|].
  cbn [lstrip]. destruct (is_space c) eqn:E; [assumption|].
  right. cbn. now rewrite E.
Qed.

Lemma rstrip_empty_or_clean s :
  rstrip s = EmptyString \/ ends_clean (rstrip s) = true.
Proof.
  induction s as [|c s IH]; [now left|].
  cbn [rstrip]. destruct (rstrip s) as [|d r] eqn:E.
  - destruct (is_space c) eqn:Ec; [now left|].
    right. cbn. now rewrite Ec.
  - right. destruct IH as [IH|IH]; [discriminate|]. exact IH.
Qed.

Lemma rstrip_starts_clean s :
  starts_clean s = true -> starts_clean (rstrip s) = true.
Proof.
  destruct s as [|c s]; [discriminate|]. cbn [starts_clean rstrip].
  intros Hc. destruct (rstrip s).
  - apply negb_true_iff in Hc. rewrite Hc. cbn. now rewrite Hc.
  - exact Hc.
Qed.

(** What [strip] returns is empty or begins and ends with something else
    than white space. *)
Lemma strip_empty_or_clean s :
  strip s = EmptyString
  \/ (starts_clean (strip s) = true /\ ends_clean (strip s) = true).
Proof.
  unfold strip.
  destruct (lstrip_empty_or_clean s) as [->|Hl]; [now left|].
  destruct (rstrip_empty_or_clean (lstrip s)) as [->|Hr]; [now left|].
  right. split; [now apply rstrip_starts_clean | assumption].
Qed.

Lemma single_spaced_tail c s : single_spaced (String c s) = true -> single_spaced s = true.
Proof. cbn [single_spaced]. now intros [_ H]%andb_prop. Qed.

Lemma single_spaced_lstrip s : single_spaced s = true -> single_spaced (lstrip s) = true.
Proof.
  induction s as [|c s IH]; [trivial|].
  intros H. cbn [lstrip]. destruct (is_space c); [|assumption].
  apply IH. now apply single_spaced_tail with c.
Qed.

Lemma single_spaced_rstrip s : single_spaced s = true -> single_spaced (rstrip s) = true.
Proof.
  induction s as [|c s IH]; [trivial|].
  intros H. pose proof (IH (single_spaced_tail _ _ H)) as IH'.
  cbn [single_spaced] in H.
  apply andb_prop in H as [H _]. apply andb_prop in H as [Hc Hcd].
  cbn [rstrip]. destruct (rstrip s) as [|d r] eqn:E.
  - destruct (is_space c) eqn:Ec; [reflexivity|].
    cbn [single_spaced]. now rewrite Ec.
  - cbn [single_spaced]. rewrite Hc. cbn [andb].
    change (single_spaced (String d r)) with
      ((negb (is_space d) || Ascii.eqb d " ")
       && match r with
          | String d' _ => negb (is_space d && is_space d')
          | EmptyString => true
          end && single_spaced r) in IH'.
    rewrite IH'. rewrite andb_true_r.
    (* the first character of [rstrip s] is the first character of [s] *)
    destruct s as [|d0 s0]; [discriminate|].
    assert (d0 = d) as ->.
    { cbn [rstrip] in E. destruct (rstrip s0); [destruct (is_space d0)|];
        congruence. }
    exact Hcd.
Qed.

(** After a white-space character is passed, [collapse] does not begin
    with a blank. *)
Lemma collapse_true_head s :
  match collapse true s with
  | String d _ => is_space d = false
  | EmptyString => True
  end.
Proof.
  induction s as [|c s IH]; [exact I|].
  cbn [collapse]. destruct (is_space c) eqn:E; [assumption | exact E].
Qed.

Lemma blank_is_space : is_space " " = true.
Proof. reflexivity. Qed.

Lemma collapse_single_spaced s :
  forall b, single_spaced (collapse b s) = true.
Proof.
  induction s as [|c s IH]; intros b; [reflexivity|].
  cbn [collapse]. destruct (is_space c) eqn:E.
  - destruct b; [apply IH|].
    cbn [single_spaced]. rewrite IH, blank_is_space, Ascii.eqb_refl.
    pose proof (collapse_true_head s) as Hh.
    destruct (collapse true s); [reflexivity|]. now rewrite Hh.
  - cbn [single_spaced]. rewrite IH, E. cbn.
    now destruct (collapse false s).
Qed.

End ParagraphFacts.

(** X11. The paragraph is one line of words: its only white space is the
    single blank, never two in a row, and it neither begins nor ends with
    white space (or is empty), whatever the input. *)
Theorem srt_to_paragraph_single_spaced (srt : string) :
  Paragraph.single_spaced (Paragraph.srt_to_paragraph srt) = true
  /\ (Paragraph.srt_to_paragraph srt = EmptyString
      \/ (PyStr.starts_clean (Paragraph.srt_to_paragraph srt) = true
          /\ PyStr.ends_clean (Paragraph.srt_to_paragraph srt) = true)).
Proof.
  unfold Paragraph.srt_to_paragraph. split.
  - unfold PyStr.strip. apply single_spaced_rstrip, single_spaced_lstrip.
    apply collapse_single_spaced.
  - apply strip_empty_or_clean.
Qed.

Section ParagraphOfTimeline.
Import PyStr Timestamp Normalizer Paragraph.

(** The facts about a tidy output that reading it back needs. *)
Lemma tidy_segments_facts segs :
  Forall (fun sg => clean_lines sg /\ 0 <= seg_start sg /\ seg_start sg < seg_end sg)
         segs ->
  tidy segs = true ->
  Forall (fun sg =>
            clean_lines sg /\ 0 <= seg_start sg < 86400000
            /\ 0 <= seg_end sg < 86400000
            /\ Forall (fun l => l <> EmptyString) (seg_text sg)) segs.
Proof.
  intros Hout Htidy. unfold tidy in Htidy.
  apply andb_prop in Htidy as [Htidy _].
  apply andb_prop in Htidy as [Hall _].
  rewrite forallb_forall in Hall.
  apply List.Forall_forall. intros sg Hin.
  rewrite List.Forall_forall in Hout. destruct (Hout sg Hin) as (Hc & H0 & Hlt).
  specialize (Hall sg Hin). unfold tidy_segment in Hall.
  apply andb_prop in Hall as [Hall Htext].
  apply andb_prop in Hall as [Hend _]. apply Z.ltb_lt in Hend.
  split; [assumption|]. split; [lia|]. split; [lia|].
  apply List.Forall_forall. intros l Hl.
  rewrite forallb_forall in Htext. specialize (Htext l Hl).
  unfold non_empty in Htext. apply negb_true_iff in Htext.
  now apply String.eqb_neq in Htext.
Qed.

(** The stripped text of a tidy timeline splits at its blank lines into
    the rendered segments. *)
Lemma split_render segs :
  segs <> [] ->
  Forall (fun sg => clean_lines sg /\ 0 <= seg_start sg /\ seg_start sg < seg_end sg)
         segs ->
  tidy segs = true ->
  split nlnl (strip (render_timeline segs)) = map render_segment segs.
Proof.
  intros Hne Hout Htidy.
  pose proof (tidy_segments_facts segs Hout Htidy) as Hseg.
  unfold tidy in Htidy.
  apply andb_prop in Htidy as [Htidy Hlast].
  apply andb_prop in Htidy as [_ Hfirst].
  unfold render_timeline. rewrite strip_nl.
  - unfold nlnl. apply split_join.
    + destruct segs; [congruence | discriminate].
    + apply Forall_map. eapply Forall_impl; [exact Hseg|].
      intros sg (Hc & Hs & He & Ht) tail. cbn.
      apply (unmatched_solid (render_segment sg) tail).
      now apply render_segment_solid.
  - destruct segs as [|sg0 rest]; [congruence|]. cbn [map].
    destruct (join_head nlnl (render_segment sg0) (map render_segment rest))
      as [tail ->].
    apply starts_clean_app, render_segment_starts_clean. exact Hfirst.
  - destruct (last segs) as [sgl|] eqn:El.
    2:{ apply last_None in El. congruence. }
    destruct (join_last nlnl (map render_segment segs) (render_segment sgl))
      as [pre ->]; [now apply last_map|].
    apply ends_clean_app, render_segment_ends_clean.
    + assert (Hin : In sgl segs).
      { apply last_Some in El as [l' ->]. apply in_or_app. right. now left. }
      rewrite List.Forall_forall in Hseg.
      now destruct (Hseg sgl Hin) as (_ & _ & ? & _).
    + destruct (last (seg_text sgl)); [exact Hlast | exact I].
Qed.

Lemma block_text_render sg :
  clean_lines sg ->
  0 <= seg_start sg < 86400000 -> 0 <= seg_end sg < 86400000 ->
  Forall (fun l => l <> EmptyString) (seg_text sg) ->
  block_text (render_segment sg) = segment_text sg.
Proof.
  intros [Hidx Htext] Hs He Hne.
  unfold block_text, render_segment, segment_text.
  fold (timing_line (seg_start sg) (seg_end sg)).
  rewrite splitlines_join.
  - reflexivity.
  - constructor; [assumption|].
    constructor; [now apply timing_line_no_linebreak | assumption].
  - rewrite last_cons2.
    destruct (seg_text sg) as [|t text] eqn:Et using rev_ind.
    + cbn. apply timing_line_not_empty.
    + rewrite last_cons, last_snoc.
      apply Forall_app in Hne as [_ Hne]. now inversion Hne.
Qed.

Lemma omap_cons_eq {A B : Type} (f : A -> option B) x (l : list A) :
  omap f (x :: l)
  = match f x with Some y => y :: omap f l | None => omap f l end.
Proof. reflexivity. Qed.

Lemma paras_render segs :
  Forall (fun sg => clean_lines sg /\ 0 <= seg_start sg /\ seg_start sg < seg_end sg)
         segs ->
  tidy segs = true ->
  paras (render_timeline segs) = omap segment_text segs.
Proof.
  intros Hout Htidy. unfold paras.
  destruct segs as [|sg0 rest] eqn:E; [reflexivity|]. rewrite <- E in *.
  rewrite split_render by (assumption || (rewrite E; discriminate)).
  pose proof (tidy_segments_facts segs Hout Htidy) as Hseg.
  clear -Hseg. induction Hseg as [|sg segs (Hc & Hs & He & Ht) _ IH];
    [reflexivity|].
  cbn [map]. rewrite !omap_cons_eq, block_text_render by assumption.
  now rewrite IH.
Qed.

End ParagraphOfTimeline.

(** X12. The paragraph of a tidy output of the normalizer is made of its
    text lines only: index lines and time lines are left out, and a
    segment without text adds nothing. *)
Theorem paragraph_of_normalized (srt : string) (min_gap : Z)
    (segs : list Normalizer.segment) :
  Normalizer.normalize_segments srt min_gap = Ok segs ->
  Normalizer.tidy segs = true ->
  Paragraph.srt_to_paragraph (Normalizer.render_timeline segs)
  = PyStr.strip
      (Paragraph.sub_spaces
         (PyStr.join " " (omap Paragraph.segment_text segs))).
Proof.
  intros H Htidy. unfold Paragraph.srt_to_paragraph.
  rewrite paras_render; [reflexivity | | assumption].
  eapply adjust_loop_output. exact H.
Qed.

Lemma paragraph_of_normalized_witness :
  Normalizer.normalize_segments Scenarios.scenario_A 100
    = Ok Scenarios.scenario_A_segments
  /\ Normalizer.tidy Scenarios.scenario_A_segments = true
  /\ Paragraph.srt_to_paragraph
       (Normalizer.render_timeline Scenarios.scenario_A_segments)
     = PyStr.strip
         (Paragraph.sub_spaces
            (PyStr.join " "
               (omap Paragraph.segment_text Scenarios.scenario_A_segments))).
Proof.
  split; [vm_compute; reflexivity|]. split; [vm_compute; reflexivity|].
  apply (paragraph_of_normalized Scenarios.scenario_A 100);
    vm_compute; reflexivity.
Defined.

(** ** More on the providers *)

Section ProvidersMore.
Import PyStr Captions.

Lemma any_caption_result caps text :
  any_caption caps = Ok text ->
  text = EmptyString \/ String.eqb (strip text) EmptyString = false.
Proof.
  induction caps as [|[k c] rest IH]; cbn [any_caption].
  - intros [= <-]. now left.
  - destruct c as [t|e]; cbn; [|discriminate].
    destruct (String.eqb (strip t) EmptyString) eqn:E; cbn [negb].
    + exact IH.
    + intros [= <-]. now right.
Qed.

Lemma pytube_body_result lang caps text :
  pytube_body lang caps = Ok text ->
  text = EmptyString \/ String.eqb (strip text) EmptyString = false.
Proof.
  unfold pytube_body.
  destruct (if caps_mem lang caps then Some lang
            else if caps_mem ("a." +:+ lang) caps then Some ("a." +:+ lang)
                 else None) as [k|]; [|apply any_caption_result].
  destruct (negb (String.eqb k EmptyString)); [|apply any_caption_result].
  destruct (caps_lookup k caps) as [[t|e]|]; cbn;
    [| discriminate | apply any_caption_result].
  destruct (String.eqb (strip t) EmptyString) eqn:E; cbn [negb].
  - apply any_caption_result.
  - intros [= <-]. now right.
Qed.

Lemma pytube_body_exact lang caps text :
  lang <> EmptyString ->
  caps_lookup lang caps = Some (Ok text) ->
  String.eqb (strip text) EmptyString = false ->
  pytube_body lang caps = Ok text.
Proof.
  intros Hne Hl Hs. unfold pytube_body, caps_mem. rewrite Hl.
  apply String.eqb_neq in Hne. rewrite Hne. cbn -[strip String.eqb].
  rewrite Hl. cbn -[strip String.eqb]. now rewrite Hs.
Qed.

Lemma pytube_body_auto lang caps text :
  caps_lookup lang caps = None ->
  caps_lookup ("a." +:+ lang) caps = Some (Ok text) ->
  String.eqb (strip text) EmptyString = false ->
  pytube_body lang caps = Ok text.
Proof.
  intros Hn Hl Hs. unfold pytube_body, caps_mem. rewrite Hn, Hl.
  cbn -[strip String.eqb].
  change (String.eqb ("a." +:+ lang) EmptyString) with false.
  cbn -[strip String.eqb]. rewrite Hl. cbn -[strip String.eqb]. now rewrite Hs.
Qed.

Lemma nonblank_strip text :
  String.eqb (strip text) EmptyString = false -> nonblank text = true.
Proof.
  intros H. unfold nonblank. rewrite H.
  destruct text; [discriminate | reflexivity].
Qed.

Lemma get_captions_empty_or_nonblank w vid lang :
  snd (get_captions w vid lang) = EmptyString
  \/ nonblank (snd (get_captions w vid lang)) = true.
Proof.
  rewrite get_captions_result.
  destruct (yields (snd (fetch_via_transcript_api w vid lang))) eqn:H1;
    [right; eapply yields_nonblank; eauto|].
  destruct (yields (snd (fetch_via_ytdlp w vid lang))) eqn:H2;
    [right; eapply yields_nonblank; eauto|].
  destruct (yields (snd (fetch_via_pytube w vid lang))) eqn:H3;
    [right; eapply yields_nonblank; eauto | now left].
Qed.

Lemma caption_step_result w vid lang :
  snd (caption_step w vid lang) =
  if String.eqb (snd (get_captions w vid lang)) EmptyString
     && negb (String.eqb lang "en")
  then (snd (get_captions w vid "en"), "en")
  else (snd (get_captions w vid lang), lang).
Proof.
  unfold caption_step.
  destruct (get_captions w vid lang) as [t1 srt]. cbn [fst snd].
  destruct (String.eqb srt EmptyString && negb (String.eqb lang "en"));
    [|reflexivity].
  now destruct (get_captions w vid "en").
Qed.

End ProvidersMore.

(** X13. What the resolver hands on is never blank: [get_captions] and the
    caption step return the empty string or a text with something else
    than white space in it. *)
Theorem captions_empty_or_nonblank (w : Captions.world) (vid lang : string) :
  (snd (Captions.get_captions w vid lang) = EmptyString
   \/ Captions.nonblank (snd (Captions.get_captions w vid lang)) = true)
  /\ (fst (snd (Captions.caption_step w vid lang)) = EmptyString
      \/ Captions.nonblank (fst (snd (Captions.caption_step w vid lang))) = true).
Proof.
  split; [apply get_captions_empty_or_nonblank|].
  rewrite caption_step_result.
  destruct (_ && _); cbn [fst]; apply get_captions_empty_or_nonblank.
Qed.

(** X14. The pytube provider never lets a [PytubeError] out, and the text
    it returns is empty or not blank. *)
Theorem fetch_via_pytube_result (w : Captions.world) (vid lang : string) :
  snd (Captions.fetch_via_pytube w vid lang) <> Raise PytubeError
  /\ forall text,
       snd (Captions.fetch_via_pytube w vid lang) = Ok text ->
       text = EmptyString
       \/ String.eqb (PyStr.strip text) EmptyString = false.
Proof.
  unfold Captions.fetch_via_pytube. cbn [snd].
  destruct (Captions.pytube_captions w vid) as [caps|e]; cbn.
  - destruct (Captions.pytube_body lang caps) as [t|e] eqn:Hb.
    + split; [discriminate|]. intros text [= <-].
      eapply pytube_body_result; eauto.
    + destruct e; split; try discriminate; try congruence;
        intros text [= <-]; now left.
  - destruct e; split; try discriminate; try congruence;
      intros text [= <-]; now left.
Qed.

(** X15. The pytube provider prefers the track of the requested language:
    its text, when not blank, is returned wherever the track stands among
    the others; without such a track the automatic track [a.<lang>] is
    taken in the same way. *)
Theorem fetch_via_pytube_prefers_language (w : Captions.world)
    (vid lang : string) (caps : list (string * result string)) :
  Captions.pytube_captions w vid = Ok caps ->
  lang <> EmptyString ->
  (forall text,
     Captions.caps_lookup lang caps = Some (Ok text) ->
     String.eqb (PyStr.strip text) EmptyString = false ->
     snd (Captions.fetch_via_pytube w vid lang) = Ok text)
  /\ (forall text,
        Captions.caps_lookup lang caps = None ->
        Captions.caps_lookup ("a." +:+ lang) caps = Some (Ok text) ->
        String.eqb (PyStr.strip text) EmptyString = false ->
        snd (Captions.fetch_via_pytube w vid lang) = Ok text).
Proof.
  intros Hcaps Hne. unfold Captions.fetch_via_pytube. cbn [snd].
  rewrite Hcaps. cbn. split.
  - intros text Hl Hs. now rewrite (pytube_body_exact lang caps text Hne Hl Hs).
  - intros text Hn Hl Hs. now rewrite (pytube_body_auto lang caps text Hn Hl Hs).
Qed.

(** X16. English is not tried twice: asked for English, the caption step
    is one pass of [get_captions], three provider calls at most. *)
Theorem caption_step_english_once (w : Captions.world) (vid : string) :
  Captions.caption_step w vid "en"
  = (fst (Captions.get_captions w vid "en"),
     (snd (Captions.get_captions w vid "en"), "en"))
  /\ (length (Captions.provider_calls (fst (Captions.caption_step w vid "en")))
      <= 3)%nat.
Proof.
  assert (H : Captions.caption_step w vid "en"
              = (fst (Captions.get_captions w vid "en"),
                 (snd (Captions.get_captions w vid "en"), "en"))).
  { unfold Captions.caption_step.
    destruct (Captions.get_captions w vid "en") as [t srt].
    cbn [String.eqb Ascii.eqb Bool.eqb negb fst snd].
    now rewrite andb_false_r. }
  split; [exact H|]. rewrite H. cbn [fst].
  rewrite get_captions_calls.
  destruct (Captions.yields _); [cbn; lia|].
  destruct (Captions.yields _); cbn; lia.
Qed.

(** X17. When the listing has no transcript of the requested language but
    an English one that is not blank, the caption step returns the English
    text and files it under the requested language. *)
Theorem english_transcript_filed_under_request (w : Captions.world)
    (vid lang text : string) (transcripts : string -> option (result string)) :
  Captions.list_transcripts w vid = Ok transcripts ->
  transcripts lang = None ->
  transcripts "en" = Some (Ok text) ->
  Captions.nonblank text = true ->
  snd (Captions.caption_step w vid lang) = (text, lang).
Proof.
  intros Hl Hn He Hnb.
  assert (Hy : Captions.yields (snd (Captions.fetch_via_transcript_api w vid lang))
               = Some text).
  { unfold Captions.fetch_via_transcript_api. rewrite Hl, Hn, He. cbn.
    now rewrite Hnb. }
  rewrite caption_step_result, get_captions_result, Hy.
  rewrite eqb_empty_false; [reflexivity|].
  intros ->. discriminate.
Qed.

Lemma fetch_via_pytube_prefers_language_witness :
  Captions.pytube_captions Captions.two_tracks "dQw4w9WgXcQ"
    = Ok Captions.two_tracks_caps
  /\ "fr" <> EmptyString
  /\ snd (Captions.fetch_via_pytube Captions.two_tracks "dQw4w9WgXcQ" "fr")
     = Ok "Salut".
Proof.
  split; [reflexivity|]. split; [discriminate|].
  assert (Hne : "fr" <> EmptyString) by discriminate.
  exact (proj1 (fetch_via_pytube_prefers_language Captions.two_tracks
                  "dQw4w9WgXcQ" "fr" Captions.two_tracks_caps eq_refl Hne)
           "Salut" eq_refl eq_refl).
Defined.

Lemma english_transcript_filed_under_request_witness :
  Captions.list_transcripts Captions.english_only "dQw4w9WgXcQ"
    = Ok Captions.english_listing
  /\ Captions.english_listing "fr" = None
  /\ Captions.english_listing "en" = Some (Ok "Hello")
  /\ Captions.nonblank "Hello" = true
  /\ snd (Captions.caption_step Captions.english_only "dQw4w9WgXcQ" "fr")
     = ("Hello", "fr").
Proof.
  repeat (split; [reflexivity|]).
  apply (english_transcript_filed_under_request Captions.english_only
           "dQw4w9WgXcQ" "fr" "Hello" Captions.english_listing); reflexivity.
Defined.

(** ** More on the model caches *)

Section ModelCacheMore.
Import ModelCache.

Lemma mem_true k (m : gmap string model) x : m !! k = Some x -> mem k m = true.
Proof. intros H. apply bool_decide_eq_true. eauto. Qed.

Lemma mem_false k (m : gmap string model) : m !! k = None -> mem k m = false.
Proof. intros H. apply bool_decide_eq_false. rewrite H. now intros [? ?]. Qed.

Lemma size_pos_lookup k (m : gmap string model) x :
  m !! k = Some x -> (MAX_CACHED_MODELS <=? size m)%nat = true.
Proof.
  intros H. apply Nat.leb_le. unfold MAX_CACHED_MODELS.
  assert (size m <> 0%nat) by (apply (map_size_ne_0_lookup_2 m k); eauto).
  lia.
Qed.

Lemma get_whisper_hit s load c m0 :
  validate_model_size s = true -> whisper_models c !! s = Some m0 ->
  _get_whisper_model s load c = (c, Ok m0).
Proof.
  intros Hv Hs. unfold _get_whisper_model. rewrite Hv. cbn [negb].
  rewrite (mem_true _ _ _ Hs). cbn [negb]. rewrite andb_false_r.
  now rewrite Hs.
Qed.

Lemma get_faster_hit s load c m0 :
  validate_model_size s = true -> faster_models c !! s = Some m0 ->
  _get_faster_model s load c = (c, Ok m0).
Proof.
  intros Hv Hs. unfold _get_faster_model. rewrite Hv. cbn [negb].
  rewrite (mem_true _ _ _ Hs). cbn [negb]. rewrite andb_false_r.
  now rewrite Hs.
Qed.

Lemma get_whisper_miss_full s load c k m0 :
  validate_model_size s = true ->
  whisper_models c !! k = Some m0 -> whisper_models c !! s = None ->
  _get_whisper_model s load c =
  match load with
  | Ok m => (mk_caches (<[s := m]> ∅) ∅, Ok m)
  | Raise e => (empty_caches, Raise e)
  end.
Proof.
  intros Hv Hk Hs. unfold _get_whisper_model. rewrite Hv. cbn [negb].
  rewrite (size_pos_lookup _ _ _ Hk), (mem_false _ _ Hs). cbn [negb andb].
  unfold clean_model_cache, empty_caches. cbn [whisper_models faster_models].
  rewrite lookup_empty. now destruct load.
Qed.

Lemma get_faster_miss_full s load c k m0 :
  validate_model_size s = true ->
  faster_models c !! k = Some m0 -> faster_models c !! s = None ->
  _get_faster_model s load c =
  match load with
  | Ok m => (mk_caches ∅ (<[s := m]> ∅), Ok m)
  | Raise e => (empty_caches, Raise e)
  end.
Proof.
  intros Hv Hk Hs. unfold _get_faster_model. rewrite Hv. cbn [negb].
  rewrite (size_pos_lookup _ _ _ Hk), (mem_false _ _ Hs). cbn [negb andb].
  unfold clean_model_cache, empty_caches. cbn [whisper_models faster_models].
  rewrite lookup_empty. now destruct load.
Qed.

Lemma get_whisper_cached s load c m :
  snd (_get_whisper_model s load c) = Ok m ->
  whisper_models (fst (_get_whisper_model s load c)) !! s = Some m.
Proof.
  unfold _get_whisper_model.
  destruct (validate_model_size s); cbn [negb]; [|discriminate].
  destruct (_ && _).
  - unfold clean_model_cache, empty_caches. cbn [whisper_models faster_models].
    rewrite lookup_empty. destruct load; cbn [fst snd]; [|discriminate].
    intros [= <-]. cbn [whisper_models]. apply lookup_insert_eq.
  - destruct (whisper_models c !! s) eqn:Hs; cbn [fst snd].
    + now intros [= <-].
    + destruct load; cbn [fst snd]; [|discriminate].
      intros [= <-]. cbn [whisper_models]. apply lookup_insert_eq.
Qed.

Lemma get_faster_cached s load c m :
  snd (_get_faster_model s load c) = Ok m ->
  faster_models (fst (_get_faster_model s load c)) !! s = Some m.
Proof.
  unfold _get_faster_model.
  destruct (validate_model_size s); cbn [negb]; [|discriminate].
  destruct (_ && _).
  - unfold clean_model_cache, empty_caches. cbn [whisper_models faster_models].
    rewrite lookup_empty. destruct load; cbn [fst snd]; [|discriminate].
    intros [= <-]. cbn [faster_models]. apply lookup_insert_eq.
  - destruct (faster_models c !! s) eqn:Hs; cbn [fst snd].
    + now intros [= <-].
    + destruct load; cbn [fst snd]; [|discriminate].
      intros [= <-]. cbn [faster_models]. apply lookup_insert_eq.
Qed.

End ModelCacheMore.

(** X18. After every sequence of get-or-load, release and clear operations
    each of the two dictionaries holds one model at most, so the two hold
    two at most. *)
Theorem model_cache_bounded_per_backend (ops : list ModelCache.op) :
  (size (ModelCache.whisper_models (ModelCache.run ops ModelCache.empty_caches))
   <= 1)%nat
  /\ (size (ModelCache.faster_models (ModelCache.run ops ModelCache.empty_caches))
      <= 1)%nat
  /\ (ModelCache.total_entries (ModelCache.run ops ModelCache.empty_caches)
      <= 2)%nat.
Proof.
  destruct (run_each_bounded ops _ empty_bounded) as [Hw Hf].
  unfold ModelCache.total_entries, ModelCache.MAX_CACHED_MODELS in *. lia.
Qed.

(** X19. A cached size is a hit: the getter returns the cached model,
    does not use the loader and leaves both dictionaries as they are. *)
Theorem model_cache_hit (s : string) (load : result ModelCache.model)
    (c : ModelCache.caches) (m0 : ModelCache.model) :
  ModelCache.validate_model_size s = true ->
  (ModelCache.whisper_models c !! s = Some m0 ->
   ModelCache._get_whisper_model s load c = (c, Ok m0))
  /\ (ModelCache.faster_models c !! s = Some m0 ->
      ModelCache._get_faster_model s load c = (c, Ok m0)).
Proof.
  intros Hv. split; intros Hs;
    [now apply get_whisper_hit | now apply get_faster_hit].
Qed.

Lemma model_cache_hit_witness :
  ModelCache.validate_model_size "base" = true
  /\ ModelCache._get_whisper_model "base" (Raise OutOfMemoryError)
       (ModelCache.mk_caches (<["base" := 7%nat]> ∅) ∅)
     = (ModelCache.mk_caches (<["base" := 7%nat]> ∅) ∅, Ok 7%nat).
Proof.
  split; [reflexivity|].
  apply (model_cache_hit "base" (Raise OutOfMemoryError)
           (ModelCache.mk_caches (<["base" := 7%nat]> ∅) ∅) 7%nat eq_refl).
  apply lookup_insert_eq.
Defined.

(** X20. Loading another size into a backend whose dictionary is taken
    empties both dictionaries first, the one of the other backend too:
    afterwards the new model is the only one cached, and when the load
    fails nothing is cached at all. *)
Theorem model_cache_miss_clears_both (s k : string)
    (load : result ModelCache.model) (c : ModelCache.caches)
    (m0 : ModelCache.model) :
  ModelCache.validate_model_size s = true ->
  ModelCache.whisper_models c !! k = Some m0 ->
  ModelCache.whisper_models c !! s = None ->
  ModelCache._get_whisper_model s load c =
  match load with
  | Ok m => (ModelCache.mk_caches (<[s := m]> ∅) ∅, Ok m)
  | Raise e => (ModelCache.empty_caches, Raise e)
  end.
Proof. apply get_whisper_miss_full. Qed.

Lemma model_cache_miss_clears_both_witness :
  ModelCache.validate_model_size "small" = true
  /\ ModelCache.whisper_models
       (ModelCache.mk_caches (<["base" := 7%nat]> ∅) (<["base" := 8%nat]> ∅))
     !! "base" = Some 7%nat
  /\ ModelCache._get_whisper_model "small" (Ok 9%nat)
       (ModelCache.mk_caches (<["base" := 7%nat]> ∅) (<["base" := 8%nat]> ∅))
     = (ModelCache.mk_caches (<["small" := 9%nat]> ∅) ∅, Ok 9%nat).
Proof.
  split; [reflexivity|]. split; [apply lookup_insert_eq|].
  apply (model_cache_miss_clears_both "small" "base" (Ok 9%nat)
           (ModelCache.mk_caches (<["base" := 7%nat]> ∅) (<["base" := 8%nat]> ∅))
           7%nat eq_refl).
  - apply lookup_insert_eq.
  - cbn [ModelCache.whisper_models]. rewrite lookup_insert_ne by discriminate.
    apply lookup_empty.
Defined.

(** X21. The model a getter returns is the one cached under the requested
    size when it returns. *)
Theorem model_cache_returns_cached (s : string) (load : result ModelCache.model)
    (c : ModelCache.caches) (m : ModelCache.model) :
  (snd (ModelCache._get_whisper_model s load c) = Ok m ->
   ModelCache.whisper_models (fst (ModelCache._get_whisper_model s load c)) !! s
   = Some m)
  /\ (snd (ModelCache._get_faster_model s load c) = Ok m ->
      ModelCache.faster_models (fst (ModelCache._get_faster_model s load c)) !! s
      = Some m).
Proof. split; [apply get_whisper_cached | apply get_faster_cached]. Qed.

(** ** More on the download *)

Section DownloadMore.
Import PyStr Download.

Lemma after_last_split c s t :
  after_last c s = Some t -> exists a, s = a +:+ String c t.
Proof.
  revert t. induction s as [|x s IH]; intros t; cbn [after_last]; [discriminate|].
  destruct (after_last c s) as [t'|] eqn:E.
  - intros [= <-]. destruct (IH _ eq_refl) as [a ->].
    now exists (String x a).
  - destruct (Ascii.eqb x c) eqn:Ex; [|discriminate].
    intros [= <-]. apply Ascii.eqb_eq in Ex. subst x. now exists EmptyString.
Qed.

Lemma lstrip_dots_suffix s : exists a, s = a +:+ lstrip_dots s.
Proof.
  induction s as [|x s [a IH]]; [now exists EmptyString|].
  destruct (Ascii.eqb x ".") eqn:E.
  - apply Ascii.eqb_eq in E. subst x. cbn [lstrip_dots].
    exists (String "." a). rewrite append_cons. now f_equal.
  - exists EmptyString.
    destruct x as [[] [] [] [] [] [] [] []]; try reflexivity; discriminate.
Qed.

(** [root + ext == path]: a path ends with its extension. *)
Lemma splitext_root p : exists root, p = root +:+ splitext_ext p.
Proof.
  unfold splitext_ext.
  destruct (after_last "/" p) as [b|] eqn:Eb.
  - apply after_last_split in Eb as [d ->].
    destruct (lstrip_dots_suffix b) as [dots Hdots].
    destruct (after_last "." (lstrip_dots b)) as [e|] eqn:Ee.
    + apply after_last_split in Ee as [a Ha].
      exists (d +:+ "/" +:+ dots +:+ a).
      rewrite Hdots at 1. rewrite Ha. now rewrite !append_assoc.
    + exists (d +:+ String "/" b). now rewrite append_empty_r.
  - destruct (lstrip_dots_suffix p) as [dots Hdots].
    destruct (after_last "." (lstrip_dots p)) as [e|] eqn:Ee.
    + apply after_last_split in Ee as [a Ha].
      exists (dots +:+ a). rewrite Hdots at 1. rewrite Ha.
      now rewrite !append_assoc.
    + exists p. now rewrite append_empty_r.
Qed.

Lemma lower_app a b : lower (a +:+ b) = lower a +:+ lower b.
Proof.
  induction a as [|x a IH]; [reflexivity|].
  rewrite append_cons. cbn [lower]. now rewrite IH.
Qed.

Lemma length_append (a b : string) :
  String.length (a +:+ b) = (String.length a + String.length b)%nat.
Proof.
  induction a as [|x a IH]; [reflexivity|].
  rewrite append_cons. cbn [String.length]. now rewrite IH.
Qed.

Lemma drop_append (a b : string) : VideoId.drop (String.length a) (a +:+ b) = b.
Proof. induction a as [|x a IH]; [now destruct b | exact IH]. Qed.

Lemma endswith_append a suffix : Captions.endswith suffix (a +:+ suffix) = true.
Proof.
  unfold Captions.endswith. rewrite length_append.
  replace (String.length a + String.length suffix - String.length suffix)%nat
    with (String.length a) by lia.
  rewrite drop_append, String.eqb_refl. cbn. apply Nat.leb_le. lia.
Qed.

Lemma in_list_cases s l : in_list s l = true -> In s l.
Proof.
  unfold in_list. rewrite existsb_exists. intros (x & Hin & Heq).
  apply String.eqb_eq in Heq. now subst.
Qed.

Lemma check_audio_file_inv f p :
  check_audio_file f p = true ->
  path_exists f p = true /\ 1000 <= getsize f p
  /\ exists ext,
       In ext [".mp3"; ".wav"; ".m4a"; ".flac"]
       /\ Captions.endswith ext (lower p) = true.
Proof.
  unfold check_audio_file.
  destruct (path_exists f p); cbn [negb]; [|discriminate].
  destruct (Z.ltb_spec (getsize f p) 1000); [discriminate|].
  intros Hin%in_list_cases. split; [reflexivity|]. split; [lia|].
  exists (lower (splitext_ext p)). split; [assumption|].
  destruct (splitext_root p) as [root Hroot].
  rewrite Hroot at 2. rewrite lower_app. apply endswith_append.
Qed.

End DownloadMore.

(** X22. A file that passes [check_audio_file] exists, holds 1000 bytes at
    least and its path, in lower case, ends in [.mp3], [.wav], [.m4a] or
    [.flac]. *)
Theorem check_audio_file_accepts (f : Download.fs) (file_path : string) :
  Download.check_audio_file f file_path = true ->
  Download.path_exists f file_path = true
  /\ 1000 <= Download.getsize f file_path
  /\ exists ext,
       In ext [".mp3"; ".wav"; ".m4a"; ".flac"]
       /\ Captions.endswith ext (Download.lower file_path) = true.
Proof. apply check_audio_file_inv. Qed.

Lemma check_audio_file_accepts_witness :
  Download.check_audio_file
    (Download.fs_after_api Download.failing_binary_env) "out/dQw4w9WgXcQ.MP3"
    = true
  /\ Download.path_exists
       (Download.fs_after_api Download.failing_binary_env) "out/dQw4w9WgXcQ.MP3"
     = true
  /\ 1000 <= Download.getsize
               (Download.fs_after_api Download.failing_binary_env)
               "out/dQw4w9WgXcQ.MP3"
  /\ exists ext,
       In ext [".mp3"; ".wav"; ".m4a"; ".flac"]
       /\ Captions.endswith ext (Download.lower "out/dQw4w9WgXcQ.MP3") = true.
Proof.
  split; [reflexivity|].
  apply (check_audio_file_accepts
           (Download.fs_after_api Download.failing_binary_env)
           "out/dQw4w9WgXcQ.MP3").
  reflexivity.
Defined.

(** X23. With a [yt-dlp] binary on the path and the output directory in
    place, [download_audio] raises nothing; what it returns is the empty
    string or a path that has passed [check_audio_file], on the files
    left by the command or on those left by the Python API. *)
Theorem download_audio_returns_checked (e : Download.env)
    (video_id outdir cmd : string) :
  Download.makedirs e outdir = Ok tt ->
  Download.truthy (match Download.truthy (Download.which e "yt-dlp") with
                   | Some p => Some p
                   | None => Download.which e "yt_dlp"
                   end) = Some cmd ->
  exists p,
    Download.download_audio e video_id outdir = Ok p
    /\ (p = EmptyString
        \/ Download.check_audio_file (Download.fs_after_cli e) p = true
        \/ Download.check_audio_file (Download.fs_after_api e) p = true).
Proof. apply download_audio_with_binary. Qed.

Lemma download_audio_returns_checked_witness :
  Download.makedirs Download.failing_binary_env "out" = Ok tt
  /\ Download.truthy
       (match Download.truthy (Download.which Download.failing_binary_env "yt-dlp") with
        | Some p => Some p
        | None => Download.which Download.failing_binary_env "yt_dlp"
        end) = Some "/usr/bin/yt-dlp"
  /\ exists p,
       Download.download_audio Download.failing_binary_env "dQw4w9WgXcQ" "out"
         = Ok p
       /\ (p = EmptyString
           \/ Download.check_audio_file
                (Download.fs_after_cli Download.failing_binary_env) p = true
           \/ Download.check_audio_file
                (Download.fs_after_api Download.failing_binary_env) p = true).
Proof.
  split; [reflexivity|]. split; [reflexivity|].
  apply (download_audio_returns_checked Download.failing_binary_env
           "dQw4w9WgXcQ" "out" "/usr/bin/yt-dlp"); reflexivity.
Defined.

(** ** Local transcription *)

Section TranscribeFacts.
Import PyStr Timestamp ModelCache Transcribe.

Lemma join_empty_cons (x : string) l :
  join EmptyString (x :: l) = x +:+ join EmptyString l.
Proof.
  destruct l as [|y l]; [cbn; now rewrite append_empty_r | reflexivity].
Qed.

Lemma decimal_not_empty n : decimal n <> EmptyString.
Proof.
  unfold decimal. destruct (N.to_uint (Z.to_N n)); discriminate.
Qed.

Lemma transcribe_whisper_released f load run path lang size_ c :
  snd (transcribe_whisper f load run path lang size_ c) <> EmptyString ->
  whisper_models (fst (transcribe_whisper f load run path lang size_ c)) !! size_
  = None.
Proof.
  unfold transcribe_whisper.
  destruct (negb _); [cbn; congruence|].
  destruct (_get_whisper_model size_ load c) as [c1 [m|e]]; [|cbn; congruence].
  destruct (run path lang) as [[|seg segs]|e]; cbn [fst snd]; try congruence.
  intros _. apply lookup_delete_eq.
Qed.

Lemma transcribe_faster_released f load run path lang size_ c :
  snd (transcribe_faster f load run path lang size_ c) <> EmptyString ->
  faster_models (fst (transcribe_faster f load run path lang size_ c)) !! size_
  = None.
Proof.
  unfold transcribe_faster.
  destruct (negb _); [cbn; congruence|].
  destruct (_get_faster_model size_ load c) as [c1 [m|e]]; [|cbn; congruence].
  destruct (run path lang) as [[|seg segs]|e]; cbn [fst snd]; try congruence.
  intros _. apply lookup_delete_eq.
Qed.

Lemma transcribe_whisper_no_segments f load run path lang size_ c m :
  Download.check_audio_file f path = true ->
  snd (_get_whisper_model size_ load c) = Ok m ->
  run path lang = Ok [] ->
  transcribe_whisper f load run path lang size_ c
  = (fst (_get_whisper_model size_ load c), EmptyString).
Proof.
  intros Hc Hm Hr. unfold transcribe_whisper. rewrite Hc. cbn [negb].
  destruct (_get_whisper_model size_ load c) as [c1 r]. cbn [fst snd] in *.
  subst r. now rewrite Hr.
Qed.

Lemma transcribe_faster_no_segments f load run path lang size_ c m :
  Download.check_audio_file f path = true ->
  snd (_get_faster_model size_ load c) = Ok m ->
  run path lang = Ok [] ->
  transcribe_faster f load run path lang size_ c
  = (fst (_get_faster_model size_ load c), EmptyString).
Proof.
  intros Hc Hm Hr. unfold transcribe_faster. rewrite Hc. cbn [negb].
  destruct (_get_faster_model size_ load c) as [c1 r]. cbn [fst snd] in *.
  subst r. now rewrite Hr.
Qed.

Lemma get_faster_fresh s m c :
  validate_model_size s = true -> faster_models c = ∅ ->
  _get_faster_model s (Ok m) c
  = (mk_caches (whisper_models c) (<[s := m]> ∅), Ok m).
Proof.
  intros Hv He. unfold _get_faster_model. rewrite Hv, He. cbn [negb].
  rewrite map_size_empty. cbn [Nat.leb MAX_CACHED_MODELS andb].
  rewrite He, lookup_empty. reflexivity.
Qed.

Lemma get_whisper_fresh s m c :
  validate_model_size s = true -> whisper_models c = ∅ ->
  _get_whisper_model s (Ok m) c
  = (mk_caches (<[s := m]> ∅) (faster_models c), Ok m).
Proof.
  intros Hv He. unfold _get_whisper_model. rewrite Hv, He. cbn [negb].
  rewrite map_size_empty. cbn [Nat.leb MAX_CACHED_MODELS andb].
  rewrite He, lookup_empty. reflexivity.
Qed.

End TranscribeFacts.

(** X24. A backend that returns a transcript has released its model: when
    [transcribe_whisper] (or [transcribe_faster]) returns a text that is
    not empty, the requested size is no longer in its dictionary. *)
Theorem transcribe_releases_model (f : Download.fs)
    (load : result ModelCache.model)
    (run : string -> string -> result (list Transcribe.tseg))
    (path lang model_size : string) (c : ModelCache.caches) :
  (snd (Transcribe.transcribe_whisper f load run path lang model_size c)
     <> EmptyString ->
   ModelCache.whisper_models
     (fst (Transcribe.transcribe_whisper f load run path lang model_size c))
     !! model_size = None)
  /\ (snd (Transcribe.transcribe_faster f load run path lang model_size c)
        <> EmptyString ->
      ModelCache.faster_models
        (fst (Transcribe.transcribe_faster f load run path lang model_size c))
        !! model_size = None).
Proof.
  split; [apply transcribe_whisper_released | apply transcribe_faster_released].
Qed.

Lemma transcribe_releases_model_witness :
  snd (Transcribe.transcribe_whisper
         (Transcribe.fs_now (Transcribe.both_backends []))
         (Ok 2%nat) (fun _ _ => Ok Transcribe.talk) "out/dQw4w9WgXcQ.mp3"
         "en" "base" ModelCache.empty_caches) <> EmptyString
  /\ ModelCache.whisper_models
       (fst (Transcribe.transcribe_whisper
               (Transcribe.fs_now (Transcribe.both_backends []))
               (Ok 2%nat) (fun _ _ => Ok Transcribe.talk)
               "out/dQw4w9WgXcQ.mp3" "en" "base" ModelCache.empty_caches))
       !! "base" = None.
Proof.
  split; [discriminate|].
  apply (proj1 (transcribe_releases_model
                  (Transcribe.fs_now (Transcribe.both_backends []))
                  (Ok 2%nat) (fun _ _ => Ok Transcribe.talk)
                  "out/dQw4w9WgXcQ.mp3" "en" "base" ModelCache.empty_caches)).
  discriminate.
Defined.

(** X25. A backend that gets no segments returns the empty string and
    leaves its model loaded: the early [return ""] comes before the
    unloading. *)
Theorem transcribe_without_segments_keeps_model (f : Download.fs)
    (load : result ModelCache.model)
    (run : string -> string -> result (list Transcribe.tseg))
    (path lang model_size : string) (c : ModelCache.caches)
    (m : ModelCache.model) :
  Download.check_audio_file f path = true ->
  snd (ModelCache._get_whisper_model model_size load c) = Ok m ->
  run path lang = Ok [] ->
  snd (Transcribe.transcribe_whisper f load run path lang model_size c)
    = EmptyString
  /\ ModelCache.whisper_models
       (fst (Transcribe.transcribe_whisper f load run path lang model_size c))
       !! model_size = Some m.
Proof.
  intros Hc Hm Hr.
  rewrite (transcribe_whisper_no_segments _ _ _ _ _ _ _ m Hc Hm Hr).
  split; [reflexivity|]. cbn [fst]. now apply get_whisper_cached.
Qed.

Lemma transcribe_without_segments_keeps_model_witness :
  Download.check_audio_file (Transcribe.fs_now (Transcribe.both_backends []))
    "out/dQw4w9WgXcQ.mp3" = true
  /\ snd (ModelCache._get_whisper_model "base" (Ok 2%nat) ModelCache.empty_caches)
     = Ok 2%nat
  /\ snd (Transcribe.transcribe_whisper
            (Transcribe.fs_now (Transcribe.both_backends []))
            (Ok 2%nat) (fun _ _ => Ok []) "out/dQw4w9WgXcQ.mp3" "en" "base"
            ModelCache.empty_caches) = EmptyString
  /\ ModelCache.whisper_models
       (fst (Transcribe.transcribe_whisper
               (Transcribe.fs_now (Transcribe.both_backends []))
               (Ok 2%nat) (fun _ _ => Ok []) "out/dQw4w9WgXcQ.mp3" "en" "base"
               ModelCache.empty_caches))
       !! "base" = Some 2%nat.
Proof.
  split; [reflexivity|]. split; [reflexivity|].
  apply (transcribe_without_segments_keeps_model
           (Transcribe.fs_now (Transcribe.both_backends []))
           (Ok 2%nat) (fun _ _ => Ok []) "out/dQw4w9WgXcQ.mp3" "en" "base"
           ModelCache.empty_caches 2%nat); reflexivity.
Defined.

(** X26. Steps 2 and 3 of [transcribe_local] can end with two models
    loaded: when both backends are installed, both loads succeed and both
    get no segments, the faster-whisper model and the whisper model are
    cached side by side when the steps are over. *)
Theorem run_backends_keeps_both_models (e : Transcribe.env)
    (audio_path lang model_size : string) (c : ModelCache.caches)
    (m1 m2 : ModelCache.model) :
  ModelCache.validate_model_size model_size = true ->
  Download.check_audio_file (Transcribe.fs_now e) audio_path = true ->
  Transcribe.HAS_FASTER e = true -> Transcribe.HAS_WHISPER e = true ->
  Transcribe.faster_load e = Ok m1 -> Transcribe.whisper_load e = Ok m2 ->
  Transcribe.faster_run e audio_path lang = Ok [] ->
  Transcribe.whisper_run e audio_path lang = Ok [] ->
  Transcribe.run_backends e audio_path lang model_size
    (ModelCache.clean_model_cache c)
  = (ModelCache.mk_caches (<[model_size := m2]> ∅) (<[model_size := m1]> ∅),
     EmptyString)
  /\ ModelCache.total_entries
       (fst (Transcribe.run_backends e audio_path lang model_size
               (ModelCache.clean_model_cache c))) = 2%nat.
Proof.
  intros Hv Hc Hf Hw Hl1 Hl2 Hr1 Hr2.
  assert (H : Transcribe.run_backends e audio_path lang model_size
                (ModelCache.clean_model_cache c)
              = (ModelCache.mk_caches (<[model_size := m2]> ∅)
                   (<[model_size := m1]> ∅), EmptyString)).
  { unfold Transcribe.run_backends. rewrite Hf, Hw, Hl1, Hl2.
    rewrite (transcribe_faster_no_segments _ _ _ _ _ _ _ m1 Hc);
      [|now rewrite get_faster_fresh | assumption].
    rewrite get_faster_fresh by (assumption || reflexivity).
    cbn [fst String.eqb andb].
    rewrite (transcribe_whisper_no_segments _ _ _ _ _ _ _ m2 Hc);
      [|now rewrite get_whisper_fresh | assumption].
    now rewrite get_whisper_fresh. }
  split; [exact H|]. rewrite H.
  unfold ModelCache.total_entries.
  cbn [fst ModelCache.whisper_models ModelCache.faster_models].
  rewrite !map_size_insert_None, map_size_empty by apply lookup_empty.
  reflexivity.
Qed.

Lemma run_backends_keeps_both_models_witness :
  ModelCache.validate_model_size "base" = true
  /\ Download.check_audio_file
       (Transcribe.fs_now (Transcribe.silent_backends)) "out/a.mp3" = true
  /\ ModelCache.total_entries
       (fst (Transcribe.run_backends Transcribe.silent_backends "out/a.mp3"
               "en" "base"
               (ModelCache.clean_model_cache ModelCache.empty_caches)))
     = 2%nat.
Proof.
  split; [reflexivity|]. split; [reflexivity|].
  apply (run_backends_keeps_both_models Transcribe.silent_backends
           "out/a.mp3" "en" "base" ModelCache.empty_caches 1%nat 2%nat);
    reflexivity.
Defined.

(** X27. The defect of [download_audio] reaches the caller: without a
    [yt-dlp] binary on the path, [transcribe_local] with a valid model
    size raises [UnboundLocalError]; the transcript API, kept for a failed
    download, is not asked. *)
Theorem transcribe_local_raises_without_binary (e : Transcribe.env)
    (video_id outdir lang model_size : string) (c : ModelCache.caches) :
  ModelCache.validate_model_size model_size = true ->
  Download.makedirs (Transcribe.dl e) outdir = Ok tt ->
  Download.which (Transcribe.dl e) "yt-dlp" = None ->
  Download.which (Transcribe.dl e) "yt_dlp" = None ->
  Transcribe.transcribe_local e video_id outdir lang model_size c
  = Raise UnboundLocalError.
Proof.
  intros Hv Hmk H1 H2. unfold Transcribe.transcribe_local.
  rewrite Hv. cbn [negb]. unfold Download.download_audio.
  rewrite Hmk, H1. cbn [Download.truthy]. rewrite H2. reflexivity.
Qed.

Lemma transcribe_local_raises_without_binary_witness :
  ModelCache.validate_model_size "base" = true
  /\ Download.makedirs (Transcribe.dl Transcribe.no_binary) "out" = Ok tt
  /\ Download.which (Transcribe.dl Transcribe.no_binary) "yt-dlp" = None
  /\ Download.which (Transcribe.dl Transcribe.no_binary) "yt_dlp" = None
  /\ Transcribe.transcribe_local Transcribe.no_binary "dQw4w9WgXcQ" "out" "en"
       "base" ModelCache.empty_caches = Raise UnboundLocalError.
Proof.
  repeat (split; [reflexivity|]).
  apply (transcribe_local_raises_without_binary Transcribe.no_binary
           "dQw4w9WgXcQ" "out" "en" "base" ModelCache.empty_caches);
    reflexivity.
Defined.

(** X28. When faster-whisper returns a transcript, [transcribe_local]
    returns it: whisper is not run, the transcript API is not asked, and
    both dictionaries are empty at the end. *)
Theorem transcribe_local_first_backend_wins (e : Transcribe.env)
    (video_id outdir lang model_size audio_path srt : string)
    (c : ModelCache.caches) :
  ModelCache.validate_model_size model_size = true ->
  Download.download_audio (Transcribe.dl e) video_id outdir = Ok audio_path ->
  audio_path <> EmptyString ->
  Download.path_exists (Transcribe.fs_now e) audio_path = true ->
  Transcribe.HAS_FASTER e = true ->
  snd (Transcribe.transcribe_faster (Transcribe.fs_now e)
         (Transcribe.faster_load e) (Transcribe.faster_run e)
         audio_path lang model_size (ModelCache.clean_model_cache c)) = srt ->
  srt <> EmptyString ->
  Transcribe.transcribe_local e video_id outdir lang model_size c
  = Ok (ModelCache.empty_caches, srt).
Proof.
  intros Hv Hd Hne Hex Hf Hsrt Hsne. unfold Transcribe.transcribe_local.
  rewrite Hv, Hd. cbn [negb]. cbn -[String.eqb Transcribe.run_backends].
  rewrite (eqb_empty_false _ Hne), Hex. cbn [negb orb].
  unfold Transcribe.run_backends. rewrite Hf.
  destruct (Transcribe.transcribe_faster _ _ _ _ _ _ _) as [c1 srt1].
  cbn [snd] in Hsrt. subst srt1.
  rewrite (eqb_empty_false _ Hsne). cbn [andb].
  rewrite (eqb_empty_false _ Hsne). cbn [andb]. reflexivity.
Qed.

Lemma transcribe_local_first_backend_wins_witness :
  ModelCache.validate_model_size "base" = true
  /\ Download.download_audio
       (Transcribe.dl (Transcribe.both_backends Transcribe.talk))
       "dQw4w9WgXcQ" "out" = Ok "out/dQw4w9WgXcQ.mp3"
  /\ Transcribe.transcribe_local (Transcribe.both_backends Transcribe.talk)
       "dQw4w9WgXcQ" "out" "en" "base" ModelCache.empty_caches
     = Ok (ModelCache.empty_caches,
           PyStr.join EmptyString (Transcribe.srt_blocks 1 Transcribe.talk)).
Proof.
  split; [reflexivity|]. split; [reflexivity|].
  apply (transcribe_local_first_backend_wins
           (Transcribe.both_backends Transcribe.talk)
           "dQw4w9WgXcQ" "out" "en" "base" "out/dQw4w9WgXcQ.mp3");
    try reflexivity; discriminate.
Defined.

(** ** Transcripts as input of the normalizer *)

Section TranscriptText.
Import PyStr Timestamp Normalizer Transcribe.

(** Blocks without a blank line, each with an arrow, joined by blank
    lines and closed by a line feed, are found again by [blocks_of]. *)
Lemma blocks_of_join (B : list string) :
  B <> [] ->
  Forall (fun b => solid b = true /\ contains arrow b = true) B ->
  match B with b :: _ => starts_clean b = true | [] => True end ->
  match last B with Some b => ends_clean b = true | None => True end ->
  blocks_of (join nlnl B +:+ nl) = B.
Proof.
  intros Hne Hall Hfirst Hlast. unfold blocks_of.
  rewrite strip_nl.
  - unfold nlnl. rewrite split_join.
    + apply filter_all. eapply Forall_impl; [exact Hall|].
      intros b [_ H]. exact H.
    + exact Hne.
    + eapply Forall_impl; [exact Hall|].
      intros b [Hs _] tail. cbn. now apply (unmatched_solid b tail).
  - destruct B as [|b rest]; [congruence|].
    destruct (join_head nlnl b rest) as [tail ->].
    now apply starts_clean_app.
  - destruct (last B) as [b|] eqn:El; [|apply last_None in El; congruence].
    destruct (join_last nlnl B b El) as [pre ->].
    now apply ends_clean_app.
Qed.

Lemma join_cons_ne sep (a : string) l :
  l <> [] -> join sep (a :: l) = a +:+ sep +:+ join sep l.
Proof. destruct l; [congruence | reflexivity]. Qed.

Lemma string_of_uint_digits u :
  all_chars is_digit (NilEmpty.string_of_uint u) = true.
Proof. induction u; cbn; auto. Qed.

Lemma decimal_digits n : all_chars is_digit (decimal n) = true.
Proof.
  unfold decimal, NilZero.string_of_uint.
  destruct (N.to_uint (Z.to_N n)) eqn:E; try reflexivity;
    rewrite <- E; apply string_of_uint_digits.
Qed.

Lemma digit_no_linebreak c : is_digit c = true -> negb (is_linebreak c) = true.
Proof. destruct c as [[] [] [] [] [] [] [] []]; vm_compute; congruence. Qed.

Lemma digit_no_space c : is_digit c = true -> negb (is_space c) = true.
Proof. destruct c as [[] [] [] [] [] [] [] []]; vm_compute; congruence. Qed.

Lemma decimal_no_linebreak n : no_linebreak (decimal n) = true.
Proof.
  unfold no_linebreak.
  apply (all_chars_impl is_digit); [apply digit_no_linebreak | apply decimal_digits].
Qed.

Lemma decimal_starts_clean n : starts_clean (decimal n) = true.
Proof.
  pose proof (decimal_digits n) as Hd. pose proof (decimal_not_empty n) as Hne.
  destruct (decimal n) as [|c s]; [congruence|].
  cbn [all_chars] in Hd. apply andb_prop in Hd as [Hc _].
  cbn [starts_clean]. now apply digit_no_space.
Qed.

Lemma strip_no_linebreak s : no_linebreak s = true -> no_linebreak (strip s) = true.
Proof.
  unfold no_linebreak, strip. intros H.
  destruct (lstrip_suffix s) as [a Ha]. rewrite Ha, all_chars_app in H.
  apply andb_prop in H as [_ H].
  destruct (rstrip_prefix (lstrip s)) as [b Hb]. rewrite Hb, all_chars_app in H.
  now apply andb_prop in H as [H _].
Qed.

Lemma ends_clean_not_empty s : ends_clean s = true -> s <> EmptyString.
Proof. destruct s; [discriminate | congruence]. Qed.

Lemma plain_text_clean seg :
  plain_segment seg ->
  starts_clean (strip (text seg)) = true /\ ends_clean (strip (text seg)) = true.
Proof.
  intros (_ & _ & _ & Hne).
  destruct (strip_empty_or_clean (text seg)) as [H|H]; [congruence | exact H].
Qed.

Lemma srt_lines_plain segs :
  forall i,
    Forall plain_segment segs ->
    Forall (fun l => no_linebreak l = true /\ l <> EmptyString) (srt_lines i segs).
Proof.
  induction segs as [|seg rest IH]; intros i Hall; [constructor|].
  inversion Hall as [|? ? Hseg Hrest]; subst.
  pose proof Hseg as (Hs & He & Hnl & Hne).
  cbn [srt_lines]. repeat constructor.
  - apply decimal_no_linebreak.
  - apply decimal_not_empty.
  - now apply timing_line_no_linebreak.
  - apply timing_line_not_empty.
  - now apply strip_no_linebreak.
  - exact Hne.
  - now apply IH.
Qed.

Lemma srt_lines_last segs :
  forall i,
    segs <> [] -> Forall plain_segment segs ->
    exists l, last (srt_lines i segs) = Some l /\ ends_clean l = true.
Proof.
  induction segs as [|seg rest IH]; intros i Hne Hall; [congruence|].
  inversion Hall as [|? ? Hseg Hrest]; subst.
  destruct rest as [|seg2 rest].
  - exists (strip (text seg)). split; [reflexivity|].
    now apply plain_text_clean.
  - destruct (IH (i + 1) ltac:(discriminate) Hrest) as (l & Hl & Hc).
    exists l. split; [|exact Hc].
    cbn [srt_lines] in *. now rewrite !last_cons2 in *.
Qed.

(** The blocks joined by [""] are the lines joined by line feeds. *)
Lemma srt_blocks_lines segs :
  forall i,
    segs <> [] ->
    join EmptyString (srt_blocks i segs) = join nl (srt_lines i segs) +:+ nl.
Proof.
  induction segs as [|seg rest IH]; intros i Hne; [congruence|].
  cbn [srt_blocks srt_lines]. rewrite join_empty_cons.
  rewrite 2 join_cons2. unfold srt_block.
  destruct rest as [|seg2 rest].
  - change (join EmptyString (srt_blocks (i + 1) [])) with EmptyString.
    change (join nl [strip (text seg)]) with (strip (text seg)).
    now rewrite append_empty_r, !append_assoc.
  - rewrite IH by discriminate.
    rewrite (join_cons_ne nl (strip (text seg))) by discriminate.
    now rewrite !append_assoc.
Qed.

(** The text of a local backend holds no blank line: the normalizer reads
    it as one block, whose text lines are the first text line and every
    later line of the transcript. *)
Lemma backend_text_one_block g seg rest :
  Forall plain_segment (seg :: rest) ->
  normalize_segments (join EmptyString (srt_blocks 1 (seg :: rest))) g
  = Ok [mk_segment "1"
          (adjust_start g 0 (start_ms seg))
          (adjust_end (adjust_start g 0 (start_ms seg)) (end_ms seg))
          (strip (text seg) :: srt_lines 2 rest)].
Proof.
  intros Hall. unfold normalize_segments.
  rewrite srt_blocks_lines by discriminate.
  pose proof (srt_lines_plain _ 1 Hall) as Hlines.
  destruct (srt_lines_last (seg :: rest) 1 ltac:(discriminate) Hall)
    as (l & Hl & Hlc).
  inversion Hall as [|? ? Hseg Hrest]; subst.
  pose proof Hseg as (Hs & He & Hnl & Hne).
  change (join nl (srt_lines 1 (seg :: rest)) +:+ nl)
    with (join nlnl [join nl (srt_lines 1 (seg :: rest))] +:+ nl).
  rewrite blocks_of_join.
  - cbn [adjust_loop]. unfold parse_block.
    rewrite splitlines_join.
    + cbn [srt_lines]. rewrite split_timing_line by assumption.
      destruct (parse_ms_to_time _ Hs) as (sd & -> & <-).
      destruct (parse_ms_to_time _ He) as (ed & -> & <-).
      reflexivity.
    + eapply Forall_impl; [exact Hlines|]. now intros x [H _].
    + rewrite Hl. now apply ends_clean_not_empty.
  - discriminate.
  - constructor; [|constructor]. split.
    + cbn [srt_lines] in *. inversion Hlines as [|? ? [Hd _] Htl]; subst.
      now apply solid_join.
    + cbn [srt_lines]. rewrite join_cons2.
      destruct (join_head nl (timing_line (start_ms seg) (end_ms seg))
                  (strip (text seg) :: srt_lines (1 + 1) rest)) as [tail ->].
      apply contains_app, contains_app, contains_arrow_timing.
  - cbn [srt_lines].
    destruct (join_head nl (decimal 1)
                (timing_line (start_ms seg) (end_ms seg)
                   :: strip (text seg) :: srt_lines (1 + 1) rest)) as [tail ->].
    apply starts_clean_app, decimal_starts_clean.
  - cbn [last].
    destruct (join_last nl (srt_lines 1 (seg :: rest)) l Hl) as [pre ->].
    now apply ends_clean_app.
Qed.

Lemma transcribe_faster_text f load run path lang size_ c m seg rest :
  Download.check_audio_file f path = true ->
  snd (ModelCache._get_faster_model size_ load c) = Ok m ->
  run path lang = Ok (seg :: rest) ->
  snd (transcribe_faster f load run path lang size_ c)
  = join EmptyString (srt_blocks 1 (seg :: rest)).
Proof.
  intros Hc Hm Hr. unfold transcribe_faster. rewrite Hc. cbn [negb].
  destruct (ModelCache._get_faster_model size_ load c) as [c1 r].
  cbn [snd] in Hm. subst r. now rewrite Hr.
Qed.

Lemma transcribe_whisper_text f load run path lang size_ c m seg rest :
  Download.check_audio_file f path = true ->
  snd (ModelCache._get_whisper_model size_ load c) = Ok m ->
  run path lang = Ok (seg :: rest) ->
  snd (transcribe_whisper f load run path lang size_ c)
  = join EmptyString (srt_blocks 1 (seg :: rest)).
Proof.
  intros Hc Hm Hr. unfold transcribe_whisper. rewrite Hc. cbn [negb].
  destruct (ModelCache._get_whisper_model size_ load c) as [c1 r].
  cbn [snd] in Hm. subst r. now rewrite Hr.
Qed.

(** The blocks of the transcript API are the rendered segments, each with
    a line feed after it. *)
Lemma srt_blocks_render segs :
  forall i,
    srt_blocks i segs
    = map (fun b => b +:+ nl) (map render_segment (timeline_segments i segs)).
Proof.
  induction segs as [|seg rest IH]; intros i; [reflexivity|].
  cbn [srt_blocks timeline_segments map]. rewrite <- IH. f_equal.
  unfold srt_block, timeline_segment, render_segment.
  cbn [seg_idx seg_start seg_end seg_text].
  fold (timing_line (start_ms seg) (end_ms seg)).
  rewrite 2 join_cons2.
  change (join nl [strip (text seg)]) with (strip (text seg)).
  now rewrite !append_assoc.
Qed.

Lemma join_closed_blocks (B : list string) :
  B <> [] -> join nl (map (fun b => b +:+ nl) B) = join nlnl B +:+ nl.
Proof.
  induction B as [|b rest IH]; intros Hne; [congruence|].
  destruct rest as [|b2 rest]; [reflexivity|].
  cbn [map] in *. rewrite 2 join_cons2. rewrite IH by discriminate.
  change nlnl with (nl +:+ nl). now rewrite !append_assoc.
Qed.

Lemma timeline_segments_facts segs :
  forall i,
    Forall plain_segment segs ->
    Forall (fun sg =>
              clean_lines sg /\ 0 <= seg_start sg < 86400000
              /\ 0 <= seg_end sg < 86400000
              /\ Forall (fun l => l <> EmptyString) (seg_text sg)
              /\ starts_clean (seg_idx sg) = true
              /\ match last (seg_text sg) with
                 | Some l => ends_clean l = true
                 | None => True
                 end)
           (timeline_segments i segs).
Proof.
  induction segs as [|seg rest IH]; intros i Hall; [constructor|].
  inversion Hall as [|? ? Hseg Hrest]; subst.
  pose proof Hseg as (Hs & He & Hnl & Hne).
  cbn [timeline_segments]. constructor; [|now apply IH].
  unfold timeline_segment, clean_lines.
  cbn [seg_idx seg_start seg_end seg_text last].
  repeat split; try lia.
  - apply decimal_no_linebreak.
  - constructor; [now apply strip_no_linebreak | constructor].
  - constructor; [exact Hne | constructor].
  - apply decimal_starts_clean.
  - now apply plain_text_clean.
Qed.

(** What the loop emits for rendered segments: the same index and text
    lines, with times that are not earlier. *)
Lemma adjust_loop_timeline g segs :
  forall prev,
    Forall (fun sg =>
              parse_block (render_segment sg)
              = Ok (mk_raw (seg_idx sg) (seg_start sg) (seg_end sg) (seg_text sg)))
           segs ->
    exists out,
      adjust_loop g prev (map render_segment segs) = Ok out
      /\ Forall2 (fun sg o =>
                    seg_idx o = seg_idx sg /\ seg_text o = seg_text sg
                    /\ seg_start sg <= seg_start o /\ seg_end sg <= seg_end o)
                 segs out.
Proof.
  induction segs as [|sg rest IH]; intros prev Hall.
  - exists []. split; [reflexivity | constructor].
  - inversion Hall as [|? ? Hparse Hrest]; subst.
    cbn [map adjust_loop]. rewrite Hparse. cbn.
    cbn [raw_idx raw_start raw_end raw_text].
    destruct (IH (adjust_end (adjust_start g prev (seg_start sg)) (seg_end sg))
                Hrest) as (out & -> & Hout).
    eexists. split; [reflexivity|].
    constructor; [|exact Hout].
    cbn [seg_idx seg_text seg_start seg_end].
    repeat split; [apply adjust_start_ge_start | apply adjust_end_ge].
Qed.

Lemma api_text_blocks g seg rest :
  Forall plain_segment (seg :: rest) ->
  join nl (srt_blocks 1 (seg :: rest))
    = render_timeline (timeline_segments 1 (seg :: rest))
  /\ exists out,
       normalize_segments (join nl (srt_blocks 1 (seg :: rest))) g = Ok out
       /\ Forall2 (fun sg o =>
                     seg_idx o = seg_idx sg /\ seg_text o = seg_text sg
                     /\ seg_start sg <= seg_start o /\ seg_end sg <= seg_end o)
                  (timeline_segments 1 (seg :: rest)) out.
Proof.
  intros Hall.
  pose proof (timeline_segments_facts _ 1 Hall) as Hfacts.
  assert (Htext : join nl (srt_blocks 1 (seg :: rest))
                  = render_timeline (timeline_segments 1 (seg :: rest))).
  { rewrite srt_blocks_render. unfold render_timeline.
    apply join_closed_blocks. discriminate. }
  split; [exact Htext|]. rewrite Htext.
  unfold normalize_segments, render_timeline.
  rewrite blocks_of_join.
  - apply adjust_loop_timeline.
    eapply Forall_impl; [exact Hfacts|].
    intros sg (Hc & Hs & He & Hne & _). now apply parse_block_render.
  - discriminate.
  - apply Forall_map. eapply Forall_impl; [exact Hfacts|].
    intros sg (Hc & Hs & He & Hne & _). cbn. split.
    + now apply render_segment_solid.
    + apply render_segment_contains_arrow.
  - cbn [timeline_segments map] in *.
    inversion Hfacts as [|? ? (_ & _ & _ & _ & Hst & _) _]; subst.
    now apply render_segment_starts_clean.
  - destruct (last (timeline_segments 1 (seg :: rest))) as [sgl|] eqn:El.
    2:{ apply last_None in El. discriminate. }
    rewrite (last_map render_segment _ _ El).
    assert (Hin : In sgl (timeline_segments 1 (seg :: rest))).
    { apply last_Some in El as [l' ->]. apply in_or_app. right. now left. }
    rewrite List.Forall_forall in Hfacts.
    destruct (Hfacts sgl Hin) as (_ & _ & He & _ & _ & Hl).
    now apply render_segment_ends_clean.
Qed.

End TranscriptText.

(** X29. A transcript of a local backend is read by the normalizer as
    ONE block.  The backends join their blocks with the empty string, so
    only one line feed stands between two blocks; when the audio is
    accepted, the model is there and the segments (at least one, times
    within the day, text of one line that is not blank) come back,
    [normalize_segments] on the returned text gives a single segment,
    numbered 1, whose text lines are the first text and then the index
    line, the timing line and the text of every later segment. *)
Theorem backend_transcript_is_one_block (f : Download.fs)
    (load : result ModelCache.model)
    (run : string -> string -> result (list Transcribe.tseg))
    (path lang model_size : string) (c : ModelCache.caches)
    (m : ModelCache.model) (seg : Transcribe.tseg)
    (rest : list Transcribe.tseg) (min_gap : Z) :
  Download.check_audio_file f path = true ->
  run path lang = Ok (seg :: rest) ->
  Forall Transcribe.plain_segment (seg :: rest) ->
  let one_block :=
    Ok [Normalizer.mk_segment "1"
          (Normalizer.adjust_start min_gap 0 (Transcribe.start_ms seg))
          (Normalizer.adjust_end
             (Normalizer.adjust_start min_gap 0 (Transcribe.start_ms seg))
             (Transcribe.end_ms seg))
          (PyStr.strip (Transcribe.text seg) :: Transcribe.srt_lines 2 rest)] in
  (snd (ModelCache._get_faster_model model_size load c) = Ok m ->
   Normalizer.normalize_segments
     (snd (Transcribe.transcribe_faster f load run path lang model_size c))
     min_gap = one_block)
  /\ (snd (ModelCache._get_whisper_model model_size load c) = Ok m ->
      Normalizer.normalize_segments
        (snd (Transcribe.transcribe_whisper f load run path lang model_size c))
        min_gap = one_block).
Proof.
  intros Hc Hr Hall one_block. subst one_block. split; intros Hm.
  - rewrite (transcribe_faster_text _ _ _ _ _ _ _ m seg rest Hc Hm Hr).
    now apply backend_text_one_block.
  - rewrite (transcribe_whisper_text _ _ _ _ _ _ _ m seg rest Hc Hm Hr).
    now apply backend_text_one_block.
Qed.

Lemma talk_plain : Forall Transcribe.plain_segment Transcribe.talk.
Proof.
  repeat constructor; cbn; try lia; vm_compute; discriminate.
Qed.

Lemma backend_transcript_is_one_block_witness :
  Download.check_audio_file
    (Transcribe.fs_now (Transcribe.both_backends Transcribe.talk))
    "out/dQw4w9WgXcQ.mp3" = true
  /\ Normalizer.normalize_segments
       (snd (Transcribe.transcribe_faster
               (Transcribe.fs_now (Transcribe.both_backends Transcribe.talk))
               (Ok 1%nat) (fun _ _ => Ok Transcribe.talk)
               "out/dQw4w9WgXcQ.mp3" "en" "base" ModelCache.empty_caches))
       100
     = Ok [Normalizer.mk_segment "1" 100 1500
             ["Hello"; "2"; "00:00:01,500 --> 00:00:03,000"; "World"]].
Proof.
  split; [reflexivity|].
  apply (proj1 (backend_transcript_is_one_block
                  (Transcribe.fs_now (Transcribe.both_backends Transcribe.talk))
                  (Ok 1%nat) (fun _ _ => Ok Transcribe.talk)
                  "out/dQw4w9WgXcQ.mp3" "en" "base" ModelCache.empty_caches
                  1%nat (Transcribe.mk_tseg 0 1500 " Hello ")
                  [Transcribe.mk_tseg 1500 3000 " World "] 100
                  eq_refl eq_refl talk_plain)).
  reflexivity.
Defined.

(** X30. A transcript of the transcript API is read by the normalizer
    block by block.  [get_youtube_api_transcript] joins its blocks with a
    line feed, which leaves a blank line between them: for segments as
    above the returned text is the rendered timeline of the segments, and
    [normalize_segments] gives one segment for each of them, with its
    number, its stripped text as the only text line, and times that are
    not earlier. *)
Theorem api_transcript_block_per_segment
    (get_transcript : string -> result (list Transcribe.tseg))
    (video_id : string) (seg : Transcribe.tseg) (rest : list Transcribe.tseg)
    (min_gap : Z) :
  get_transcript video_id = Ok (seg :: rest) ->
  Forall Transcribe.plain_segment (seg :: rest) ->
  Transcribe.get_youtube_api_transcript true get_transcript video_id
    = Normalizer.render_timeline (Transcribe.timeline_segments 1 (seg :: rest))
  /\ exists out,
       Normalizer.normalize_segments
         (Transcribe.get_youtube_api_transcript true get_transcript video_id)
         min_gap = Ok out
       /\ Forall2 (fun sg o =>
                     Normalizer.seg_idx o = Normalizer.seg_idx sg
                     /\ Normalizer.seg_text o = Normalizer.seg_text sg
                     /\ Normalizer.seg_start sg <= Normalizer.seg_start o
                     /\ Normalizer.seg_end sg <= Normalizer.seg_end o)
                  (Transcribe.timeline_segments 1 (seg :: rest)) out.
Proof.
  intros Hget Hall. unfold Transcribe.get_youtube_api_transcript.
  cbn [negb]. rewrite Hget. now apply api_text_blocks.
Qed.

Lemma api_transcript_block_per_segment_witness :
  Transcribe.get_youtube_api_transcript true (fun _ => Ok Transcribe.talk)
    "dQw4w9WgXcQ"
    = Normalizer.render_timeline (Transcribe.timeline_segments 1 Transcribe.talk)
  /\ exists out,
       Normalizer.normalize_segments
         (Transcribe.get_youtube_api_transcript true
            (fun _ => Ok Transcribe.talk) "dQw4w9WgXcQ") 100 = Ok out
       /\ Forall2 (fun sg o =>
                     Normalizer.seg_idx o = Normalizer.seg_idx sg
                     /\ Normalizer.seg_text o = Normalizer.seg_text sg
                     /\ Normalizer.seg_start sg <= Normalizer.seg_start o
                     /\ Normalizer.seg_end sg <= Normalizer.seg_end o)
                  (Transcribe.timeline_segments 1 Transcribe.talk) out.
Proof.
  exact (api_transcript_block_per_segment (fun _ => Ok Transcribe.talk)
           "dQw4w9WgXcQ" (Transcribe.mk_tseg 0 1500 " Hello ")
           [Transcribe.mk_tseg 1500 3000 " World "] 100 eq_refl talk_plain).
Defined.
